(** * The frame-rejuvenation console: script assembly, context
      localisation and the generative-call pipeline

    A shallow embedding of the production console (the component [App])
    and of [services/geminiService.ts] (the generative-service client),
    with the ECMAScript primitives they call written out in module
    [JS]. *)

From Stdlib Require Import String Ascii.
From Stdlib Require DecimalString.
From Stdlib Require Import NArith ZArith List Bool Lia.
From Stdlib Require Import Sorting.Permutation Sorting.Sorted.
From Stdlib Require Import Floats.SpecFloat.
Import ListNotations.

Set Warnings "-abstract-large-number".

Set Implicit Arguments.

(* ================================================================== *)
(** ** ECMAScript primitives *)
(* ================================================================== *)

Module JS.

(** A string is its sequence of UTF-16 code units; [length] is the
    script-visible [.length]. *)
Definition unit16 := N.
Definition jsstring := list unit16.

(** A source literal (all literals of the program are ASCII). *)
Definition lit (s : string) : jsstring :=
  List.map N_of_ascii (list_ascii_of_string s).

Fixpoint eqb (a b : jsstring) : bool :=
  match a, b with
  | [], [] => true
  | x :: a', y :: b' => N.eqb x y && eqb a' b'
  | _, _ => false
  end.

(** [ToBoolean] of a string: every string but the empty one is truthy. *)
Definition truthy (s : jsstring) : bool :=
  match s with [] => false | _ :: _ => true end.

(** [s.startsWith(p)]. *)
Fixpoint startsWith (s p : jsstring) {struct p} : bool :=
  match p, s with
  | [], _ => true
  | _ :: _, [] => false
  | y :: p', x :: s' => N.eqb x y && startsWith s' p'
  end.

(** [s.endsWith(p)]: the last [p.length] units of [s] are [p]. *)
Definition endsWith (s p : jsstring) : bool :=
  Nat.leb (length p) (length s) && eqb (skipn (length s - length p) s) p.

(** [s.split(sep)] for a separator of one code unit (the program splits
    on ['.'] and on ['\n'] only). The result is never empty:
    [''.split(sep)] is [['']]. *)
Fixpoint split (sep : unit16) (s : jsstring) : list jsstring :=
  match s with
  | [] => [[]]
  | c :: s' =>
      if N.eqb c sep then [] :: split sep s'
      else match split sep s' with
           | seg :: segs => (c :: seg) :: segs
           | [] => [[c]]
           end
  end.

(** [a.shift()]: the first element ([undefined] on an empty array); the
    array keeps the rest. *)
Definition shift {A} (a : list A) : option A * list A :=
  match a with
  | [] => (None, [])
  | x :: rest => (Some x, rest)
  end.

(** [v || ''] for [v : string | undefined]. *)
Definition orEmpty (v : option jsstring) : jsstring :=
  match v with
  | Some s => if truthy s then s else []
  | None => []
  end.

(** [a.join(sep)]. *)
Fixpoint join (sep : jsstring) (a : list jsstring) : jsstring :=
  match a with
  | [] => []
  | [x] => x
  | x :: rest => x ++ sep ++ join sep rest
  end.

(** [s.indexOf(needle)]: the least position at which [needle] occurs,
    [-1] when there is none. *)
Fixpoint indexOfFrom (needle s : jsstring) (i : Z) : Z :=
  if startsWith s needle then i
  else match s with
       | [] => (-1)%Z
       | _ :: s' => indexOfFrom needle s' (i + 1)%Z
       end.

Definition indexOf (s needle : jsstring) : Z := indexOfFrom needle s 0%Z.

Definition len (s : jsstring) : Z := Z.of_nat (length s).

(** [s.substring(start, end)]: both arguments are clamped to
    [0 .. s.length] and swapped when [start > end]. *)
Definition clamp (s : jsstring) (x : Z) : Z := Z.min (Z.max x 0) (len s).

Definition substring (s : jsstring) (start stop : Z) : jsstring :=
  let a := clamp s start in
  let b := clamp s stop in
  let from := Z.min a b in
  let to := Z.max a b in
  firstn (Z.to_nat (to - from)) (skipn (Z.to_nat from) s).

(** WhiteSpace and LineTerminator code points, the ones [trim] strips. *)
Definition isWhiteSpace (c : unit16) : bool :=
  (N.eqb c 9 || N.eqb c 10 || N.eqb c 11 || N.eqb c 12 || N.eqb c 13
   || N.eqb c 32 || N.eqb c 160 || N.eqb c 5760
   || (N.leb 8192 c && N.leb c 8202)
   || N.eqb c 8232 || N.eqb c 8233 || N.eqb c 8239 || N.eqb c 8287
   || N.eqb c 12288 || N.eqb c 65279)%bool.

Fixpoint trimStart (s : jsstring) : jsstring :=
  match s with
  | [] => []
  | c :: s' => if isWhiteSpace c then trimStart s' else s
  end.

Definition trimEnd (s : jsstring) : jsstring := rev (trimStart (rev s)).

Definition trim (s : jsstring) : jsstring := trimEnd (trimStart s).

(** The [<] of strings: lexicographic on code units, a proper prefix
    first. *)
Fixpoint compare (a b : jsstring) : comparison :=
  match a, b with
  | [], [] => Eq
  | [], _ :: _ => Lt
  | _ :: _, [] => Gt
  | x :: a', y :: b' =>
      match N.compare x y with
      | Eq => compare a' b'
      | c => c
      end
  end.

(** The comparator [a.sort()] uses when it is given none. *)
Definition defaultCompare (a b : jsstring) : Z :=
  match compare a b with
  | Lt => (-1)%Z
  | Eq => 0%Z
  | Gt => 1%Z
  end.

(** [a.sort(cmp)]: a stable sort. For a comparator that is consistent
    the language fixes the result, and any stable algorithm computes it;
    this is insertion from the right. *)
Fixpoint insert {A} (cmp : A -> A -> Z) (x : A) (l : list A) : list A :=
  match l with
  | [] => [x]
  | y :: l' => if (cmp x y <=? 0)%Z then x :: l else y :: insert cmp x l'
  end.

Definition sort {A} (cmp : A -> A -> Z) (l : list A) : list A :=
  fold_right (insert cmp) [] l.

(** A plain object used as a record: its own properties in enumeration
    order, each key once. *)
Definition object (V : Type) := list (jsstring * V).

Definition keys {V} (o : object V) : list jsstring := List.map fst o.
Definition values {V} (o : object V) : list V := List.map snd o.

Fixpoint getOwn {V} (o : object V) (k : jsstring) : option V :=
  match o with
  | [] => None
  | (k', v) :: o' => if eqb k' k then Some v else getOwn o' k
  end.

(** [o[k] = v]: an existing property keeps its place. *)
Fixpoint setOwn {V} (o : object V) (k : jsstring) (v : V) : object V :=
  match o with
  | [] => [(k, v)]
  | (k', v') :: o' =>
      if eqb k' k then (k', v) :: o' else (k', v') :: setOwn o' k v
  end.

(** [{...a, ...b}]. *)
Definition spread {V} (a b : object V) : object V :=
  fold_left (fun o kv => setOwn o (fst kv) (snd kv)) b a.

(** The properties every plain object inherits from [Object.prototype]. *)
Definition prototypeNames : list jsstring :=
  List.map lit
    ["constructor"; "__defineGetter__"; "__defineSetter__";
     "hasOwnProperty"; "__lookupGetter__"; "__lookupSetter__";
     "isPrototypeOf"; "propertyIsEnumerable"; "toString"; "valueOf";
     "__proto__"; "toLocaleString"]%string.

End JS.

Import JS.

(* ================================================================== *)
(** ** Values read from a structured response *)
(* ================================================================== *)

(** What [JSON.parse] returns, and [undefined] for a property that is
    not there. *)
#[warnings="-register-all"]
Inductive Value : Type :=
| VUndefined
| VNull
| VBool (b : bool)
| VNumber (x : spec_float)
| VString (s : jsstring)
| VArray (items : list Value)
| VObject (props : list (jsstring * Value)).

(** [ToBoolean]. *)
Definition truthyValue (v : Value) : bool :=
  match v with
  | VUndefined | VNull => false
  | VBool b => b
  | VNumber (S754_zero _) | VNumber S754_nan => false
  | VNumber _ => true
  | VString s => truthy s
  | VArray _ | VObject _ => true
  end.

(** [a || b]. *)
Definition orValue (a b : Value) : Value :=
  if truthyValue a then a else b.

(** The own property [name] of an object read from JSON, [undefined]
    when it has none. *)
Fixpoint ownProperty (props : list (jsstring * Value)) (name : jsstring)
  : Value :=
  match props with
  | [] => VUndefined
  | (k, v) :: rest => if eqb k name then v else ownProperty rest name
  end.

(** [Object.hasOwn(o, name)] for an object read from JSON. *)
Definition hasOwn (props : list (jsstring * Value)) (name : jsstring)
  : bool :=
  existsb (fun kv => eqb (fst kv) name) props.

(** [v.name], for a name that none of the built-in prototypes defines
    (the three names the identifier reads are such): the own property
    of an object, [undefined] on any other value that has properties,
    and a TypeError ([None]) on [null] and [undefined]. *)
Definition getProperty (v : Value) (name : jsstring) : option Value :=
  match v with
  | VUndefined | VNull => None
  | VObject props => Some (ownProperty props name)
  | _ => Some VUndefined
  end.

(* ================================================================== *)
(** ** Asynchronous computations *)
(* ================================================================== *)

(** One part of a multimodal payload. *)
Inductive Part : Type :=
| Text (text : jsstring)
| InlineData (data mimeType : jsstring).

Inductive Contents : Type :=
| Prompt (text : jsstring)
| Parts (parts : list Part).

Inductive Config : Type :=
| NoConfig
| ResponseMimeType (mime : jsstring)
| ImageConfig (aspectRatio : jsstring).

(** The argument of [ai.models.generateContent]. *)
Record Request : Type := mkRequest {
  model : jsstring;
  contents : Contents;
  config : Config
}.

(** What the program reads of a response: [response.text]; what
    [JSON.parse] makes of that text when it is a non-empty string
    ([None]: it throws a SyntaxError); and [p.inlineData?.data] for each
    part [p] of [response.candidates?.[0]?.content?.parts]. *)
Record Response : Type := mkResponse {
  text : option jsstring;
  json : option Value;
  outParts : option (list (option jsstring))
}.

(** How an awaited call settles. *)
Inductive Outcome : Type :=
| Rejects
| Resolves (r : Response).

(** What the console does besides calling the service. [LogCaught] is
    a log line made of [prefix] and the text of an error that was
    caught, a text the engine chooses. *)
Inductive Effect : Type :=
| Log (msg : jsstring)
| LogCaught (prefix : jsstring)
| Download (data filename : jsstring) (isBase64 : bool)
| ConsoleError (msg : jsstring).

(** A computation that suspends at every generative call and resumes
    with its outcome. *)
Inductive Eff (A : Type) : Type :=
| Ret (a : A)
| Emit (e : Effect) (k : Eff A)
| Await (req : Request) (k : Outcome -> Eff A).

Arguments Ret {A} a.
Arguments Emit {A} e k.
Arguments Await {A} req k.

Fixpoint bind {A B} (m : Eff A) (f : A -> Eff B) : Eff B :=
  match m with
  | Ret a => f a
  | Emit e k => Emit e (bind k f)
  | Await req k => Await req (fun o => bind (k o) f)
  end.

Notation "x <- m ;; k" := (bind m (fun x => k))
  (at level 61, m at next level, right associativity).
Notation "e ;;; k" := (Emit e k)
  (at level 61, right associativity).

(** The service as the run meets it: the outcome of the [n]-th call. *)
Definition Service := nat -> Request -> Outcome.

Inductive Event : Type :=
| Called (req : Request)
| Did (e : Effect).

(** Running a computation against a service: its result and what
    happened, in order. [n] counts the calls made so far. *)
Fixpoint run {A} (service : Service) (n : nat) (m : Eff A)
  : A * list Event :=
  match m with
  | Ret a => (a, [])
  | Emit e k =>
      let (a, trace) := run service n k in (a, Did e :: trace)
  | Await req k =>
      let (a, trace) := run service (S n) (k (service n req)) in
      (a, Called req :: trace)
  end.

(** The requests of a trace. *)
Fixpoint calls (trace : list Event) : list Request :=
  match trace with
  | [] => []
  | Called req :: rest => req :: calls rest
  | Did _ :: rest => calls rest
  end.

(* ================================================================== *)
(** ** The generative-service client ([services/geminiService.ts]) *)
(* ================================================================== *)

Module Gemini.

(** The double quote, which the templates below contain. *)
Definition dq : jsstring := [34%N].

(** The literal stretches of the four prompt templates and of the image
    payload, cut at their placeholders. *)
Definition biblePromptAssets : jsstring :=
  lit "I am producing a high-stakes film. I need a master " ++ dq ++ lit "Character Bible" ++ dq ++ lit " for consistency.
    
    ASSET LIST (AVATARS): ".

Definition biblePromptExcerpt : jsstring :=
  lit "
    
    FULL SCRIPT EXCERPT:
    ".

Definition biblePromptTask : jsstring :=
  lit "
    
    TASK:
    1. EXHAUSTIVE ANALYSIS: For every character in the script, define their visual blueprint: skin tone, hair texture, distinct facial features (sharp jaw, hooked nose, etc.), and their signature " ++ dq ++ lit "vibe" ++ dq ++ lit " (neurotic, imposing, deceptive).
    2. ASSET MAPPING: Map the provided filenames to these characters. Be logical. If 'avatar_boss.png' exists, it matches the 'Boss' character. 
    3. STYLE KEY: Note their unique dialogue patterns to help infer physical performance.
    
    Format this as a technical production document for visual effects artists.".

Definition identifyPromptScene : jsstring :=
  lit "[CROSS-REFERENCE REQUEST]
    
    CONTEXT:
    SCENE DIALOGUE/ACTION: " ++ dq.

Definition identifyPromptVisual : jsstring :=
  dq ++ lit "
    VISUAL DATA FROM ROUGH FRAME: " ++ dq.

Definition identifyPromptBible : jsstring :=
  dq ++ lit "
    
    MASTER BIBLE:
    ".

Definition identifyPromptOutput : jsstring :=
  lit "
    
    OUTPUT JSON ONLY:
    {
      " ++ dq ++ lit "characterName" ++ dq ++ lit ": " ++ dq ++ lit "Who is the primary subject currently on screen?" ++ dq ++ lit ",
      " ++ dq ++ lit "avatarFilename" ++ dq ++ lit ": " ++ dq ++ lit "Which filename from the Bible represents this person?" ++ dq ++ lit ",
      " ++ dq ++ lit "otherCharacters" ++ dq ++ lit ": [" ++ dq ++ lit "Who else is in the scene contextually?" ++ dq ++ lit "],
      " ++ dq ++ lit "reasoning" ++ dq ++ lit ": " ++ dq ++ lit "Brief technical justification." ++ dq ++ lit "
    }".

Definition synthPromptPlot : jsstring :=
  lit "[CINEMATIC RECONSTRUCTION INSTRUCTION - NANO BANANA OPTIMIZED]
    
    STORY ENGINE DATA:
    - PLOT PROGRESSION: ".

Definition synthPromptAction : jsstring :=
  lit "
    - CURRENT ACTION/DIALOGUE: ".

Definition synthPromptContext : jsstring :=
  lit "
    - FULL CONTEXT: ".

Definition synthPromptIdentity : jsstring :=
  lit "
    
    VISUAL PARAMETERS:
    - TARGET IDENTITY: ".

Definition synthPromptTraits : jsstring :=
  lit " (Reference Bible traits: ".

Definition synthPromptFrame : jsstring :=
  lit ")
    - ORIGINAL FRAME COMPOSITION: ".

Definition synthPromptStyle : jsstring :=
  lit "
    - REQUIRED STYLE: ".

Definition synthPromptTask : jsstring :=
  lit "
    
    TASK: Write a prompt for a high-end image diffusion model (Gemini 2.5 Image).
    1. EMOTION INFERENCE: Determine the EXACT micro-expression required (e.g., " ++ dq ++ lit "twitching eye in repressed rage" ++ dq ++ lit ", " ++ dq ++ lit "a cold, calculating smirk" ++ dq ++ lit ").
    2. DESTRUCTIVE REPLACEMENT: Instruct the model to RECODE the face. Specify the skin texture, the light hitting the specific bone structure of ".

Definition synthPromptLens : jsstring :=
  lit ".
    3. CINEMATOGRAPHY: Force specific lens traits (e.g. " ++ dq ++ lit "Anamorphic bokeh, subtle halation, 35mm celluloid grit" ++ dq ++ lit ").
    4. TONALITY: Match the 'action, tone, and emotion' of the script.
    
    Output ONLY the final prompt. No conversation.".

Definition promptLabel : jsstring :=
  lit "[PROMPT] ".

Definition transplantInstruction : jsstring :=
  lit "

[INSTRUCTION] This is an IDENTITY TRANSPLANT. Use the AVATAR image as the *only* source for the person's identity. Use the SCENE image for pose, lighting, and composition. Replace the person in the SCENE with the person from the AVATAR.".

Definition avatarLabel : jsstring :=
  lit "

AVATAR (Identity Source):".

Definition sceneLabel : jsstring :=
  lit "

SCENE (Composition Source):".

Definition rerenderInstructionHead : jsstring :=
  lit "TASK: CINEMATIC RE-RENDER.
           - Enhance the following image based on this style: ".

Definition rerenderInstructionTail : jsstring :=
  lit "
           - OUTPUT: A single, high-fidelity, color film frame.".

Definition analysisPrompt : jsstring :=
  lit "DECONSTRUCT THIS FRAME: Describe the exact lighting setup (e.g., chiaroscuro, high-key), the camera lens feel, the character's current pose/silhouette, and the environment. Identify the exact emotional state of the character in the frame.".

(** [v || d] for [v : string | null | undefined]. *)
Definition orElse (v : option jsstring) (d : jsstring) : jsstring :=
  match v with
  | Some s => if truthy s then s else d
  | None => d
  end.

(** *** createCharacterBible *)

Definition biblePrompt (filenames : list jsstring) (fullScript : jsstring)
  : jsstring :=
  biblePromptAssets ++ join (lit ", ") filenames
  ++ biblePromptExcerpt ++ substring fullScript 0 15000
  ++ biblePromptTask.

Definition bibleRequest (filenames : list jsstring)
  (fullScript : jsstring) : Request :=
  let prompt := biblePrompt filenames fullScript in
  mkRequest (lit "gemini-3-pro-preview") (Prompt prompt) NoConfig.

Definition createCharacterBible (filenames : list jsstring)
  (fullScript : jsstring) : Eff jsstring :=
  Await (bibleRequest filenames fullScript)
    (fun settled =>
       match settled with
       | Resolves response =>
           Ret (orElse (text response)
                  (lit "Character Bible generation failed."))
       | Rejects =>
           ConsoleError (lit "Error creating Bible:") ;;;
           Ret (lit "Error creating Character Bible.")
       end).

(** *** analyzeSceneImage *)

Definition analysisRequest (base64 mimeType : jsstring) : Request :=
  mkRequest (lit "gemini-3-flash-preview")
    (Parts [InlineData base64 mimeType; Text analysisPrompt])
    NoConfig.

Definition analyzeSceneImage (base64 mimeType : jsstring) : Eff jsstring :=
  Await (analysisRequest base64 mimeType)
    (fun settled =>
       match settled with
       | Resolves response =>
           Ret (orElse (text response) (lit "Visual analysis unavailable."))
       | Rejects => Ret (lit "Image analysis failed.")
       end).

(** *** identifyConsistentCharacter *)

(** The object the identifier returns. A property that the object
    literal does not write reads as [undefined]. *)
Record Mapping : Type := mkMapping {
  characterName : Value;
  avatarFilename : Value;
  otherCharacters : Value
}.

Definition identifyPrompt (sceneText sceneVisualAnalysis characterBible
  : jsstring) : jsstring :=
  identifyPromptScene ++ sceneText
  ++ identifyPromptVisual ++ sceneVisualAnalysis
  ++ identifyPromptBible ++ substring characterBible 0 8000
  ++ identifyPromptOutput.

(** [JSON.parse(response.text || '{}')]; ['{}'] reads as the object
    with no property. *)
Definition parseText (response : Response) : option Value :=
  match text response with
  | Some t => if truthy t then json response else Some (VObject [])
  | None => Some (VObject [])
  end.

(** The [try] block after the call has resolved: [None] when a
    statement of it throws. *)
Definition readMapping (response : Response) : option Mapping :=
  match parseText response with
  | None => None
  | Some result =>
      match getProperty result (lit "characterName") with
      | None => None
      | Some name =>
          match getProperty result (lit "avatarFilename") with
          | None => None
          | Some file =>
              match getProperty result (lit "otherCharacters") with
              | None => None
              | Some others =>
                  Some (mkMapping
                          (orValue name (VString (lit "Unknown")))
                          (orValue file VNull)
                          (orValue others (VArray [])))
              end
          end
      end
  end.

(** What the [catch] block returns. *)
Definition caughtMapping : Mapping :=
  mkMapping (VString (lit "Unknown")) VNull VUndefined.

Definition identifyRequest (sceneText sceneVisualAnalysis characterBible
  : jsstring) : Request :=
  let prompt := identifyPrompt sceneText sceneVisualAnalysis characterBible in
  mkRequest (lit "gemini-3-flash-preview") (Prompt prompt)
    (ResponseMimeType (lit "application/json")).

Definition identifyConsistentCharacter (sceneText sceneVisualAnalysis
  characterBible : jsstring) : Eff Mapping :=
  Await (identifyRequest sceneText sceneVisualAnalysis characterBible)
    (fun settled =>
       match settled with
       | Resolves response =>
           match readMapping response with
           | Some mapping => Ret mapping
           | None => Ret caughtMapping
           end
       | Rejects => Ret caughtMapping
       end).

(** *** generateRejuvenatedPrompt *)

Section Synthesizer.

(** [Number::toString], which is not spelled out here. *)
Variable numberToString : spec_float -> jsstring.

(** [ToString], as a template placeholder and a property key apply it
    to a value read from JSON; [None] when it throws a TypeError. An
    object is converted by its [toString] method: the one of
    [Object.prototype], unless the object has an own property of that
    name, which, read from JSON, is no function, as is no [valueOf] that
    could stand in for it. An array joins the strings of its items. *)
Fixpoint toString (v : Value) : option jsstring :=
  match v with
  | VUndefined => Some (lit "undefined")
  | VNull => Some (lit "null")
  | VBool true => Some (lit "true")
  | VBool false => Some (lit "false")
  | VNumber x => Some (numberToString x)
  | VString s => Some s
  | VArray items =>
      option_map (join (lit ","))
        ((fix each (items : list Value) : option (list jsstring) :=
            match items with
            | [] => Some []
            | item :: rest =>
                match match item with
                      | VUndefined | VNull => Some []
                      | _ => toString item
                      end with
                | Some s =>
                    match each rest with
                    | Some strings => Some (s :: strings)
                    | None => None
                    end
                | None => None
                end
            end) items)
  | VObject props =>
      if hasOwn props (lit "toString") then None
      else Some (lit "[object Object]")
  end.

(** The template of the prompt, with [name] for the character name as
    its two placeholders print it. *)
Definition synthTemplate (sceneText name : jsstring)
  (bible style visualAnalysis fullScriptSnippet : jsstring)
  (storyMap : option jsstring) : jsstring :=
  synthPromptPlot ++ orElse storyMap (lit "Standard narrative arc.")
  ++ synthPromptAction ++ sceneText
  ++ synthPromptContext ++ substring fullScriptSnippet 0 1500
  ++ synthPromptIdentity ++ name
  ++ synthPromptTraits ++ substring bible 0 1000
  ++ synthPromptFrame ++ visualAnalysis
  ++ synthPromptStyle ++ style
  ++ synthPromptTask ++ name
  ++ synthPromptLens.

(** The prompt; [None] when a placeholder of the template throws, which
    only the character name can do: at run time it is whatever the
    identifier read from JSON. *)
Definition synthPrompt (sceneText : jsstring) (characterName : Value)
  (bible style visualAnalysis fullScriptSnippet : jsstring)
  (storyMap : option jsstring) : option jsstring :=
  match toString characterName with
  | Some name =>
      Some (synthTemplate sceneText name bible style visualAnalysis
              fullScriptSnippet storyMap)
  | None => None
  end.

Definition synthRequest (prompt : jsstring) : Request :=
  mkRequest (lit "gemini-3-pro-preview") (Prompt prompt) NoConfig.

(** The prompt is built before the [try]: when that throws, the
    function rejects ([None]) without a call. *)
Definition generateRejuvenatedPrompt (sceneText : jsstring)
  (characterName otherCharacters : Value)
  (bible style visualAnalysis fullScriptSnippet : jsstring)
  (storyMap : option jsstring) : Eff (option jsstring) :=
  match synthPrompt sceneText characterName bible style visualAnalysis
          fullScriptSnippet storyMap with
  | None => Ret None
  | Some prompt =>
      Await (synthRequest prompt)
        (fun settled =>
           match settled with
           | Resolves response =>
               Ret (Some
                      (orElse (option_map trim (text response))
                         (lit "Masterpiece film frame, cinematic lighting, ultra-detailed characters.")))
           | Rejects =>
               Ret (Some (lit "Cinematic film frame, professional lighting."))
           end)
  end.

End Synthesizer.

(** *** generateRevisedImage *)

(** [parts.push(p)]. *)
Definition push {A} (a : list A) (x : A) : list A := a ++ [x].

(** [avatarBase64 && avatarMime] as a condition: both are strings and
    neither is empty. *)
Definition bothPresent (avatarBase64 avatarMime : option jsstring)
  : option (jsstring * jsstring) :=
  match avatarBase64, avatarMime with
  | Some data, Some mime =>
      if truthy data && truthy mime then Some (data, mime) else None
  | _, _ => None
  end.

Definition revisionParts (prompt : jsstring)
  (avatarBase64 avatarMime : option jsstring)
  (sceneBase64 sceneMime : jsstring) : list Part :=
  let parts : list Part := [] in
  match bothPresent avatarBase64 avatarMime with
  | Some (avatarData, avatarType) =>
      let parts := push parts (Text (promptLabel ++ prompt)) in
      let parts := push parts (Text transplantInstruction) in
      let parts := push parts (Text avatarLabel) in
      let parts := push parts (InlineData avatarData avatarType) in
      let parts := push parts (Text sceneLabel) in
      let parts := push parts (InlineData sceneBase64 sceneMime) in
      parts
  | None =>
      let instruction :=
        rerenderInstructionHead ++ prompt ++ rerenderInstructionTail in
      let parts := push parts (Text instruction) in
      let parts := push parts (InlineData sceneBase64 sceneMime) in
      parts
  end.

(** The first part of the response that carries image data. *)
Fixpoint firstImage (partsOut : list (option jsstring)) : option jsstring :=
  match partsOut with
  | [] => None
  | p :: rest =>
      match p with
      | Some data => if truthy data then Some data else firstImage rest
      | None => firstImage rest
      end
  end.

Definition defaultAspectRatio : jsstring := lit "16:9".

Definition revisionRequest (prompt : jsstring)
  (avatarBase64 avatarMime : option jsstring)
  (sceneBase64 sceneMime : jsstring) (aspectRatio : jsstring) : Request :=
  let parts :=
    revisionParts prompt avatarBase64 avatarMime sceneBase64 sceneMime in
  mkRequest (lit "gemini-2.5-flash-image") (Parts parts)
    (ImageConfig aspectRatio).

(** The result is the [imageBase64] of the object returned. *)
Definition generateRevisedImage (prompt : jsstring)
  (avatarBase64 avatarMime : option jsstring)
  (sceneBase64 sceneMime : jsstring) (aspectRatio : jsstring)
  : Eff (option jsstring) :=
  Await (revisionRequest prompt avatarBase64 avatarMime sceneBase64
           sceneMime aspectRatio)
    (fun settled =>
       match settled with
       | Resolves response =>
           match outParts response with
           | Some partsOut => Ret (firstImage partsOut)
           | None => Ret None
           end
       | Rejects =>
           ConsoleError (lit "Revision Error:") ;;; Ret None
       end).

End Gemini.

(* ================================================================== *)
(** ** The production console ([App.tsx]) *)
(* ================================================================== *)

Module App.

Import Gemini.

Record SourceImage : Type := mkSourceImage {
  fileName : jsstring;
  base64 : jsstring;
  mimeType : jsstring
}.

Record TextFile : Type := mkTextFile {
  name : jsstring;
  content : jsstring
}.

Record RejuvenatedItem : Type := mkRejuvenatedItem {
  originalName : jsstring;
  newName : jsstring;
  itemBase64 : jsstring;
  itemPrompt : jsstring
}.

Inductive Stage : Type := IDLE | ANALYZING | PROCESSING | COMPLETE.

(** The component's state. The log is kept as the [Log] effects of a
    run. *)
Record State : Type := mkState {
  stage : Stage;
  isUploading : bool;
  status : jsstring;
  error : option jsstring;
  avatars : object SourceImage;
  processedImages : object SourceImage;
  textFiles : list TextFile;
  fullScript : option TextFile;
  storyMap : option TextFile;
  style : jsstring;
  characterBible : jsstring;
  results : list RejuvenatedItem
}.

Definition initialState : State :=
  mkState IDLE false (lit "SYSTEM_READY") None [] [] [] None None
    (lit "cinematic film grain, high-key lighting, vibrant reds and deep blacks.")
    [] [].

Definition setStage (v : Stage) (st : State) : State :=
  mkState v (isUploading st) (status st) (error st) (avatars st)
    (processedImages st) (textFiles st) (fullScript st) (storyMap st)
    (style st) (characterBible st) (results st).

Definition setIsUploading (v : bool) (st : State) : State :=
  mkState (stage st) v (status st) (error st) (avatars st)
    (processedImages st) (textFiles st) (fullScript st) (storyMap st)
    (style st) (characterBible st) (results st).

Definition setStatus (v : jsstring) (st : State) : State :=
  mkState (stage st) (isUploading st) v (error st) (avatars st)
    (processedImages st) (textFiles st) (fullScript st) (storyMap st)
    (style st) (characterBible st) (results st).

Definition setError (v : option jsstring) (st : State) : State :=
  mkState (stage st) (isUploading st) (status st) v (avatars st)
    (processedImages st) (textFiles st) (fullScript st) (storyMap st)
    (style st) (characterBible st) (results st).

Definition setAvatars (v : object SourceImage) (st : State) : State :=
  mkState (stage st) (isUploading st) (status st) (error st) v
    (processedImages st) (textFiles st) (fullScript st) (storyMap st)
    (style st) (characterBible st) (results st).

Definition setProcessedImages (v : object SourceImage) (st : State)
  : State :=
  mkState (stage st) (isUploading st) (status st) (error st) (avatars st)
    v (textFiles st) (fullScript st) (storyMap st)
    (style st) (characterBible st) (results st).

Definition setTextFiles (v : list TextFile) (st : State) : State :=
  mkState (stage st) (isUploading st) (status st) (error st) (avatars st)
    (processedImages st) v (fullScript st) (storyMap st)
    (style st) (characterBible st) (results st).

Definition setFullScript (v : option TextFile) (st : State) : State :=
  mkState (stage st) (isUploading st) (status st) (error st) (avatars st)
    (processedImages st) (textFiles st) v (storyMap st)
    (style st) (characterBible st) (results st).

Definition setStoryMap (v : option TextFile) (st : State) : State :=
  mkState (stage st) (isUploading st) (status st) (error st) (avatars st)
    (processedImages st) (textFiles st) (fullScript st) v
    (style st) (characterBible st) (results st).

Definition setStyle (v : jsstring) (st : State) : State :=
  mkState (stage st) (isUploading st) (status st) (error st) (avatars st)
    (processedImages st) (textFiles st) (fullScript st) (storyMap st)
    v (characterBible st) (results st).

Definition setCharacterBible (v : jsstring) (st : State) : State :=
  mkState (stage st) (isUploading st) (status st) (error st) (avatars st)
    (processedImages st) (textFiles st) (fullScript st) (storyMap st)
    (style st) v (results st).

Definition setResults (v : list RejuvenatedItem) (st : State) : State :=
  mkState (stage st) (isUploading st) (status st) (error st) (avatars st)
    (processedImages st) (textFiles st) (fullScript st) (storyMap st)
    (style st) (characterBible st) v.

(** A count as a template placeholder prints it. *)
Definition decimal (n : nat) : jsstring :=
  lit (DecimalString.NilZero.string_of_uint (Nat.to_uint n)).

Definition dot : unit16 := 46%N.
Definition newline : unit16 := 10%N.

(** *** The script assembler (in [handleUpload]) *)

(** [imageKey.split('.').shift() || ""]. *)
Definition baseOf (imageKey : jsstring) : jsstring :=
  orEmpty (fst (shift (split dot imageKey))).

(** [texts.find(t => t.name.startsWith(base) && t.name.endsWith('.txt'))]. *)
Definition findText (texts : list TextFile) (base : jsstring)
  : option TextFile :=
  find (fun t => startsWith (name t) base && endsWith (name t) (lit ".txt"))
    texts.

Definition sortedImageKeys (tempProcessed : object SourceImage)
  : list jsstring :=
  sort defaultCompare (keys tempProcessed).

(** One turn of the loop over [sortedImageKeys]. [lines[3]] is read under
    the guard that it is there. *)
Definition assembleStep (tempTexts : list TextFile)
  (hs4000Lines : list jsstring) (imageKey : jsstring) : list jsstring :=
  let base := baseOf imageKey in
  match findText tempTexts base with
  | Some tFile =>
      let lines := split newline (content tFile) in
      if Nat.leb 4 (length lines)
      then push hs4000Lines (nth 3 lines [])
      else hs4000Lines
  | None => hs4000Lines
  end.

Definition hs4000Lines (tempProcessed : object SourceImage)
  (tempTexts : list TextFile) : list jsstring :=
  fold_left (assembleStep tempTexts) (sortedImageKeys tempProcessed) [].

Definition hs4000Content (tempProcessed : object SourceImage)
  (tempTexts : list TextFile) : jsstring :=
  join [newline] (hs4000Lines tempProcessed tempTexts).

(** *** The context localizer (in [processProductionRun]) *)

(** [tFile.content.split('\n').slice(3).join('\n')]. *)
Definition sceneSnippet (tFile : TextFile) : jsstring :=
  join [newline] (skipn 3 (split newline (content tFile))).

(** [img.fileName.split('.').shift() || ""]. *)
Definition frameBase (img : SourceImage) : jsstring :=
  orEmpty (fst (shift (split dot (fileName img)))).

Definition localize (fullScript : option TextFile)
  (sceneTextSnippet : jsstring) : jsstring :=
  let scriptContext : jsstring := [] in
  match fullScript with
  | Some script =>
      let snippetStart := substring sceneTextSnippet 0 40 in
      let index := indexOf (content script) snippetStart in
      if negb (index =? -1)%Z
      then substring (content script)
             (Z.max 0 (index - 1000))
             (Z.min (len (content script)) (index + 3000))
      else scriptContext
  | None => scriptContext
  end.

(** *** Resolving the avatar *)

(** What [avatars[key]] evaluates to: an own property, a member of
    [Object.prototype], or [undefined]; and [null], the other arm of the
    conditional. *)
Inductive AvatarRef : Type :=
| ANull
| AUndefined
| AImage (img : SourceImage)
| AInherited (member : jsstring).

Definition getAvatar (avatars : object SourceImage) (key : jsstring)
  : AvatarRef :=
  match getOwn avatars key with
  | Some img => AImage img
  | None =>
      if existsb (eqb key) prototypeNames then AInherited key
      else AUndefined
  end.

(** [avatar?.base64] and [avatar?.mimeType]: no member of
    [Object.prototype] has either property. *)
Definition optBase64 (avatar : AvatarRef) : option jsstring :=
  match avatar with
  | AImage img => Some (base64 img)
  | ANull | AUndefined | AInherited _ => None
  end.

Definition optMimeType (avatar : AvatarRef) : option jsstring :=
  match avatar with
  | AImage img => Some (mimeType img)
  | ANull | AUndefined | AInherited _ => None
  end.

(** [v || null]. *)
Definition orNull (v : option jsstring) : option jsstring :=
  match v with
  | Some s => if truthy s then Some s else None
  | None => None
  end.

(** *** A model of [localeCompare] on ASCII names

    On strings of ASCII letters, digits and ['.'] the default collation
    compares without regard to case first and, at a tie, puts the lower
    case letter first. *)
Definition foldCase (c : unit16) : unit16 :=
  if (N.leb 65 c && N.leb c 90)%bool then (c + 32)%N else c.

Definition asciiLocaleCompare (a b : jsstring) : Z :=
  match compare (List.map foldCase a) (List.map foldCase b) with
  | Lt => (-1)%Z
  | Gt => 1%Z
  | Eq => defaultCompare b a
  end.

Section Platform.

(** Three functions of the platform whose results rest on Unicode and
    locale data. *)
Variable toLowerCase : jsstring -> jsstring.
Variable localeCompare : jsstring -> jsstring -> Z.
Variable numberToString : spec_float -> jsstring.

(** *** handleUpload *)

(** What [recursiveUnzip] extracted from one archive. *)
Record Extracted : Type := mkExtracted {
  images : object SourceImage;
  texts : list TextFile
}.

(** [s.includes(needle)]. *)
Definition includes (s needle : jsstring) : bool :=
  negb (indexOf s needle =? -1)%Z.

(** The loop over the chosen files, each with what was extracted from
    it. *)
Definition partitionStep
  (temp : object SourceImage * object SourceImage * list TextFile)
  (file : jsstring * Extracted)
  : object SourceImage * object SourceImage * list TextFile :=
  let '(tempAvatars, tempProcessed, tempTexts) := temp in
  let name := toLowerCase (fst file) in
  let extracted := snd file in
  if includes name (lit "avatars")
  then (spread tempAvatars (images extracted), tempProcessed, tempTexts)
  else if includes name (lit "processed")
  then (tempAvatars, spread tempProcessed (images extracted),
        tempTexts ++ texts extracted)
  else temp.

(** The handler up to its first read: what it sets before it waits. *)
Definition beginUpload (st : State) : State :=
  let st := setIsUploading true st in
  let st := setError None st in
  setStage ANALYZING st.

(** The handler from its reads on: [inl files] when every archive was
    read, [inr err] for a read that threw [err], which the [catch]
    block reports. *)
Definition finishUpload (files : list (jsstring * Extracted) + jsstring)
  (st : State) : Eff State :=
  match files with
  | inl files =>
      let '(tempAvatars, tempProcessed, tempTexts) :=
        fold_left partitionStep files ([], [], []) in
      let hs4000Content := hs4000Content tempProcessed tempTexts in
      Download hs4000Content (lit "hs4000.txt") false ;;;
      Log (lit "DOWNLOADED: hs4000.txt") ;;;
      let story :=
        find (fun t => eqb (toLowerCase (name t)) (lit "story.txt"))
          tempTexts in
      let globalStyle :=
        find (fun t => eqb (toLowerCase (name t)) (lit "style.txt"))
          tempTexts in
      let st := match globalStyle with
                | Some g => setStyle (content g) st
                | None => st
                end in
      let st := match story with
                | Some s => setStoryMap (Some s) st
                | None => st
                end in
      let st := setAvatars tempAvatars st in
      let st := setProcessedImages tempProcessed st in
      let st := setTextFiles tempTexts st in
      let st :=
        setFullScript (Some (mkTextFile (lit "hs4000.txt") hs4000Content))
          st in
      Log (lit "LOADED: " ++ decimal (length (keys tempProcessed))
           ++ lit " FRAMES, " ++ decimal (length (keys tempAvatars))
           ++ lit " AVATARS.") ;;;
      Ret (setIsUploading false st)
  | inr err =>
      let st := setError (Some (lit "ARCHIVE READ ERROR.")) st in
      Log (lit "CRITICAL: " ++ err) ;;;
      let st := setStage IDLE st in
      Ret (setIsUploading false st)
  end.

(** The statements of [handleUpload], in their order, and nothing that
    the console does between them: what the handler itself reads and
    writes. The effect may run while the handler waits for its reads;
    [uploading] below puts that turn in its place. (When no file list
    was chosen the handler returns before it does anything.) *)
Definition handleUpload (files : list (jsstring * Extracted) + jsstring)
  (st : State) : Eff State :=
  let st := beginUpload st in
  Log (lit "DECODING ARCHIVES...") ;;;
  finishUpload files st.

(** *** runAnalysis *)

Definition scriptEmptyError : jsstring :=
  lit "GENERATED SCRIPT IS EMPTY. CANNOT CREATE BIBLE. PROCESS HALTED.".

(** The state the guard of [runAnalysis] leaves when it returns early. *)
Definition halted (st : State) : State :=
  let st := setError (Some scriptEmptyError) st in
  setStage IDLE st.

(** The guard is [!fullScript || fullScript.content.trim() === '']. *)
Definition runAnalysis (st : State) : Eff State :=
  match fullScript st with
  | None => Ret (halted st)
  | Some script =>
      if eqb (trim (content script)) []
      then Ret (halted st)
      else
        Log (lit "GENERATING CHARACTER BIBLE FROM GENERATED SCRIPT...") ;;;
        let st := setStatus (lit "BUILDING BIBLE...") st in
        bible <- createCharacterBible (keys (avatars st)) (content script) ;;
        Download bible (lit "bible.txt") false ;;;
        Log (lit "DOWNLOADED: bible.txt") ;;;
        let st := setCharacterBible bible st in
        Log (lit "BIBLE READY. PROCEEDING TO FULL PRODUCTION.") ;;;
        Ret (setStage PROCESSING st)
  end.

(** *** processProductionRun *)

Definition allImages (processedImages : object SourceImage)
  : list SourceImage :=
  sort (fun a b => localeCompare (fileName a) (fileName b))
    (values processedImages).

(** [mapping.avatarFilename ? avatars[mapping.avatarFilename] : null];
    the property key is the value's string, and [None] stands for the
    TypeError of a value that has none. *)
Definition resolveAvatar (avatars : object SourceImage) (mapping : Mapping)
  : option AvatarRef :=
  if truthyValue (avatarFilename mapping)
  then option_map (getAvatar avatars)
         (toString numberToString (avatarFilename mapping))
  else Some ANull.

(** The avatar arguments of the [generateRevisedImage] call. *)
Definition avatarArguments (avatar : AvatarRef)
  : option jsstring * option jsstring :=
  (orNull (optBase64 avatar), orNull (optMimeType avatar)).

(** The [catch] of a turn: it logs the error and the loop goes on. *)
Definition caught (img : SourceImage) (st : State) : Eff State :=
  LogCaught (lit "CRITICAL ERROR [" ++ fileName img ++ lit "]: ") ;;;
  Ret st.

(** One turn of the loop over [allImages]: frame [i] of [total]. Three
    statements of the [try] can throw: the avatar lookup, whose key may
    have no string; the awaited synthesizer, which rejects when its
    template throws; and the template of the meta text, which prints
    the character name as the synthesizer's does. *)
Definition processFrame (total i : nat) (img : SourceImage) (st : State)
  : Eff State :=
  let base := frameBase img in
  match findText (textFiles st) base with
  | None =>
      Log (lit "SKIPPING: " ++ fileName img ++ lit " (NO CONTEXT)") ;;;
      Ret st
  | Some tFile =>
      let sceneTextSnippet := sceneSnippet tFile in
      let scriptContext := localize (fullScript st) sceneTextSnippet in
      let st :=
        setStatus (lit "PROCESS: [" ++ decimal (i + 1) ++ lit "/"
                   ++ decimal total ++ lit "] - " ++ fileName img) st in
      visualAnalysis <- analyzeSceneImage (base64 img) (mimeType img) ;;
      mapping <- identifyConsistentCharacter sceneTextSnippet visualAnalysis
                   (characterBible st) ;;
      match resolveAvatar (avatars st) mapping with
      | None => caught img st
      | Some avatar =>
          synthesized <- generateRejuvenatedPrompt numberToString
                           sceneTextSnippet
                           (characterName mapping)
                           (orValue (otherCharacters mapping) (VArray []))
                           (characterBible st)
                           (style st)
                           visualAnalysis
                           scriptContext
                           (option_map content (storyMap st)) ;;
          match synthesized with
          | None => caught img st
          | Some prompt =>
              gen <- generateRevisedImage prompt
                       (fst (avatarArguments avatar))
                       (snd (avatarArguments avatar))
                       (base64 img) (mimeType img) defaultAspectRatio ;;
              match gen with
              | Some imageBase64 =>
                  let result :=
                    mkRejuvenatedItem (fileName img)
                      (base ++ lit "_rejuvenated.png") imageBase64 prompt in
                  match toString numberToString (characterName mapping) with
                  | None => caught img st
                  | Some character =>
                      let metaContent :=
                        lit "ORIGINAL: " ++ fileName img
                        ++ [newline] ++ lit "CHARACTER: " ++ character
                        ++ [newline] ++ lit "PROMPT: " ++ prompt
                        ++ [newline; newline] ++ lit "SCENE DATA:"
                        ++ [newline] ++ content tFile in
                      Download metaContent (base ++ lit "_meta.txt") false ;;;
                      Download imageBase64 (newName result) true ;;;
                      let st := setResults (results st ++ [result]) st in
                      Log (lit "DOWNLOADED: " ++ newName result) ;;;
                      Ret st
                  end
              | None =>
                  Log (lit "REVISION FAILED FOR " ++ fileName img
                       ++ lit ". SKIPPING.") ;;;
                  Ret st
              end
          end
      end
  end.

Fixpoint forFrames (total i : nat) (frames : list SourceImage) (st : State)
  : Eff State :=
  match frames with
  | [] => Ret st
  | img :: rest =>
      st <- processFrame total i img st ;;
      forFrames total (S i) rest st
  end.

Definition processProductionRun (st : State) : Eff State :=
  Log (lit "LAUNCHING FULL PRODUCTION SEQUENCE...") ;;;
  let allImages := allImages (processedImages st) in
  if Nat.eqb (length allImages) 0
  then
    Log (lit "NO IMAGES TO PROCESS. PRODUCTION COMPLETE.") ;;;
    Ret (setStage COMPLETE st)
  else
    st <- forFrames (length allImages) 0 allImages st ;;
    let st := setStage COMPLETE st in
    Log (lit "ALL SEQUENCES FINALIZED.") ;;;
    Ret st.

(** *** The automation effect *)

Definition automation (st : State) : Eff State :=
  match stage st, fullScript st with
  | ANALYZING, Some _ => runAnalysis st
  | PROCESSING, _ =>
      if truthy (characterBible st) then processProductionRun st else Ret st
  | _, _ => Ret st
  end.

(** The handler waits for a read: some file was chosen. With an empty
    list its statements run in one piece. *)
Definition waits (files : list (jsstring * Extracted) + jsstring) : bool :=
  match files with
  | inl [] => false
  | _ => true
  end.

Definition isAnalyzing (stage : Stage) : bool :=
  match stage with
  | ANALYZING => true
  | _ => false
  end.

(** The effect runs while the handler waits for its first read: the
    handler has just set the stage, and the effect runs when that was a
    change of the stage. *)
Definition effectRunsMidUpload
  (files : list (jsstring * Extracted) + jsstring) (st : State) : bool :=
  waits files && negb (isAnalyzing (stage st)).

(** A script is stored from an earlier upload, and it is not blank: an
    analysis that starts on it makes a call. *)
Definition storedScriptRuns (st : State) : bool :=
  match fullScript st with
  | Some script => negb (eqb (trim (content script)) [])
  | None => false
  end.

(** An upload as the console goes through it: the handler, and in its
    midst the turn of the effect that finds the stage at [ANALYZING]
    and the script of the upload before. That turn does nothing when no
    script is stored, and halts at once on a blank one. On any other
    script it starts an analysis that runs side by side with the reads
    of the handler, in an order the code does not determine: [None]. *)
Definition uploading (files : list (jsstring * Extracted) + jsstring)
  (st : State) : option (Eff State) :=
  if effectRunsMidUpload files st
  then
    if storedScriptRuns st then None
    else Some (Log (lit "DECODING ARCHIVES...") ;;;
               st <- automation (beginUpload st) ;;
               finishUpload files st)
  else Some (handleUpload files st).

(** An upload and the two turns of the effect that follow it. *)
Definition session (files : list (jsstring * Extracted) + jsstring)
  (st : State) : option (Eff State) :=
  match uploading files st with
  | Some upload =>
      Some (st <- upload ;;
            st <- automation st ;;
            automation st)
  | None => None
  end.

End Platform.

(** *** The words of the specification, for comparison *)

(** What follows the first ['.'] of a string. *)
Fixpoint afterFirstDot (s : jsstring) : jsstring :=
  match s with
  | [] => []
  | c :: s' => if N.eqb c dot then s' else afterFirstDot s'
  end.

(** The text of a name up to its last ['.'] (the whole name when it has
    none): the name with its extension stripped. *)
Definition upToLastDot (s : jsstring) : jsstring :=
  if existsb (N.eqb dot) s then rev (afterFirstDot (rev s)) else s.

(** The text of a name up to its first ['.']. *)
Fixpoint upToFirstDot (s : jsstring) : jsstring :=
  match s with
  | [] => []
  | c :: s' => if N.eqb c dot then [] else c :: upToFirstDot s'
  end.

End App.

(* ================================================================== *)
(** ** Reading the archives ([recursiveUnzip]) *)
(* ================================================================== *)

Module Archive.

Import Gemini App.

(** An archive as JSZip presents it: its entries by name, in the order
    in which [Object.keys(zip.files)] yields them. An entry is a
    directory or a file; of a file the program reads the bytes in
    base 64, the bytes as a string, or the bytes as an archive of their
    own ([None]: [JSZip.loadAsync] rejects them). *)
#[warnings="-register-all"]
Inductive Entry : Type :=
| Dir
| File (base64 text : jsstring)
       (nested : option (list (jsstring * Entry))).

Definition Zip : Type := list (jsstring * Entry).

(** [a.pop()]: the last element ([undefined] on an empty array). *)
Fixpoint pop {A} (a : list A) : option A :=
  match a with
  | [] => None
  | [x] => Some x
  | _ :: rest => pop rest
  end.

(** [list.includes(ext)] for an array of strings. *)
Definition includesString (among : list jsstring) (ext : jsstring)
  : bool :=
  existsb (eqb ext) among.

Definition imageExtensions : list jsstring :=
  [lit "png"; lit "jpg"; lit "jpeg"; lit "webp"].

Definition textExtensions : list jsstring := [lit "txt"; lit "md"].

(** [`image/${ext === 'jpg' ? 'jpeg' : ext}`]. *)
Definition mimeOf (ext : jsstring) : jsstring :=
  lit "image/" ++ (if eqb ext (lit "jpg") then lit "jpeg" else ext).

(** [toLowerCase] on the letters A to Z; every other unit is kept. It
    stands for the platform's function where a statement is run on
    ASCII names. *)
Definition asciiLowerCase (s : jsstring) : jsstring := List.map foldCase s.

Section Unzip.

Variable toLowerCase : jsstring -> jsstring.

(** [name.toLowerCase().split('.').pop() || '']. *)
Definition extensionOf (name : jsstring) : jsstring :=
  orEmpty (pop (split dot (toLowerCase name))).

Definition noneExtracted : Extracted := mkExtracted [] [].

(** One turn of the loop over the entries, and the loop itself for the
    archive an entry holds. [None]: the promise rejects. *)
Fixpoint unzipEntry (name : jsstring) (entry : Entry)
  (extracted : Extracted) {struct entry} : option Extracted :=
  match entry with
  | Dir => Some extracted
  | File base64 text nested =>
      let ext := extensionOf name in
      if eqb ext (lit "zip") then
        match nested with
        | None => None
        | Some files =>
            match
              (fix unzipEntries (entries : list (jsstring * Entry))
                   (extracted : Extracted) {struct entries}
                 : option Extracted :=
                 match entries with
                 | [] => Some extracted
                 | (name, entry) :: rest =>
                     match unzipEntry name entry extracted with
                     | None => None
                     | Some extracted => unzipEntries rest extracted
                     end
                 end) files noneExtracted
            with
            | None => None
            | Some subResults =>
                Some (mkExtracted
                        (spread (images extracted) (images subResults))
                        (texts extracted ++ texts subResults))
            end
        end
      else if includesString imageExtensions ext then
        let mime := mimeOf ext in
        Some (mkExtracted
                (setOwn (images extracted) name
                   (mkSourceImage name base64 mime))
                (texts extracted))
      else if includesString textExtensions ext then
        Some (mkExtracted (images extracted)
                (push (texts extracted) (mkTextFile name text)))
      else Some extracted
  end.

Fixpoint unzipEntries (entries : Zip) (extracted : Extracted)
  : option Extracted :=
  match entries with
  | [] => Some extracted
  | (name, entry) :: rest =>
      match unzipEntry name entry extracted with
      | None => None
      | Some extracted => unzipEntries rest extracted
      end
  end.

(** [recursiveUnzip(zipData)], [zipData] being what [JSZip.loadAsync]
    makes of it. *)
Definition recursiveUnzip (zipData : option Zip) : option Extracted :=
  match zipData with
  | None => None
  | Some zip => unzipEntries zip noneExtracted
  end.

(** The reads of [handleUpload]: each chosen file in turn; the first
    that fails ends the loop. *)
Fixpoint readAll (files : list (jsstring * option Zip))
  : option (list (jsstring * Extracted)) :=
  match files with
  | [] => Some []
  | (name, data) :: rest =>
      match recursiveUnzip data with
      | None => None
      | Some extracted =>
          match readAll rest with
          | None => None
          | Some others => Some ((name, extracted) :: others)
          end
      end
  end.

(** The statements of [handleUpload] from the chosen files on; [err] is
    what a failed read throws. *)
Definition upload (files : list (jsstring * option Zip)) (err : jsstring)
  (st : State) : Eff State :=
  handleUpload toLowerCase
    (match readAll files with
     | Some extracted => inl extracted
     | None => inr err
     end) st.

(** The upload of the chosen files as the console goes through it, with
    the turn of the effect in its midst. *)
Definition uploadingArchives (localeCompare : jsstring -> jsstring -> Z)
  (numberToString : spec_float -> jsstring)
  (files : list (jsstring * option Zip)) (err : jsstring) (st : State)
  : option (Eff State) :=
  uploading toLowerCase localeCompare numberToString
    (match readAll files with
     | Some extracted => inl extracted
     | None => inr err
     end) st.

End Unzip.

End Archive.

(* ================================================================== *)
(** ** Predicates the statements use *)
(* ================================================================== *)

Import Gemini App.

(** [needle] stands in [s] at position [i]. *)
Definition occursAt (needle s : jsstring) (i : nat) : Prop :=
  exists before after,
    s = before ++ needle ++ after /\ length before = i.

(** The order of code-unit comparison. *)
Definition unitLe (a b : jsstring) : Prop := compare a b <> Gt.

(** Two comparators that order every pair of [names] alike. *)
Definition sameOrderOn (names : list jsstring)
  (cmp1 cmp2 : jsstring -> jsstring -> Z) : Prop :=
  forall a b, In a names -> In b names ->
    (cmp1 a b <=? 0)%Z = (cmp2 a b <=? 0)%Z.

(** Every frame is stored under its own file name, as [recursiveUnzip]
    stores it. *)
Definition keyedByFileName (o : object SourceImage) : Prop :=
  Forall (fun kv => fileName (snd kv) = fst kv) o.

(** [base] is the text of [name] before its first ['.'], all of [name]
    when it has none. *)
Definition beforeFirstDot (name base : jsstring) : Prop :=
  ~ In dot base
  /\ (name = base \/ exists rest, name = base ++ dot :: rest).

(** A name with two dots, and two frames whose names differ in case. *)
Definition twoDots : jsstring := lit "a.b.png".

Definition mixedCase : object SourceImage :=
  [(lit "a.png", mkSourceImage (lit "a.png") (lit "QQ==") (lit "image/png"));
   (lit "B.png", mkSourceImage (lit "B.png") (lit "Qg==") (lit "image/png"))].

(** A text asset matches a base identifier. *)
Definition matches (base : jsstring) (t : TextFile) : Prop :=
  (exists rest, name t = base ++ rest)
  /\ (exists stem, name t = stem ++ lit ".txt").

(** [t] is the first text asset of [texts] that matches [base]. *)
Definition firstMatch (texts : list TextFile) (base : jsstring)
  (t : TextFile) : Prop :=
  exists before after,
    texts = before ++ t :: after
    /\ matches base t
    /\ Forall (fun t' => ~ matches base t') before.

(** What one frame adds to the assembled script, in the words of the
    specification. *)
Inductive Contributes (texts : list TextFile) (frame : jsstring)
  : list jsstring -> Prop :=
| contributes_line t lines :
    firstMatch texts (upToFirstDot frame) t ->
    lines = split newline (content t) ->
    4 <= length lines ->
    Contributes texts frame [nth 3 lines []]
| contributes_short t :
    firstMatch texts (upToFirstDot frame) t ->
    length (split newline (content t)) < 4 ->
    Contributes texts frame []
| contributes_unmatched :
    Forall (fun t => ~ matches (upToFirstDot frame) t) texts ->
    Contributes texts frame [].

(** What one turn of the loop pushes. *)
Definition pushed (tempTexts : list TextFile) (imageKey : jsstring)
  : list jsstring :=
  assembleStep tempTexts [] imageKey.

(** A response whose text [JSON.parse] rejects. *)
Definition unparseable : Response :=
  mkResponse (Some (lit "not json")) None None.

(** The service that answers every call with [response]. *)
Definition always (response : Response) : Service :=
  fun _ _ => Resolves response.

(** The service whose every call fails. *)
Definition unreachable : Service := fun _ _ => Rejects.

(** A value read from JSON that has properties and is no object: a
    boolean, a number, a string or an array. *)
Definition plainValue (v : Value) : Prop :=
  match v with
  | VBool _ | VNumber _ | VString _ | VArray _ => True
  | VUndefined | VNull | VObject _ => False
  end.

(** A property is absent from an object read from JSON. *)
Definition absent (props : list (jsstring * Value)) (name : jsstring)
  : Prop :=
  ~ In name (List.map fst props).

(** A computation that makes the one call [req] and no other. *)
Definition singleCall {A} (m : Eff A) (req : Request) : Prop :=
  forall service n, calls (snd (run service n m)) = [req].

(** A script in which the anchor [HERE] stands after 1000 units and
    before 3000 more. *)
Definition longScript : TextFile :=
  mkTextFile (lit "hs4000.txt")
    (repeat 120%N 1000 ++ lit "HERE" ++ repeat 121%N 3000).

(** A run issued no generative call. *)
Definition noCall {A} (m : Eff A) : Prop :=
  forall service n, calls (snd (run service n m)) = [].

(** *** Predicates of the further properties *)

Import Archive.

(** The three media types [recursiveUnzip] gives to images. *)
Definition imageTypes : list jsstring :=
  [lit "image/png"; lit "image/jpeg"; lit "image/webp"].

(** What holds of everything [recursiveUnzip] returns: each image is
    stored once, under its file name, its name has an image extension
    and its media type is made from that extension; each text has a text
    extension. *)
Definition wellExtracted (toLowerCase : jsstring -> jsstring)
  (e : Extracted) : Prop :=
  keyedByFileName (images e)
  /\ NoDup (keys (images e))
  /\ Forall (fun kv =>
               includesString imageExtensions
                 (extensionOf toLowerCase (fst kv)) = true
               /\ mimeType (snd kv)
                  = mimeOf (extensionOf toLowerCase (fst kv)))
       (images e)
  /\ Forall (fun t =>
               includesString textExtensions
                 (extensionOf toLowerCase (name t)) = true)
       (texts e).

(** The media type that goes with each image extension. *)
Definition typedByExtension (ext mime : jsstring) : Prop :=
  (ext = lit "png" /\ mime = lit "image/png")
  \/ (ext = lit "jpg" /\ mime = lit "image/jpeg")
  \/ (ext = lit "jpeg" /\ mime = lit "image/jpeg")
  \/ (ext = lit "webp" /\ mime = lit "image/webp").

(** An archive with one frame, its text and a directory; and an archive
    that holds bytes that are no archive under a [.zip] name. *)
Definition sampleZip : Zip :=
  [(lit "shots/", Dir);
   (lit "shots/F1.PNG", File (lit "U0NFTkU=") (lit "?") None);
   (lit "shots/F1.txt", File (lit "bGluZQ==") (lit "line") None)].

Definition brokenZip : Zip :=
  [(lit "inner.zip", File (lit "AAAA") (lit "?") None)].

(** What [recursiveUnzip] returns for [sampleZip]. *)
Definition sampleExtracted : Extracted :=
  mkExtracted
    [(lit "shots/F1.PNG",
      mkSourceImage (lit "shots/F1.PNG") (lit "U0NFTkU=") (lit "image/png"))]
    [mkTextFile (lit "shots/F1.txt") (lit "line")].

(** The state [handleUpload] leaves when a read has failed. *)
Definition readFailed (st : State) : State :=
  setIsUploading false
    (setStage IDLE
       (setError (Some (lit "ARCHIVE READ ERROR."))
          (setStage ANALYZING (setError None (setIsUploading true st))))).

(** An object whose images are stored once, under their names, with one
    of the three media types. *)
Definition wellStored (o : object SourceImage) : Prop :=
  keyedByFileName o
  /\ NoDup (keys o)
  /\ Forall (fun kv => In (mimeType (snd kv)) imageTypes) o.

(** Where the loop of [handleUpload] puts what an archive holds, by the
    lower-cased name of the archive. *)
Definition toAvatars (toLowerCase : jsstring -> jsstring)
  (file : jsstring * Extracted) : bool :=
  includes (toLowerCase (fst file)) (lit "avatars").

Definition toProcessed (toLowerCase : jsstring -> jsstring)
  (file : jsstring * Extracted) : bool :=
  negb (includes (toLowerCase (fst file)) (lit "avatars"))
  && includes (toLowerCase (fst file)) (lit "processed").

(** The three results of the loop of [handleUpload]. *)
Definition staged (toLowerCase : jsstring -> jsstring)
  (read : list (jsstring * Extracted))
  : object SourceImage * object SourceImage * list TextFile :=
  fold_left (partitionStep toLowerCase) read ([], [], []).

Definition stagedAvatars (toLowerCase : jsstring -> jsstring)
  (read : list (jsstring * Extracted)) : object SourceImage :=
  fst (fst (staged toLowerCase read)).

Definition stagedProcessed (toLowerCase : jsstring -> jsstring)
  (read : list (jsstring * Extracted)) : object SourceImage :=
  snd (fst (staged toLowerCase read)).

Definition stagedTexts (toLowerCase : jsstring -> jsstring)
  (read : list (jsstring * Extracted)) : list TextFile :=
  snd (staged toLowerCase read).

(** Two archives for an upload: avatars, and frames with their texts. *)
Definition sampleFiles : list (jsstring * option Zip) :=
  [(lit "Avatars.zip",
    Some [(lit "boss.jpg", File (lit "Qk9TUw==") (lit "?") None);
          (lit "notes.txt", File (lit "bm90ZQ==") (lit "note") None)]);
   (lit "processed_1.zip", Some sampleZip)].

(** An upload with an archive that cannot be read. *)
Definition brokenFiles : list (jsstring * option Zip) :=
  [(lit "processed_1.zip", Some sampleZip);
   (lit "processed_2.zip", Some brokenZip)].

(** Two frame archives that both hold an image named [f.png]. *)
Definition clashFirst : Extracted :=
  mkExtracted
    [(lit "f.png", mkSourceImage (lit "f.png") (lit "T05F") (lit "image/png"))]
    [].

Definition clashSecond : Extracted :=
  mkExtracted
    [(lit "f.png", mkSourceImage (lit "f.png") (lit "VFdP") (lit "image/png"))]
    [].

Definition clashFiles : list (jsstring * option Zip) :=
  [(lit "processed_a.zip",
    Some [(lit "f.png", File (lit "T05F") (lit "?") None)]);
   (lit "processed_b.zip",
    Some [(lit "f.png", File (lit "VFdP") (lit "?") None)])].

(** What a frame or a run leaves as it was: everything in the state but
    the status and the results (and, for a whole run, the stage). *)
Definition sameAssets (st st' : State) : Prop :=
  isUploading st' = isUploading st
  /\ error st' = error st
  /\ avatars st' = avatars st
  /\ processedImages st' = processedImages st
  /\ textFiles st' = textFiles st
  /\ fullScript st' = fullScript st
  /\ storyMap st' = storyMap st
  /\ style st' = style st
  /\ characterBible st' = characterBible st.

(** A frame has a text asset. *)
Definition hasText (texts : list TextFile) (img : SourceImage) : bool :=
  match findText texts (frameBase img) with
  | Some _ => true
  | None => false
  end.

(** [item] is a result for the frame [img]. *)
Definition resultOf (img : SourceImage) (item : RejuvenatedItem) : Prop :=
  originalName item = fileName img
  /\ newName item = frameBase img ++ lit "_rejuvenated.png"
  /\ itemBase64 item <> [].

(** [items] are results for some of [frames], at most one for each, in
    the order of the frames, and only for frames that have a text
    asset. *)
Inductive Produced (texts : list TextFile)
  : list SourceImage -> list RejuvenatedItem -> Prop :=
| produced_none : Produced texts [] []
| produced_skip img frames items :
    Produced texts frames items ->
    Produced texts (img :: frames) items
| produced_item img frames item items :
    hasText texts img = true ->
    resultOf img item ->
    Produced texts frames items ->
    Produced texts (img :: frames) (item :: items).

(** The calls of one frame, the first of them the analysis of the
    frame: two calls when the [catch] of the frame is entered, four
    otherwise. *)
Definition callsOfFrame (img : SourceImage) (group : list Request) : Prop :=
  exists identification,
    group = [analysisRequest (base64 img) (mimeType img); identification]
    \/ exists synthesis revision,
         group = [analysisRequest (base64 img) (mimeType img);
                  identification; synthesis; revision].

(** A response part carries no image: it has no inline data, or empty
    data. *)
Definition noImage (part : option jsstring) : Prop :=
  part = None \/ part = Some [].

(** A string neither begins nor ends with white space, and is not
    empty. *)
Definition trimmed (s : jsstring) : Prop :=
  s <> []
  /\ (forall c rest, s = c :: rest -> isWhiteSpace c = false)
  /\ (forall c front, s = front ++ [c] -> isWhiteSpace c = false).

(** An answer of the identifier whose character name has no string: an
    object with an own property [toString] that is no function. *)
Definition unprintable : Value :=
  VObject [(lit "toString", VBool true)].

Definition namingUnprintable : Response :=
  mkResponse (Some (lit "{...}"))
    (Some (VObject [(lit "characterName", unprintable)]))
    None.

(** No request of a list goes to the image model. *)
Definition noImageCall (made : list Request) : Prop :=
  Forall (fun req => model req <> lit "gemini-2.5-flash-image") made.

(** A response that names the avatar [boss.jpg], and a state that holds
    that avatar and the text of the frame [f1.png]. *)
Definition namingBoss : Response :=
  mkResponse (Some (lit "{...}"))
    (Some (VObject [(lit "avatarFilename", VString (lit "boss.jpg"))]))
    None.

Definition bossAvatar : SourceImage :=
  mkSourceImage (lit "boss.jpg") (lit "Qk9TUw==") (lit "image/jpeg").

Definition sampleFrame : SourceImage :=
  mkSourceImage (lit "f1.png") (lit "U0NFTkU=") (lit "image/png").

Definition sampleText : TextFile :=
  mkTextFile (lit "f1.txt") (lit "1
2
3
HELLO THERE").

Definition sampleState : State :=
  setFullScript
    (Some (mkTextFile (lit "hs4000.txt")
             (hs4000Content [(lit "f1.png", sampleFrame)] [sampleText])))
    (setProcessedImages [(lit "f1.png", sampleFrame)]
       (setAvatars [(lit "boss.jpg", bossAvatar)]
          (setTextFiles [sampleText] initialState))).

(** The files a trace downloads: data, file name, and whether the data
    is base64 image data. *)
Fixpoint downloads (trace : list Event) : list (jsstring * jsstring * bool) :=
  match trace with
  | [] => []
  | Did (Download data filename isBase64) :: rest =>
      (data, filename, isBase64) :: downloads rest
  | _ :: rest => downloads rest
  end.

(** The two files that go with a result: its meta text, which names the
    frame, the character and the prompt of the result, and its image. *)
Definition savedAs (item : RejuvenatedItem)
  (files : list (jsstring * jsstring * bool)) : Prop :=
  exists base character scene,
    newName item = base ++ lit "_rejuvenated.png"
    /\ files
       = [(lit "ORIGINAL: " ++ originalName item
           ++ [newline] ++ lit "CHARACTER: " ++ character
           ++ [newline] ++ lit "PROMPT: " ++ itemPrompt item
           ++ [newline; newline] ++ lit "SCENE DATA:" ++ [newline] ++ scene,
           base ++ lit "_meta.txt", false);
          (itemBase64 item, newName item, true)].

(** A call settles without an image: it fails, or no part of the
    response carries image data. *)
Definition imageless (outcome : Outcome) : Prop :=
  match outcome with
  | Rejects => True
  | Resolves response =>
      match outParts response with
      | Some partsOut => Forall noImage partsOut
      | None => True
      end
  end.

(** A service whose image model returns no image. *)
Definition withoutImages (service : Service) : Prop :=
  forall k req,
    model req = lit "gemini-2.5-flash-image" -> imageless (service k req).

(* ================================================================== *)
(** ** Facts about the primitives *)
(* ================================================================== *)

Section StringFacts.

Lemma eqb_refl (a : jsstring) : eqb a a = true.
Proof.
  induction a as [|x a IH]; simpl; [reflexivity|].
  now rewrite N.eqb_refl, IH.
Qed.

Lemma eqb_eq (a b : jsstring) : eqb a b = true <-> a = b.
Proof.
  split.
  - revert b; induction a as [|x a IH]; intros [|y b]; simpl;
      try discriminate; [reflexivity|].
    intros H. apply andb_true_iff in H as [Hx Hab].
    apply N.eqb_eq in Hx. now rewrite Hx, (IH b Hab).
  - intros ->. apply eqb_refl.
Qed.

Lemma eqb_neq (a b : jsstring) : eqb a b = false <-> a <> b.
Proof.
  rewrite <- eqb_eq. destruct (eqb a b); split; congruence.
Qed.

Lemma startsWith_spec (s p : jsstring) :
  startsWith s p = true <-> exists rest, s = p ++ rest.
Proof.
  revert s; induction p as [|y p IH]; intros s; simpl.
  - split; [intros _; now exists s | reflexivity].
  - destruct s as [|x s].
    + split; [discriminate | intros [rest H]; discriminate].
    + rewrite andb_true_iff, N.eqb_eq, IH. split.
      * intros [-> [rest ->]]. now exists rest.
      * intros [rest H]. injection H as -> ->. split; [reflexivity|].
        now exists rest.
Qed.

Lemma endsWith_spec (s p : jsstring) :
  endsWith s p = true <-> exists stem, s = stem ++ p.
Proof.
  unfold endsWith. rewrite andb_true_iff, Nat.leb_le, eqb_eq. split.
  - intros [Hle H]. exists (firstn (length s - length p) s).
    pose proof (firstn_skipn (length s - length p) s) as E.
    rewrite H in E. now symmetry.
  - intros [stem ->]. rewrite length_app. split; [lia|].
    replace (length stem + length p - length p) with (length stem + 0)
      by lia.
    rewrite skipn_app, Nat.add_0_r, skipn_all.
    replace (length stem - length stem) with 0 by lia. reflexivity.
Qed.

Lemma split_nonempty (sep : unit16) (s : jsstring) : split sep s <> [].
Proof.
  destruct s as [|c s]; simpl; [discriminate|].
  destruct (N.eqb c sep); [discriminate|].
  destruct (split sep s); discriminate.
Qed.

(** Joining the pieces with the separator gives the string back. *)
Lemma join_split (sep : unit16) (s : jsstring) :
  join [sep] (split sep s) = s.
Proof.
  induction s as [|c s IH]; simpl; [reflexivity|].
  destruct (N.eqb c sep) eqn:E.
  - apply N.eqb_eq in E. subst c.
    destruct (split sep s) as [|seg segs] eqn:Es.
    + now destruct (split_nonempty _ _ Es).
    + simpl in *. now rewrite IH.
  - destruct (split sep s) as [|seg segs] eqn:Es.
    + now destruct (split_nonempty _ _ Es).
    + destruct segs; simpl in *; now rewrite <- IH.
Qed.

(** No piece contains the separator. *)
Lemma split_free (sep : unit16) (s : jsstring) :
  Forall (fun piece => ~ In sep piece) (split sep s).
Proof.
  induction s as [|c s IH]; simpl.
  - constructor; [intros [] | constructor].
  - destruct (N.eqb c sep) eqn:E.
    + constructor; [intros [] | exact IH].
    + apply N.eqb_neq in E.
      destruct (split sep s) as [|seg segs].
      * constructor; [|constructor]. intros [H|[]]. congruence.
      * inversion IH; subst. constructor; [|assumption].
        intros [H|H]; [congruence | contradiction].
Qed.

Lemma hd_split (s : jsstring) :
  hd [] (split dot s) = upToFirstDot s.
Proof.
  induction s as [|c s IH]; simpl; [reflexivity|].
  destruct (N.eqb c dot); [reflexivity|].
  destruct (split dot s); simpl in *; now rewrite <- IH.
Qed.

Lemma baseOf_upToFirstDot (s : jsstring) : baseOf s = upToFirstDot s.
Proof.
  unfold baseOf. rewrite <- hd_split.
  destruct (split dot s) as [|seg segs] eqn:E.
  - now destruct (split_nonempty _ _ E).
  - simpl. now destruct seg.
Qed.

End StringFacts.

Section SubstringFacts.

Lemma firstn_min_length {A} (n : nat) (l : list A) :
  firstn (Nat.min n (length l)) l = firstn n l.
Proof.
  destruct (Nat.le_ge_cases n (length l)) as [H|H].
  - now rewrite Nat.min_l.
  - rewrite Nat.min_r by assumption.
    now rewrite firstn_all, firstn_all2.
Qed.

(** Within the bounds of the string [substring] is the plain slice. *)
Lemma substring_range (s : jsstring) (a b : Z) :
  (0 <= a <= b)%Z -> (b <= len s)%Z ->
  substring s a b = skipn (Z.to_nat a) (firstn (Z.to_nat b) s).
Proof.
  intros Hab Hb. unfold substring, clamp.
  replace (Z.min (Z.max a 0) (len s)) with a by lia.
  replace (Z.min (Z.max b 0) (len s)) with b by lia.
  replace (Z.min a b) with a by lia.
  replace (Z.max a b) with b by lia.
  rewrite skipn_firstn_comm. f_equal. lia.
Qed.

(** [s.substring(0, n)] is the first [n] units of [s]. *)
Lemma substring_prefix (s : jsstring) (n : nat) :
  substring s 0 (Z.of_nat n) = firstn n s.
Proof.
  unfold substring, clamp, len.
  replace (Z.min (Z.max 0 0) (Z.of_nat (length s))) with 0%Z by lia.
  replace (Z.min (Z.max (Z.of_nat n) 0) (Z.of_nat (length s)))
    with (Z.of_nat (Nat.min n (length s))) by lia.
  replace (Z.min 0 (Z.of_nat (Nat.min n (length s)))) with 0%Z by lia.
  replace (Z.max 0 (Z.of_nat (Nat.min n (length s))))
    with (Z.of_nat (Nat.min n (length s))) by lia.
  rewrite Z.sub_0_r, Nat2Z.id. simpl. apply firstn_min_length.
Qed.

Lemma substring_prefix_length (s : jsstring) (n : nat) :
  length (substring s 0 (Z.of_nat n)) = Nat.min n (length s).
Proof. rewrite substring_prefix. apply length_firstn. Qed.

End SubstringFacts.

Section IndexOfFacts.

Lemma occursAt_0 (needle s : jsstring) :
  occursAt needle s 0 <-> startsWith s needle = true.
Proof.
  rewrite startsWith_spec. split.
  - intros [before [after [-> H]]].
    apply length_zero_iff_nil in H. subst. now exists after.
  - intros [rest ->]. now exists [], rest.
Qed.

Lemma occursAt_S (needle : jsstring) (c : unit16) (s : jsstring) (k : nat) :
  occursAt needle (c :: s) (S k) <-> occursAt needle s k.
Proof.
  split.
  - intros [before [after [H Hl]]].
    destruct before as [|x before]; [discriminate|].
    simpl in *. injection H as -> ->. injection Hl as <-.
    now exists before, after.
  - intros [before [after [-> <-]]]. now exists (c :: before), after.
Qed.

Lemma occursAt_nil (needle : jsstring) (k : nat) :
  occursAt needle [] k -> occursAt needle [] 0.
Proof.
  intros [before [after [H Hl]]].
  symmetry in H. apply app_eq_nil in H as [-> H]. subst k.
  now exists [], after.
Qed.

Lemma occursAt_bound (needle s : jsstring) (k : nat) :
  occursAt needle s k -> k + length needle <= length s.
Proof.
  intros [before [after [-> <-]]]. rewrite !length_app. lia.
Qed.

(** [indexOfFrom] finds the least occurrence, counted from [i]. *)
Lemma indexOfFrom_spec (needle s : jsstring) (i : Z) :
  (indexOfFrom needle s i = (-1)%Z /\ forall k, ~ occursAt needle s k)
  \/ (exists k,
        indexOfFrom needle s i = (i + Z.of_nat k)%Z
        /\ occursAt needle s k
        /\ forall j, j < k -> ~ occursAt needle s j).
Proof.
  revert i; induction s as [|c s IH]; intros i; simpl.
  - destruct (startsWith [] needle) eqn:E.
    + right. exists 0. rewrite Z.add_0_r. split; [reflexivity|].
      split; [now apply occursAt_0 | intros j Hj; lia].
    + left. split; [reflexivity|]. intros k Hk.
      apply occursAt_nil, occursAt_0 in Hk. congruence.
  - destruct (startsWith (c :: s) needle) eqn:E.
    + right. exists 0. rewrite Z.add_0_r. split; [reflexivity|].
      split; [now apply occursAt_0 | intros j Hj; lia].
    + destruct (IH (i + 1)%Z) as [[Hr Hno] | [k [Hr [Hk Hmin]]]].
      * left. split; [exact Hr|]. intros [|k] Hk.
        -- apply occursAt_0 in Hk. congruence.
        -- apply occursAt_S in Hk. now apply (Hno k).
      * right. exists (S k). split; [rewrite Hr; lia|].
        split; [now apply occursAt_S|].
        intros [|j] Hj Hocc.
        -- apply occursAt_0 in Hocc. congruence.
        -- apply occursAt_S in Hocc. apply (Hmin j); [lia | assumption].
Qed.

Lemma indexOf_spec (s needle : jsstring) :
  (indexOf s needle = (-1)%Z /\ forall k, ~ occursAt needle s k)
  \/ (exists k,
        indexOf s needle = Z.of_nat k
        /\ occursAt needle s k
        /\ forall j, j < k -> ~ occursAt needle s j).
Proof.
  unfold indexOf. destruct (indexOfFrom_spec needle s 0) as [H|[k H]].
  - now left.
  - right. exists k. now rewrite Z.add_0_l in H.
Qed.

End IndexOfFacts.

Section TrimFacts.

Lemma trimStart_head (s : jsstring) :
  match trimStart s with
  | [] => True
  | c :: _ => isWhiteSpace c = false
  end.
Proof.
  induction s as [|c s IH]; simpl; [exact I|].
  destruct (isWhiteSpace c) eqn:E; [exact IH | exact E].
Qed.

Lemma trimStart_nil (s : jsstring) :
  trimStart s = [] <-> forallb isWhiteSpace s = true.
Proof.
  induction s as [|c s IH]; simpl; [tauto|].
  destruct (isWhiteSpace c); simpl; [exact IH|].
  split; discriminate.
Qed.

Lemma forallb_rev {A} (f : A -> bool) (l : list A) :
  forallb f (rev l) = forallb f l.
Proof.
  induction l as [|x l IH]; simpl; [reflexivity|].
  rewrite forallb_app, IH. simpl. rewrite andb_true_r. apply andb_comm.
Qed.

(** [s.trim()] is empty exactly when [s] is white space throughout. *)
Lemma trim_nil (s : jsstring) :
  trim s = [] <-> forallb isWhiteSpace s = true.
Proof.
  unfold trim, trimEnd. split.
  - intros H.
    assert (Ht : trimStart (rev (trimStart s)) = []).
    { destruct (trimStart (rev (trimStart s))); [reflexivity|].
      simpl in H. now destruct (app_cons_not_nil _ _ _ (eq_sym H)). }
    apply trimStart_nil in Ht. rewrite forallb_rev in Ht.
    apply trimStart_nil.
    pose proof (trimStart_head s) as Hh.
    destruct (trimStart s) as [|c t]; [reflexivity|].
    simpl in Ht. rewrite Hh in Ht. discriminate.
  - intros H. apply trimStart_nil in H. now rewrite H.
Qed.

End TrimFacts.

Section SortFacts.

Context {A : Type}.

Lemma insert_perm (cmp : A -> A -> Z) (x : A) (l : list A) :
  Permutation (insert cmp x l) (x :: l).
Proof.
  induction l as [|y l IH]; simpl; [apply Permutation_refl|].
  destruct (cmp x y <=? 0)%Z; [apply Permutation_refl|].
  eapply Permutation_trans; [apply perm_skip, IH | apply perm_swap].
Qed.

Lemma sort_perm (cmp : A -> A -> Z) (l : list A) :
  Permutation (sort cmp l) l.
Proof.
  induction l as [|x l IH]; simpl; [constructor|].
  eapply Permutation_trans; [apply insert_perm | now apply perm_skip].
Qed.

Lemma insert_ext (cmp1 cmp2 : A -> A -> Z) (x : A) (l : list A) :
  (forall y, In y l -> (cmp1 x y <=? 0)%Z = (cmp2 x y <=? 0)%Z) ->
  insert cmp1 x l = insert cmp2 x l.
Proof.
  induction l as [|y l IH]; intros H; simpl; [reflexivity|].
  rewrite (H y (or_introl eq_refl)).
  destruct (cmp2 x y <=? 0)%Z; [reflexivity|].
  f_equal. apply IH. intros z Hz. apply H. now right.
Qed.

(** The result depends on the comparator only through the order it
    gives to the elements sorted. *)
Lemma sort_ext (cmp1 cmp2 : A -> A -> Z) (l : list A) :
  (forall x y, In x l -> In y l ->
     (cmp1 x y <=? 0)%Z = (cmp2 x y <=? 0)%Z) ->
  sort cmp1 l = sort cmp2 l.
Proof.
  induction l as [|x l IH]; intros H; simpl; [reflexivity|].
  rewrite IH by (intros; apply H; now right).
  apply insert_ext. intros y Hy. apply H; [now left|].
  right. eapply Permutation_in; [apply sort_perm | exact Hy].
Qed.

Lemma insert_map {B} (f : A -> B) (cmp : B -> B -> Z) (x : A) (l : list A) :
  List.map f (insert (fun a b => cmp (f a) (f b)) x l)
  = insert cmp (f x) (List.map f l).
Proof.
  induction l as [|y l IH]; simpl; [reflexivity|].
  destruct (cmp (f x) (f y) <=? 0)%Z; simpl; [reflexivity|].
  now rewrite IH.
Qed.

(** Sorting records by a key and sorting the keys visit the keys in one
    order. *)
Lemma sort_map {B} (f : A -> B) (cmp : B -> B -> Z) (l : list A) :
  List.map f (sort (fun a b => cmp (f a) (f b)) l)
  = sort cmp (List.map f l).
Proof.
  induction l as [|x l IH]; simpl; [reflexivity|].
  now rewrite insert_map, IH.
Qed.

Variable R : A -> A -> Prop.
Hypothesis R_trans : forall x y z, R x y -> R y z -> R x z.

Lemma insert_sorted (cmp : A -> A -> Z) (x : A) (l : list A) :
  (forall a b, (cmp a b <=? 0)%Z = true -> R a b) ->
  (forall a b, (cmp a b <=? 0)%Z = false -> R b a) ->
  StronglySorted R l -> StronglySorted R (insert cmp x l).
Proof.
  intros Hle Hgt. induction 1 as [|y l Hs IH Hy]; simpl.
  - constructor; constructor.
  - destruct (cmp x y <=? 0)%Z eqn:E.
    + constructor; [now constructor|].
      constructor; [now apply Hle|].
      eapply Forall_impl; [|exact Hy]. intros z Hz.
      apply R_trans with y; [now apply Hle | exact Hz].
    + constructor; [exact IH|].
      apply Forall_forall. intros z Hz.
      apply (Permutation_in _ (insert_perm cmp x l)) in Hz.
      destruct Hz as [<-|Hz]; [now apply Hgt|].
      rewrite Forall_forall in Hy. now apply Hy.
Qed.

Lemma sort_sorted (cmp : A -> A -> Z) (l : list A) :
  (forall a b, (cmp a b <=? 0)%Z = true -> R a b) ->
  (forall a b, (cmp a b <=? 0)%Z = false -> R b a) ->
  StronglySorted R (sort cmp l).
Proof.
  intros Hle Hgt. induction l as [|x l IH]; simpl; [constructor|].
  now apply insert_sorted.
Qed.

Hypothesis R_antisym : forall x y, R x y -> R y x -> x = y.

(** A list has one sorted arrangement. *)
Lemma sorted_unique (l1 l2 : list A) :
  StronglySorted R l1 -> StronglySorted R l2 -> Permutation l1 l2 ->
  l1 = l2.
Proof.
  intros H1; revert l2.
  induction H1 as [|x l1 Hs1 IH Hx]; intros l2 H2 Hp.
  - apply Permutation_nil in Hp. now subst.
  - destruct H2 as [|y l2 Hs2 Hy].
    + apply Permutation_sym, Permutation_nil in Hp. discriminate.
    + assert (x = y) as ->.
      { assert (Hin1 : In x (y :: l2))
          by (eapply Permutation_in; [exact Hp | now left]).
        assert (Hin2 : In y (x :: l1))
          by (eapply Permutation_in;
              [apply Permutation_sym; exact Hp | now left]).
        rewrite Forall_forall in Hx, Hy.
        destruct Hin1 as [->|Hin1]; [reflexivity|].
        destruct Hin2 as [->|Hin2]; [reflexivity|].
        apply R_antisym; [now apply Hx | now apply Hy]. }
      f_equal. apply IH; [assumption|].
      now apply Permutation_cons_inv with y.
Qed.

End SortFacts.

Section CompareFacts.

Lemma compare_refl (a : jsstring) : compare a a = Eq.
Proof.
  induction a as [|x a IH]; simpl; [reflexivity|].
  now rewrite N.compare_refl.
Qed.

Lemma compare_eq (a b : jsstring) : compare a b = Eq -> a = b.
Proof.
  revert b; induction a as [|x a IH]; intros [|y b]; simpl;
    try discriminate; [reflexivity|].
  destruct (N.compare x y) eqn:E; try discriminate.
  apply N.compare_eq in E. intros H. now rewrite E, (IH b H).
Qed.

Lemma compare_antisym (a b : jsstring) :
  compare b a = CompOpp (compare a b).
Proof.
  revert b; induction a as [|x a IH]; intros [|y b]; simpl;
    try reflexivity.
  rewrite (N.compare_antisym x y).
  destruct (N.compare x y); simpl; [apply IH | reflexivity | reflexivity].
Qed.

Lemma unitLe_trans (a b c : jsstring) :
  unitLe a b -> unitLe b c -> unitLe a c.
Proof.
  unfold unitLe. revert b c.
  induction a as [|x a IH]; intros [|y b] [|z c]; simpl; intros H1 H2;
    try congruence.
  destruct (N.compare_spec x y) as [Exy|Exy|Exy]; try congruence;
    destruct (N.compare_spec y z) as [Eyz|Eyz|Eyz]; try congruence;
    destruct (N.compare_spec x z) as [Exz|Exz|Exz]; try congruence;
    try lia.
  now apply IH with b.
Qed.

Lemma unitLe_antisym (a b : jsstring) : unitLe a b -> unitLe b a -> a = b.
Proof.
  unfold unitLe. rewrite (compare_antisym a b).
  destruct (compare a b) eqn:E; simpl; intros H1 H2; try congruence.
  now apply compare_eq.
Qed.

Lemma defaultCompare_le (a b : jsstring) :
  (defaultCompare a b <=? 0)%Z = true -> unitLe a b.
Proof.
  unfold defaultCompare, unitLe.
  destruct (compare a b); intros H; try discriminate H; discriminate.
Qed.

Lemma defaultCompare_gt (a b : jsstring) :
  (defaultCompare a b <=? 0)%Z = false -> unitLe b a.
Proof.
  unfold defaultCompare, unitLe. rewrite (compare_antisym a b).
  destruct (compare a b); intros H; try discriminate H; discriminate.
Qed.

Lemma defaultSort_sorted (l : list jsstring) :
  StronglySorted unitLe (sort defaultCompare l).
Proof.
  apply sort_sorted;
    [exact unitLe_trans | exact defaultCompare_le | exact defaultCompare_gt].
Qed.

(** The default sort does not depend on the order of its input. *)
Lemma defaultSort_perm (l1 l2 : list jsstring) :
  Permutation l1 l2 -> sort defaultCompare l1 = sort defaultCompare l2.
Proof.
  intros Hp. apply sorted_unique with (R := unitLe).
  - exact unitLe_antisym.
  - apply defaultSort_sorted.
  - apply defaultSort_sorted.
  - eapply Permutation_trans; [apply sort_perm|].
    eapply Permutation_trans; [exact Hp|].
    apply Permutation_sym, sort_perm.
Qed.

End CompareFacts.

(* ================================================================== *)
(** ** The base identifier of a frame *)
(* ================================================================== *)

Section BaseIdentifier.

Lemma upToFirstDot_spec (s : jsstring) : beforeFirstDot s (upToFirstDot s).
Proof.
  unfold beforeFirstDot. induction s as [|c s [Hfree Hcut]]; simpl.
  - split; [intros [] | now left].
  - destruct (N.eqb c dot) eqn:E.
    + apply N.eqb_eq in E. subst c.
      split; [intros [] | right; now exists s].
    + apply N.eqb_neq in E. split.
      * intros [H|H]; [congruence | contradiction].
      * destruct Hcut as [Hcut | [rest Hcut]].
        -- left. now rewrite <- Hcut.
        -- right. exists rest. now rewrite Hcut at 1.
Qed.

Lemma afterFirstDot_app (x y : jsstring) :
  ~ In dot x -> afterFirstDot (x ++ dot :: y) = y.
Proof.
  induction x as [|c x IH]; simpl; intros H.
  - reflexivity.
  - destruct (N.eqb c dot) eqn:E.
    + apply N.eqb_eq in E. destruct H. now left.
    + apply IH. intros Hin. apply H. now right.
Qed.

Lemma existsb_dot (s : jsstring) :
  existsb (N.eqb dot) s = true <-> In dot s.
Proof.
  rewrite existsb_exists. split.
  - intros [x [Hin E]]. apply N.eqb_eq in E. now subst.
  - intros H. exists dot. split; [exact H | apply N.eqb_refl].
Qed.

(** With at most one ['.'] in the name, the text before the first ['.']
    is the text before the last. *)
Lemma upToFirstDot_upToLastDot (s : jsstring) :
  count_occ N.eq_dec s dot <= 1 -> upToFirstDot s = upToLastDot s.
Proof.
  intros Hcount. unfold upToLastDot.
  destruct (upToFirstDot_spec s) as [Hfree [Hall | [rest Hcut]]].
  - rewrite <- Hall.
    destruct (existsb (N.eqb dot) s) eqn:E; [|reflexivity].
    apply existsb_dot in E. rewrite Hall in E. contradiction.
  - assert (Hrest : ~ In dot rest).
    { rewrite Hcut, count_occ_app in Hcount.
      rewrite count_occ_cons_eq in Hcount by reflexivity.
      intros Hin. apply (count_occ_In N.eq_dec) in Hin.
      unfold jsstring, unit16 in *. lia. }
    assert (E : existsb (N.eqb dot) s = true).
    { apply existsb_dot. rewrite Hcut. apply in_or_app. right. now left. }
    rewrite E. rewrite Hcut at 2.
    rewrite rev_app_distr. simpl. rewrite <- app_assoc. simpl.
    rewrite afterFirstDot_app by (now rewrite <- in_rev).
    now rewrite rev_involutive.
Qed.

(** C5, the claim as it stands fails: for a name with two dots the base
    identifier is the text before the first of them, not the text
    before the last. *)
Lemma base_differs_from_stripped_extension :
  baseOf twoDots = lit "a"
  /\ upToLastDot twoDots = lit "a.b"
  /\ baseOf twoDots <> upToLastDot twoDots.
Proof.
  repeat split; try reflexivity. vm_compute. discriminate.
Qed.

(** C5, amended: the base identifier of a frame is the text of its name
    before the first ['.'] (the whole name when it has none), in the
    script assembler and in the per-frame run alike; for a name with at
    most one ['.'] that is the name with its extension stripped. *)
Theorem base_is_text_before_first_dot (imageKey : jsstring)
  (img : SourceImage) :
  beforeFirstDot imageKey (baseOf imageKey)
  /\ beforeFirstDot (fileName img) (frameBase img)
  /\ (fileName img = imageKey -> frameBase img = baseOf imageKey)
  /\ (count_occ N.eq_dec imageKey dot <= 1 ->
      baseOf imageKey = upToLastDot imageKey).
Proof.
  assert (Hframe : frameBase img = upToFirstDot (fileName img))
    by apply baseOf_upToFirstDot.
  repeat split.
  - rewrite baseOf_upToFirstDot. apply upToFirstDot_spec.
  - rewrite baseOf_upToFirstDot. apply upToFirstDot_spec.
  - rewrite Hframe. apply upToFirstDot_spec.
  - rewrite Hframe. apply upToFirstDot_spec.
  - intros <-. now rewrite Hframe, baseOf_upToFirstDot.
  - intros H. rewrite baseOf_upToFirstDot.
    now apply upToFirstDot_upToLastDot.
Qed.

End BaseIdentifier.

(* ================================================================== *)
(** ** The script assembler *)
(* ================================================================== *)

Section Assembler.

Lemma matches_true (base : jsstring) (t : TextFile) :
  startsWith (name t) base && endsWith (name t) (lit ".txt") = true
  <-> matches base t.
Proof.
  unfold matches.
  now rewrite andb_true_iff, startsWith_spec, endsWith_spec.
Qed.

Lemma matches_false (base : jsstring) (t : TextFile) :
  startsWith (name t) base && endsWith (name t) (lit ".txt") = false
  <-> ~ matches base t.
Proof.
  rewrite <- matches_true.
  destruct (startsWith (name t) base && endsWith (name t) (lit ".txt"));
    split; congruence.
Qed.

Lemma findText_some (texts : list TextFile) (base : jsstring)
  (t : TextFile) :
  findText texts base = Some t -> firstMatch texts base t.
Proof.
  unfold findText, firstMatch.
  induction texts as [|t' texts IH]; simpl; [discriminate|].
  destruct (startsWith (name t') base && endsWith (name t') (lit ".txt"))
    eqn:E.
  - intros H. injection H as ->. exists [], texts.
    split; [reflexivity|]. split; [now apply matches_true | constructor].
  - intros H. destruct (IH H) as [before [after [-> [Hm Hb]]]].
    exists (t' :: before), after. split; [reflexivity|].
    split; [exact Hm|]. constructor; [now apply matches_false | exact Hb].
Qed.

Lemma findText_none (texts : list TextFile) (base : jsstring) :
  findText texts base = None ->
  Forall (fun t => ~ matches base t) texts.
Proof.
  unfold findText. intros H. apply Forall_forall. intros t Hin.
  apply matches_false. exact (find_none _ _ H t Hin).
Qed.

Lemma firstMatch_unique (texts : list TextFile) (base : jsstring)
  (t1 t2 : TextFile) :
  firstMatch texts base t1 -> firstMatch texts base t2 -> t1 = t2.
Proof.
  intros [b1 [a1 [E1 [M1 F1]]]] [b2 [a2 [E2 [M2 F2]]]].
  subst texts. revert b2 E2 F2.
  induction b1 as [|x b1 IH]; intros [|y b2] E2 F2; simpl in E2.
  - now injection E2.
  - injection E2 as -> _. inversion F2; contradiction.
  - injection E2 as -> _. inversion F1; contradiction.
  - injection E2 as -> E2. inversion F1; inversion F2; subst.
    now apply IH with b2.
Qed.

Lemma firstMatch_matches (texts : list TextFile) (base : jsstring)
  (t : TextFile) :
  firstMatch texts base t -> ~ Forall (fun t' => ~ matches base t') texts.
Proof.
  intros [before [after [-> [M _]]]] H.
  rewrite Forall_forall in H. apply (H t); [|exact M].
  apply in_or_app. right. now left.
Qed.

(** A frame adds one thing only. *)
Lemma Contributes_functional (texts : list TextFile) (frame : jsstring)
  (l1 l2 : list jsstring) :
  Contributes texts frame l1 -> Contributes texts frame l2 -> l1 = l2.
Proof.
  intros H1 H2.
  destruct H1 as [t1 lines1 M1 E1 L1 | t1 M1 L1 | N1];
    destruct H2 as [t2 lines2 M2 E2 L2 | t2 M2 L2 | N2];
    try reflexivity;
    try (now destruct (firstMatch_matches M1));
    try (now destruct (firstMatch_matches M2));
    pose proof (firstMatch_unique M1 M2) as E; subst.
  - reflexivity.
  - lia.
  - lia.
Qed.

Lemma assembleStep_pushed (tempTexts : list TextFile)
  (acc : list jsstring) (imageKey : jsstring) :
  assembleStep tempTexts acc imageKey = acc ++ pushed tempTexts imageKey.
Proof.
  unfold pushed, assembleStep, push.
  destruct (findText tempTexts (baseOf imageKey)) as [t|].
  - destruct (Nat.leb 4 (length (split newline (content t))));
      [reflexivity | now rewrite app_nil_r].
  - now rewrite app_nil_r.
Qed.

Lemma pushed_contributes (tempTexts : list TextFile) (imageKey : jsstring) :
  Contributes tempTexts imageKey (pushed tempTexts imageKey).
Proof.
  unfold pushed, assembleStep, push. rewrite baseOf_upToFirstDot.
  destruct (findText tempTexts (upToFirstDot imageKey)) as [t|] eqn:E.
  - apply findText_some in E.
    destruct (Nat.leb 4 (length (split newline (content t)))) eqn:L.
    + apply Nat.leb_le in L. simpl.
      now apply contributes_line with (t := t).
    + apply Nat.leb_gt in L. now apply contributes_short with (t := t).
  - apply contributes_unmatched. now apply findText_none.
Qed.

Lemma fold_assembleStep (tempTexts : list TextFile)
  (frames : list jsstring) (acc : list jsstring) :
  fold_left (assembleStep tempTexts) frames acc
  = acc ++ concat (List.map (pushed tempTexts) frames).
Proof.
  revert acc; induction frames as [|f frames IH]; intros acc; simpl.
  - now rewrite app_nil_r.
  - now rewrite IH, assembleStep_pushed, app_assoc.
Qed.

(** C1: the assembler goes through the frame names in sorted order;
    a frame whose matching text asset (the first whose name starts with
    the frame's base identifier and ends in [.txt]) has at least four
    newline-separated lines adds exactly its line of index 3, a frame
    whose text asset is shorter adds nothing, and so does a frame with
    no matching text asset; the script is what was added, joined by
    newlines. *)
Theorem assembler_takes_fourth_lines_in_sorted_order
  (tempProcessed : object SourceImage) (tempTexts : list TextFile) :
  let frames := sortedImageKeys tempProcessed in
  StronglySorted unitLe frames
  /\ Permutation frames (keys tempProcessed)
  /\ exists added : list (list jsstring),
       Forall2 (Contributes tempTexts) frames added
       /\ (forall others, Forall2 (Contributes tempTexts) frames others ->
           others = added)
       /\ hs4000Content tempProcessed tempTexts
          = join [newline] (concat added).
Proof.
  intros frames. split; [apply defaultSort_sorted|].
  split; [apply sort_perm|].
  assert (Hadded : Forall2 (Contributes tempTexts) frames
                     (List.map (pushed tempTexts) frames)).
  { induction frames as [|f fs IH]; simpl; constructor;
      [apply pushed_contributes | exact IH]. }
  exists (List.map (pushed tempTexts) frames).
  split; [exact Hadded|]. split.
  - revert Hadded. generalize (List.map (pushed tempTexts) frames).
    intros added Hadded others Hothers. revert others Hothers.
    induction Hadded as [|f a fs added Ha _ IH]; intros others Hothers;
      inversion Hothers; subst; [reflexivity|].
    f_equal; [now apply Contributes_functional with tempTexts f|].
    now apply IH.
  - unfold hs4000Content, hs4000Lines. fold frames.
    now rewrite fold_assembleStep.
Qed.

End Assembler.

(* ================================================================== *)
(** ** The order of the frames *)
(* ================================================================== *)

Section FrameOrder.

Variable localeCompare : jsstring -> jsstring -> Z.

Lemma keyed_fileNames (o : object SourceImage) :
  keyedByFileName o -> List.map fileName (values o) = keys o.
Proof.
  unfold keyedByFileName, values, keys.
  induction 1 as [|kv o H _ IH]; simpl; [reflexivity|].
  now rewrite H, IH.
Qed.

Lemma keyed_perm (o o' : object SourceImage) :
  Permutation o o' -> keyedByFileName o -> keyedByFileName o'.
Proof.
  unfold keyedByFileName. intros Hp H. rewrite Forall_forall in *.
  intros kv Hin. apply H.
  eapply Permutation_in; [apply Permutation_sym; exact Hp | exact Hin].
Qed.

Lemma keyed_setOwn (o : object SourceImage) (k : jsstring)
  (img : SourceImage) :
  keyedByFileName o -> fileName img = k -> keyedByFileName (setOwn o k img).
Proof.
  unfold keyedByFileName. intros H E.
  induction H as [|[k' v'] o Hkv Ho IH]; simpl.
  - constructor; [exact E | constructor].
  - destruct (eqb k' k) eqn:Ek.
    + apply eqb_eq in Ek. subst k'. constructor; [exact E | exact Ho].
    + constructor; [exact Hkv | exact IH].
Qed.

Lemma keyed_spread (a b : object SourceImage) :
  keyedByFileName a -> keyedByFileName b -> keyedByFileName (spread a b).
Proof.
  unfold spread. intros Ha Hb. revert a Ha.
  induction Hb as [|[k v] b Hkv _ IH]; intros a Ha; simpl; [exact Ha|].
  apply IH. now apply keyed_setOwn.
Qed.

(** The frames an upload keeps are stored under their file names when
    the frames of each archive are. *)
Lemma partition_keyed (toLowerCase : jsstring -> jsstring)
  (files : list (jsstring * Extracted)) :
  Forall (fun file => keyedByFileName (images (snd file))) files ->
  keyedByFileName
    (snd (fst (fold_left (partitionStep toLowerCase) files ([], [], [])))).
Proof.
  intros H.
  assert (G : forall temp,
             keyedByFileName (snd (fst temp)) ->
             keyedByFileName
               (snd (fst (fold_left (partitionStep toLowerCase) files temp)))).
  { induction H as [|file files Hfile _ IH]; intros temp Ht; simpl;
      [exact Ht|].
    apply IH. destruct temp as [[tempAvatars tempProcessed] tempTexts].
    unfold partitionStep. simpl in *.
    destruct (includes _ (lit "avatars")); [exact Ht|].
    destruct (includes _ (lit "processed")); [|exact Ht].
    now apply keyed_spread. }
  apply G. constructor.
Qed.

(** The run visits the frames in the order in which [localeCompare]
    sorts their names. *)
Lemma allImages_names (o : object SourceImage) :
  keyedByFileName o ->
  List.map fileName (allImages localeCompare o)
  = sort localeCompare (keys o).
Proof.
  intros H. unfold allImages.
  now rewrite (sort_map fileName localeCompare), keyed_fileNames.
Qed.

Lemma sortedImageKeys_perm (o o' : object SourceImage) :
  Permutation o o' -> sortedImageKeys o' = sortedImageKeys o.
Proof.
  intros Hp. unfold sortedImageKeys. apply defaultSort_perm.
  unfold keys. apply Permutation_map, Permutation_sym, Hp.
Qed.

End FrameOrder.

(** C3, the claim as it stands fails: of two frames named [a.png] and
    [B.png] the assembler takes [B.png] first, the code unit of [B]
    being the smaller, and the per-frame run takes [a.png] first, as
    the collation of [localeCompare] has it. *)
Lemma run_order_differs_from_assembly_order :
  keyedByFileName mixedCase
  /\ sortedImageKeys mixedCase = [lit "B.png"; lit "a.png"]
  /\ List.map fileName (allImages asciiLocaleCompare mixedCase)
     = [lit "a.png"; lit "B.png"].
Proof.
  split; [|split; reflexivity].
  repeat constructor.
Qed.

(** C3, amended: the assembler goes through the frame names in
    ascending order of their code units, whatever the order in which
    the map yields them; the per-frame run goes through the frames in
    the order in which a stable sort by [localeCompare] puts their
    names; the two orders are one, whatever the order in which the map
    yields the frames, whenever [localeCompare] orders the frame names
    as code-unit comparison does. *)
Theorem run_order_is_assembly_order_when_collation_agrees
  (localeCompare : jsstring -> jsstring -> Z)
  (processedImages : object SourceImage) :
  keyedByFileName processedImages ->
  StronglySorted unitLe (sortedImageKeys processedImages)
  /\ Permutation (sortedImageKeys processedImages) (keys processedImages)
  /\ (forall reordered, Permutation processedImages reordered ->
        sortedImageKeys reordered = sortedImageKeys processedImages)
  /\ List.map fileName (allImages localeCompare processedImages)
     = sort localeCompare (keys processedImages)
  /\ (sameOrderOn (keys processedImages) localeCompare defaultCompare ->
      forall reordered, Permutation processedImages reordered ->
        List.map fileName (allImages localeCompare reordered)
        = sortedImageKeys processedImages).
Proof.
  intros Hkeyed.
  split; [apply defaultSort_sorted|].
  split; [apply sort_perm|].
  split; [intros reordered; apply sortedImageKeys_perm|].
  split; [now apply allImages_names|].
  intros Hsame reordered Hp.
  rewrite allImages_names by (now apply keyed_perm with processedImages).
  rewrite <- (sortedImageKeys_perm Hp). unfold sortedImageKeys.
  apply sort_ext. intros x y Hx Hy.
  assert (Hk : Permutation (keys reordered) (keys processedImages))
    by (unfold keys; apply Permutation_map, Permutation_sym, Hp).
  apply Hsame; eapply Permutation_in; eauto.
Qed.

(** The theorem at two frames whose names are in lower case. *)
Lemma run_order_is_assembly_order_witness :
  let frames : object SourceImage :=
    [(lit "b.png", mkSourceImage (lit "b.png") [] (lit "image/png"));
     (lit "a.png", mkSourceImage (lit "a.png") [] (lit "image/png"))] in
  List.map fileName (allImages asciiLocaleCompare frames)
  = sortedImageKeys frames.
Proof.
  intros frames.
  assert (Hkeyed : keyedByFileName frames) by (repeat constructor).
  assert (Hsame : sameOrderOn (keys frames) asciiLocaleCompare
                    defaultCompare).
  { intros a b Ha Hb. simpl in Ha, Hb.
    destruct Ha as [<-|[<-|[]]]; destruct Hb as [<-|[<-|[]]];
      reflexivity. }
  exact (proj2 (proj2 (proj2 (proj2
    (run_order_is_assembly_order_when_collation_agrees
       asciiLocaleCompare Hkeyed)))) Hsame frames
    (Permutation_refl frames)).
Defined.

(* ================================================================== *)
(** ** Runs *)
(* ================================================================== *)

Section Runs.

Lemma run_bind {A B} (service : Service) (m : Eff A) (f : A -> Eff B)
  (n : nat) :
  run service n (bind m f)
  = let (a, before) := run service n m in
    let (b, after) := run service (n + length (calls before)) (f a) in
    (b, before ++ after).
Proof.
  revert n; induction m as [a | e k IH | req k IH]; intros n; simpl.
  - rewrite Nat.add_0_r. now destruct (run service n (f a)).
  - rewrite IH. destruct (run service n k) as [a before]. simpl.
    now destruct (run service (n + length (calls before)) (f a)).
  - rewrite IH.
    destruct (run service (S n) (k (service n req))) as [a before].
    simpl. rewrite Nat.add_succ_r.
    now destruct (run service (S (n + length (calls before))) (f a)).
Qed.

Lemma calls_app (t1 t2 : list Event) :
  calls (t1 ++ t2) = calls t1 ++ calls t2.
Proof.
  induction t1 as [|[req|e] t1 IH]; simpl; [reflexivity | | exact IH].
  now rewrite IH.
Qed.


Lemma noCall_emit {A} (e : Effect) (k : Eff A) :
  noCall k -> noCall (Emit e k).
Proof.
  intros H service n. simpl. specialize (H service n).
  now destruct (run service n k).
Qed.

Lemma noCall_bind {A B} (m : Eff A) (f : A -> Eff B) :
  noCall m -> (forall a, noCall (f a)) -> noCall (bind m f).
Proof.
  intros Hm Hf service n. rewrite run_bind.
  specialize (Hm service n). destruct (run service n m) as [a before].
  specialize (Hf a service (n + length (calls before))).
  destruct (run service (n + length (calls before)) (f a)) as [b after].
  simpl in *. now rewrite calls_app, Hm, Hf.
Qed.

End Runs.

(* ================================================================== *)
(** ** The guard of the analysis *)
(* ================================================================== *)

Section Analysis.

Lemma runAnalysis_blank (st : State) :
  (forall script, fullScript st = Some script ->
     forallb isWhiteSpace (content script) = true) ->
  runAnalysis st = Ret (halted st).
Proof.
  intros H. unfold runAnalysis.
  destruct (fullScript st) as [script|]; [|reflexivity].
  specialize (H script eq_refl). apply trim_nil in H. now rewrite H.
Qed.



End Analysis.

(* ================================================================== *)
(** ** The context localizer *)
(* ================================================================== *)

Section Localizer.

Lemma localize_found (script : TextFile) (sceneTextSnippet : jsstring)
  (P : nat) :
  indexOf (content script) (firstn 40 sceneTextSnippet) = Z.of_nat P ->
  P <= length (content script) ->
  localize (Some script) sceneTextSnippet
  = skipn (P - 1000) (firstn (P + 3000) (content script)).
Proof.
  intros Hi Hle. unfold localize.
  change 40%Z with (Z.of_nat 40). rewrite substring_prefix, Hi.
  replace (Z.of_nat P =? -1)%Z with false by (symmetry; apply Z.eqb_neq; lia).
  simpl negb. cbv iota.
  rewrite substring_range by (unfold len; lia).
  replace (Z.to_nat (Z.max 0 (Z.of_nat P - 1000))) with (P - 1000) by lia.
  replace (Z.to_nat (Z.min (len (content script)) (Z.of_nat P + 3000)))
    with (Nat.min (P + 3000) (length (content script)))
    by (unfold len; lia).
  now rewrite firstn_min_length.
Qed.

Lemma localize_missing (script : TextFile) (sceneTextSnippet : jsstring) :
  indexOf (content script) (firstn 40 sceneTextSnippet) = (-1)%Z ->
  localize (Some script) sceneTextSnippet = [].
Proof.
  intros Hi. unfold localize.
  change 40%Z with (Z.of_nat 40). now rewrite substring_prefix, Hi.
Qed.

(** The window is a stretch of the script that starts 1000 units before
    the anchor, or at the start of the script, and ends 3000 units
    after it, or at the end of the script. *)
Lemma window_in_script (text : jsstring) (P : nat) :
  P <= length text ->
  exists before after,
    text = before ++ skipn (P - 1000) (firstn (P + 3000) text) ++ after
    /\ length before = P - 1000
    /\ length after = length text - (P + 3000).
Proof.
  intros Hle.
  exists (firstn (P - 1000) text), (skipn (P + 3000) text).
  split; [|split].
  - rewrite <- (firstn_skipn (P + 3000) text) at 1.
    rewrite app_assoc. f_equal.
    rewrite <- (firstn_skipn (P - 1000) (firstn (P + 3000) text)) at 1.
    f_equal. rewrite firstn_firstn. f_equal. lia.
  - rewrite length_firstn. lia.
  - apply length_skipn.
Qed.

(** The two cases of the localizer. *)
Lemma localize_cases (script : TextFile) (sceneTextSnippet : jsstring) :
  let anchor := firstn 40 sceneTextSnippet in
  let text := content script in
  (exists P,
     occursAt anchor text P
     /\ (forall j, j < P -> ~ occursAt anchor text j)
     /\ localize (Some script) sceneTextSnippet
        = skipn (P - 1000) (firstn (P + 3000) text)
     /\ exists before after,
          text = before ++ localize (Some script) sceneTextSnippet ++ after
          /\ length before = P - 1000
          /\ length after = length text - (P + 3000))
  \/ ((forall k, ~ occursAt anchor text k)
      /\ localize (Some script) sceneTextSnippet = []).
Proof.
  intros anchor text.
  destruct (indexOf_spec text anchor) as [[Hi Hno] | [P [Hi [Hocc Hmin]]]].
  - right. split; [exact Hno | now apply localize_missing].
  - left. exists P.
    assert (Hle : P <= length text)
      by (apply occursAt_bound in Hocc; lia).
    pose proof (localize_found script sceneTextSnippet Hi Hle) as E.
    split; [exact Hocc|]. split; [exact Hmin|]. split; [exact E|].
    rewrite E. now apply window_in_script.
Qed.

Lemma localize_length (fullScript : option TextFile)
  (sceneTextSnippet : jsstring) :
  length (localize fullScript sceneTextSnippet) <= 4000.
Proof.
  destruct fullScript as [script|]; [|simpl; lia].
  destruct (localize_cases script sceneTextSnippet)
    as [[P [_ [_ [E _]]]] | [_ E]]; rewrite E; [|simpl; lia].
  rewrite length_skipn, length_firstn. lia.
Qed.

End Localizer.

(* ================================================================== *)
(** ** The character identifier *)
(* ================================================================== *)

Section Identifier.

Lemma ownProperty_absent (props : list (jsstring * Value))
  (name : jsstring) :
  absent props name -> ownProperty props name = VUndefined.
Proof.
  unfold absent. induction props as [|[k v] props IH]; simpl;
    [reflexivity|].
  intros H. destruct (eqb k name) eqn:E.
  - apply eqb_eq in E. destruct H. now left.
  - apply IH. intros Hin. apply H. now right.
Qed.

Lemma run_identify (service : Service) (n : nat)
  (sceneText visual bible : jsstring) :
  run service n (identifyConsistentCharacter sceneText visual bible)
  = (match service n (identifyRequest sceneText visual bible) with
     | Resolves response =>
         match readMapping response with
         | Some mapping => mapping
         | None => caughtMapping
         end
     | Rejects => caughtMapping
     end,
     [Called (identifyRequest sceneText visual bible)]).
Proof.
  unfold identifyConsistentCharacter. simpl.
  destruct (service n (identifyRequest sceneText visual bible)) as [|r];
    [reflexivity|].
  now destruct (readMapping r).
Qed.

(** C7, the claim as it stands fails: after a response that does not
    parse, the mapping returned has no [otherCharacters] at all; the
    property reads as [undefined], not as the empty array. *)
Lemma unparseable_response_leaves_others_undefined :
  fst (run (always unparseable) 0 (identifyConsistentCharacter [] [] []))
  = mkMapping (VString (lit "Unknown")) VNull VUndefined
  /\ VUndefined <> VArray [].
Proof. split; [reflexivity | discriminate]. Qed.

(** C7, amended: the identifier makes its one call and returns a
    mapping whatever the outcome. When the call fails, when the
    response does not parse, or when it parses to [null], the mapping
    is [characterName = "Unknown"], [avatarFilename = null] and no
    [otherCharacters], for which the caller takes the empty array.
    When the response parses to an object, a property that is absent
    takes its default: ["Unknown"], [null], the empty array; so do all
    three when it parses to a value that is no object. *)
Theorem identifier_falls_back_to_defaults (service : Service) (n : nat)
  (sceneText visual bible : jsstring) :
  let request := identifyRequest sceneText visual bible in
  let result :=
    run service n (identifyConsistentCharacter sceneText visual bible) in
  let mapping := fst result in
  snd result = [Called request]
  /\ ((service n request = Rejects
       \/ (exists response,
             service n request = Resolves response
             /\ (parseText response = None
                 \/ parseText response = Some VNull))) ->
      mapping = mkMapping (VString (lit "Unknown")) VNull VUndefined
      /\ orValue (otherCharacters mapping) (VArray []) = VArray [])
  /\ (forall response props,
        service n request = Resolves response ->
        parseText response = Some (VObject props) ->
        (absent props (lit "characterName") ->
         characterName mapping = VString (lit "Unknown"))
        /\ (absent props (lit "avatarFilename") ->
            avatarFilename mapping = VNull)
        /\ (absent props (lit "otherCharacters") ->
            otherCharacters mapping = VArray []))
  /\ (forall response v,
        service n request = Resolves response ->
        parseText response = Some v -> plainValue v ->
        mapping = mkMapping (VString (lit "Unknown")) VNull (VArray [])).
Proof.
  intros request result mapping. subst result mapping request.
  rewrite run_identify. simpl fst. simpl snd.
  split; [reflexivity|]. split; [|split].
  - intros [E | [response [E [P | P]]]]; rewrite E.
    + split; reflexivity.
    + unfold readMapping. rewrite P. split; reflexivity.
    + unfold readMapping. rewrite P. split; reflexivity.
  - intros response props E P. rewrite E.
    unfold readMapping. rewrite P. cbn [getProperty].
    cbn [characterName avatarFilename otherCharacters].
    repeat split; intros H; now rewrite (ownProperty_absent H).
  - intros response v E P Hv. rewrite E.
    unfold readMapping. rewrite P.
    destruct v; try contradiction; reflexivity.
Qed.

(** The theorem at the response [{}]. *)
Lemma identifier_defaults_on_empty_object :
  fst (run (always (mkResponse (Some (lit "{}")) (Some (VObject [])) None))
         0 (identifyConsistentCharacter [] [] []))
  = mkMapping (VString (lit "Unknown")) VNull (VArray []).
Proof. reflexivity. Qed.

End Identifier.

(* ================================================================== *)
(** ** The payload of the image generator *)
(* ================================================================== *)

Section Generator.

Lemma revisionParts_with_avatar (prompt data mime sceneBase64 sceneMime
  : jsstring) :
  data <> [] -> mime <> [] ->
  revisionParts prompt (Some data) (Some mime) sceneBase64 sceneMime
  = [Text (promptLabel ++ prompt);
     Text transplantInstruction;
     Text avatarLabel;
     InlineData data mime;
     Text sceneLabel;
     InlineData sceneBase64 sceneMime].
Proof.
  intros Hd Hm. unfold revisionParts, bothPresent.
  destruct data; [congruence|]. destruct mime; [congruence|].
  reflexivity.
Qed.

Lemma revisionParts_without_avatar (prompt : jsstring)
  (avatarBase64 avatarMime : option jsstring)
  (sceneBase64 sceneMime : jsstring) :
  bothPresent avatarBase64 avatarMime = None ->
  revisionParts prompt avatarBase64 avatarMime sceneBase64 sceneMime
  = [Text (rerenderInstructionHead ++ prompt ++ rerenderInstructionTail);
     InlineData sceneBase64 sceneMime].
Proof. intros H. unfold revisionParts. now rewrite H. Qed.

(** C9, the claim as it stands fails: an avatar that is not [null] but
    whose data is the empty string is sent as no avatar at all. *)
Lemma empty_avatar_sends_fallback_payload :
  revisionParts (lit "p") (Some []) (Some (lit "image/png"))
    (lit "U0NFTkU=") (lit "image/jpeg")
  = [Text (rerenderInstructionHead ++ lit "p" ++ rerenderInstructionTail);
     InlineData (lit "U0NFTkU=") (lit "image/jpeg")].
Proof. reflexivity. Qed.

(** C9, amended: a call whose avatar data and media type are both
    strings other than the empty one sends six parts in this order:
    the prompt text, the identity-transplant instruction, the avatar
    label, the avatar image, the scene label, the scene image. Every
    other call (avatar data or media type [null] or empty) sends two:
    the re-render instruction, then the scene image. *)
Theorem revision_payload_order (prompt : jsstring)
  (avatarBase64 avatarMime : option jsstring)
  (sceneBase64 sceneMime aspectRatio : jsstring) :
  singleCall
    (generateRevisedImage prompt avatarBase64 avatarMime sceneBase64
       sceneMime aspectRatio)
    (mkRequest (lit "gemini-2.5-flash-image")
       (Parts (revisionParts prompt avatarBase64 avatarMime sceneBase64
                 sceneMime))
       (ImageConfig aspectRatio))
  /\ (forall data mime,
        avatarBase64 = Some data -> avatarMime = Some mime ->
        data <> [] -> mime <> [] ->
        revisionParts prompt avatarBase64 avatarMime sceneBase64 sceneMime
        = [Text (promptLabel ++ prompt);
           Text transplantInstruction;
           Text avatarLabel;
           InlineData data mime;
           Text sceneLabel;
           InlineData sceneBase64 sceneMime])
  /\ (avatarBase64 = None \/ avatarBase64 = Some []
      \/ avatarMime = None \/ avatarMime = Some [] ->
      revisionParts prompt avatarBase64 avatarMime sceneBase64 sceneMime
      = [Text (rerenderInstructionHead ++ prompt
               ++ rerenderInstructionTail);
         InlineData sceneBase64 sceneMime]).
Proof.
  split; [|split].
  - intros service n. unfold generateRevisedImage. simpl.
    destruct (service n _) as [|r]; [reflexivity|].
    now destruct (outParts r).
  - intros data mime -> -> Hd Hm. now apply revisionParts_with_avatar.
  - intros H. apply revisionParts_without_avatar. unfold bothPresent.
    destruct avatarBase64 as [[|c data]|]; destruct avatarMime as [[|d mime]|];
      try reflexivity.
    destruct H as [H|[H|[H|H]]]; discriminate.
Qed.

End Generator.

(* ================================================================== *)
(** ** One frame of the production run *)
(* ================================================================== *)

Section Frame.

Variable numberToString : spec_float -> jsstring.

Lemma calls_bind {A B} (service : Service) (n : nat) (m : Eff A)
  (f : A -> Eff B) :
  calls (snd (run service n (bind m f)))
  = calls (snd (run service n m))
    ++ calls (snd (run service
                     (n + length (calls (snd (run service n m))))
                     (f (fst (run service n m))))).
Proof.
  rewrite run_bind. destruct (run service n m) as [a before]. simpl.
  destruct (run service (n + length (calls before)) (f a)) as [b after].
  simpl. apply calls_app.
Qed.

Lemma single_bible (filenames : list jsstring) (fullScript : jsstring) :
  singleCall (createCharacterBible filenames fullScript)
    (bibleRequest filenames fullScript).
Proof.
  intros service n. unfold createCharacterBible. simpl.
  now destruct (service n _).
Qed.

Lemma single_analysis (base64 mimeType : jsstring) :
  singleCall (analyzeSceneImage base64 mimeType)
    (analysisRequest base64 mimeType).
Proof.
  intros service n. unfold analyzeSceneImage. simpl.
  now destruct (service n _).
Qed.

Lemma single_identify (sceneText visual bible : jsstring) :
  singleCall (identifyConsistentCharacter sceneText visual bible)
    (identifyRequest sceneText visual bible).
Proof. intros service n. now rewrite run_identify. Qed.

Lemma run_synth (service : Service) (n : nat) (sceneText : jsstring)
  (name others : Value) (bible style visual context : jsstring)
  (storyMap : option jsstring) :
  run service n
    (generateRejuvenatedPrompt numberToString sceneText name others bible
       style visual context storyMap)
  = match synthPrompt numberToString sceneText name bible style visual
            context storyMap with
    | Some prompt =>
        (Some match service n (synthRequest prompt) with
              | Resolves response =>
                  orElse (option_map trim (text response))
                    (lit "Masterpiece film frame, cinematic lighting, ultra-detailed characters.")
              | Rejects => lit "Cinematic film frame, professional lighting."
              end,
         [Called (synthRequest prompt)])
    | None => (None, [])
    end.
Proof.
  unfold generateRejuvenatedPrompt.
  destruct (synthPrompt _ _ _ _ _ _ _ _) as [prompt|]; [|reflexivity].
  simpl. now destruct (service n _).
Qed.

Lemma single_revision (prompt : jsstring)
  (avatarBase64 avatarMime : option jsstring)
  (sceneBase64 sceneMime aspectRatio : jsstring) :
  singleCall
    (generateRevisedImage prompt avatarBase64 avatarMime sceneBase64
       sceneMime aspectRatio)
    (revisionRequest prompt avatarBase64 avatarMime sceneBase64 sceneMime
       aspectRatio).
Proof.
  intros service n. unfold generateRevisedImage. simpl.
  destruct (service n _) as [|r]; [reflexivity|].
  now destruct (outParts r).
Qed.

(** The synthesizer builds its prompt exactly when the character name
    has a string. *)
Lemma synthPrompt_some (sceneText : jsstring) (characterName : Value)
  (bible style visual context : jsstring) (storyMap : option jsstring)
  (name : jsstring) :
  toString numberToString characterName = Some name ->
  synthPrompt numberToString sceneText characterName bible style visual
    context storyMap
  = Some (synthTemplate sceneText name bible style visual context storyMap).
Proof. intros H. unfold synthPrompt. now rewrite H. Qed.

Lemma synthPrompt_none (sceneText : jsstring) (characterName : Value)
  (bible style visual context : jsstring) (storyMap : option jsstring) :
  toString numberToString characterName = None ->
  synthPrompt numberToString sceneText characterName bible style visual
    context storyMap
  = None.
Proof. intros H. unfold synthPrompt. now rewrite H. Qed.

Lemma synthPrompt_name (sceneText : jsstring) (characterName : Value)
  (bible style visual context : jsstring) (storyMap : option jsstring)
  (prompt : jsstring) :
  synthPrompt numberToString sceneText characterName bible style visual
    context storyMap
  = Some prompt ->
  exists name, toString numberToString characterName = Some name.
Proof.
  unfold synthPrompt.
  destruct (toString numberToString characterName) as [name|];
    [now exists name | discriminate].
Qed.

(** The calls of a frame that has a text asset, in order, each with
    what the calls before it returned: the analysis and the
    identification, and after them the synthesis and the generation
    unless the avatar lookup or the synthesizer's template throws. *)
Lemma processFrame_calls (service : Service) (n total i : nat)
  (img : SourceImage) (st : State) (tFile : TextFile) :
  findText (textFiles st) (frameBase img) = Some tFile ->
  let snippet := sceneSnippet tFile in
  let context := localize (fullScript st) snippet in
  let visual :=
    fst (run service n (analyzeSceneImage (base64 img) (mimeType img))) in
  let mapping :=
    fst (run service (n + 1)
           (identifyConsistentCharacter snippet visual (characterBible st)))
  in
  exists rest,
    calls (snd (run service n (processFrame numberToString total i img st)))
    = analysisRequest (base64 img) (mimeType img)
      :: identifyRequest snippet visual (characterBible st)
      :: rest
    /\ match resolveAvatar numberToString (avatars st) mapping,
             synthPrompt numberToString snippet (characterName mapping)
               (characterBible st) (style st) visual context
               (option_map content (storyMap st)) with
       | Some avatar, Some synthesis =>
           exists prompt,
             rest = [synthRequest synthesis;
                     revisionRequest prompt (fst (avatarArguments avatar))
                       (snd (avatarArguments avatar)) (base64 img)
                       (mimeType img) defaultAspectRatio]
       | _, _ => rest = []
       end.
Proof.
  intros Hfind snippet context visual mapping.
  unfold processFrame. rewrite Hfind. fold snippet. fold context.
  cbn [characterBible style storyMap avatars setStatus].
  rewrite calls_bind, single_analysis. fold visual.
  cbn [length app].
  rewrite calls_bind, single_identify. fold mapping.
  cbn [length app].
  eexists. split; [reflexivity|].
  destruct (resolveAvatar numberToString (avatars st) mapping)
    as [avatar|]; [|reflexivity].
  rewrite calls_bind, run_synth.
  destruct (synthPrompt numberToString snippet (characterName mapping)
              (characterBible st) (style st) visual context
              (option_map content (storyMap st))) as [synthesis|] eqn:E;
    [|reflexivity].
  cbn [fst snd calls length app].
  rewrite calls_bind, single_revision. cbn [length app].
  eexists. f_equal. f_equal.
  destruct (synthPrompt_name _ _ _ _ _ _ _ E) as [name ->].
  destruct (fst (run service _ (generateRevisedImage _ _ _ _ _ _)));
    reflexivity.
Qed.

End Frame.

(* ================================================================== *)
(** ** The budgets of the prompts *)
(* ================================================================== *)

Section Budgets.

Lemma cap_15000 (s : jsstring) : substring s 0 15000 = firstn 15000 s.
Proof. change 15000%Z with (Z.of_nat 15000). apply substring_prefix. Qed.

Lemma cap_8000 (s : jsstring) : substring s 0 8000 = firstn 8000 s.
Proof. change 8000%Z with (Z.of_nat 8000). apply substring_prefix. Qed.

Lemma cap_1500 (s : jsstring) : substring s 0 1500 = firstn 1500 s.
Proof. change 1500%Z with (Z.of_nat 1500). apply substring_prefix. Qed.

Lemma cap_1000 (s : jsstring) : substring s 0 1000 = firstn 1000 s.
Proof. change 1000%Z with (Z.of_nat 1000). apply substring_prefix. Qed.

Lemma firstn_le {A} (n : nat) (l : list A) : length (firstn n l) <= n.
Proof. rewrite length_firstn. lia. Qed.

(** C6: the identifier's prompt holds the first 8000 units of the
    bible and no more of it; the bible builder's prompt the first 15000
    units of the script; the synthesizer's prompt the first 1000 units
    of the bible. Each prompt is the one the call is made with. The
    synthesizer builds its prompt when the character name it is given
    has a string; when it has none, no prompt is built and no call is
    made. *)
Theorem embedded_excerpts_are_capped
  (numberToString : spec_float -> jsstring)
  (filenames : list jsstring) (fullScript : jsstring)
  (sceneText visualAnalysis style fullScriptSnippet bible : jsstring)
  (characterName otherCharacters : Value) (storyMap : option jsstring) :
  (identifyPrompt sceneText visualAnalysis bible
   = identifyPromptScene ++ sceneText
     ++ identifyPromptVisual ++ visualAnalysis
     ++ identifyPromptBible ++ firstn 8000 bible
     ++ identifyPromptOutput
   /\ length (firstn 8000 bible) <= 8000
   /\ singleCall
        (identifyConsistentCharacter sceneText visualAnalysis bible)
        (mkRequest (lit "gemini-3-flash-preview")
           (Prompt (identifyPrompt sceneText visualAnalysis bible))
           (ResponseMimeType (lit "application/json"))))
  /\ (biblePrompt filenames fullScript
      = biblePromptAssets ++ join (lit ", ") filenames
        ++ biblePromptExcerpt ++ firstn 15000 fullScript
        ++ biblePromptTask
      /\ length (firstn 15000 fullScript) <= 15000
      /\ singleCall (createCharacterBible filenames fullScript)
           (mkRequest (lit "gemini-3-pro-preview")
              (Prompt (biblePrompt filenames fullScript)) NoConfig))
  /\ ((forall name,
         toString numberToString characterName = Some name ->
         let prompt :=
           synthPromptPlot
           ++ orElse storyMap (lit "Standard narrative arc.")
           ++ synthPromptAction ++ sceneText
           ++ synthPromptContext ++ firstn 1500 fullScriptSnippet
           ++ synthPromptIdentity ++ name
           ++ synthPromptTraits ++ firstn 1000 bible
           ++ synthPromptFrame ++ visualAnalysis
           ++ synthPromptStyle ++ style
           ++ synthPromptTask ++ name
           ++ synthPromptLens in
         synthPrompt numberToString sceneText characterName bible style
           visualAnalysis fullScriptSnippet storyMap
         = Some prompt
         /\ singleCall
              (generateRejuvenatedPrompt numberToString sceneText
                 characterName otherCharacters bible style visualAnalysis
                 fullScriptSnippet storyMap)
              (mkRequest (lit "gemini-3-pro-preview") (Prompt prompt)
                 NoConfig))
      /\ (toString numberToString characterName = None ->
          synthPrompt numberToString sceneText characterName bible style
            visualAnalysis fullScriptSnippet storyMap
          = None
          /\ noCall
               (generateRejuvenatedPrompt numberToString sceneText
                  characterName otherCharacters bible style visualAnalysis
                  fullScriptSnippet storyMap))
      /\ length (firstn 1000 bible) <= 1000).
Proof.
  split; [|split].
  - split; [unfold identifyPrompt; now rewrite cap_8000|].
    split; [apply firstn_le | apply single_identify].
  - split; [unfold biblePrompt; now rewrite cap_15000|].
    split; [apply firstn_le | apply single_bible].
  - split; [|split; [|apply firstn_le]].
    + intros name Hname prompt.
      assert (E : synthPrompt numberToString sceneText characterName bible
                    style visualAnalysis fullScriptSnippet storyMap
                  = Some prompt).
      { rewrite (synthPrompt_some _ _ _ _ _ _ _ _ Hname).
        unfold synthTemplate. now rewrite cap_1500, cap_1000. }
      split; [exact E|].
      intros service n. now rewrite run_synth, E.
    + intros Hname.
      pose proof (synthPrompt_none numberToString sceneText characterName
                    bible style visualAnalysis fullScriptSnippet storyMap
                    Hname) as E.
      split; [exact E|].
      intros service n. now rewrite run_synth, E.
Qed.

End Budgets.

(* ================================================================== *)
(** ** The avatar handed to the image generator *)
(* ================================================================== *)

Section Avatar.

Variable numberToString : spec_float -> jsstring.

Lemma unknown_avatar_is_null (avatars : object SourceImage)
  (mapping : Mapping) :
  avatarFilename mapping = VNull
  \/ (exists key,
        toString numberToString (avatarFilename mapping) = Some key
        /\ getOwn avatars key = None) ->
  exists avatar,
    resolveAvatar numberToString avatars mapping = Some avatar
    /\ avatarArguments avatar = (None, None).
Proof.
  intros H. unfold resolveAvatar.
  destruct (truthyValue (avatarFilename mapping)) eqn:T;
    [|now exists ANull].
  destruct H as [H | [key [Hkey Hown]]]; [rewrite H in T; discriminate|].
  rewrite Hkey. cbn [option_map]. eexists. split; [reflexivity|].
  unfold getAvatar. rewrite Hown.
  now destruct (existsb _ prototypeNames).
Qed.

End Avatar.

(** C8, the claim as it stands fails: the identifier can answer with no
    [avatarFilename] and a [characterName] that has no string. The
    mapping then has a [null] avatar, but the synthesizer's template
    throws, the [catch] of the frame logs the error, and the frame ends
    after its first two calls: the image generator is not invoked. *)
Lemma null_avatar_frame_without_generator_call :
  let visual :=
    fst (run (always namingUnprintable) 0
           (analyzeSceneImage (base64 sampleFrame) (mimeType sampleFrame))) in
  let mapping :=
    fst (run (always namingUnprintable) 1
           (identifyConsistentCharacter (sceneSnippet sampleText) visual
              (characterBible sampleState))) in
  let made :=
    calls (snd (run (always namingUnprintable) 0
                  (processFrame (fun _ => []) 1 0 sampleFrame sampleState)))
  in
  findText (textFiles sampleState) (frameBase sampleFrame) = Some sampleText
  /\ avatarFilename mapping = VNull
  /\ length made = 2
  /\ noImageCall made.
Proof.
  split; [reflexivity|]. split; [reflexivity|]. split; [reflexivity|].
  repeat constructor; discriminate.
Qed.

(** C8, amended: in a frame whose identifier result has a character
    name that has a string, and an [avatarFilename] that is [null], or
    whose string is no key of the avatars, the avatar lookup raises
    nothing, both avatar arguments of the generator call are [null],
    and the call carries the payload without avatar. *)
Theorem missing_avatar_takes_no_avatar_path
  (numberToString : spec_float -> jsstring)
  (service : Service) (n total i : nat)
  (img : SourceImage) (st : State) (tFile : TextFile) (name : jsstring) :
  let visual :=
    fst (run service n (analyzeSceneImage (base64 img) (mimeType img))) in
  let mapping :=
    fst (run service (n + 1)
           (identifyConsistentCharacter (sceneSnippet tFile) visual
              (characterBible st))) in
  findText (textFiles st) (frameBase img) = Some tFile ->
  toString numberToString (characterName mapping) = Some name ->
  avatarFilename mapping = VNull
  \/ (exists key,
        toString numberToString (avatarFilename mapping) = Some key
        /\ getOwn (avatars st) key = None) ->
  (exists avatar,
     resolveAvatar numberToString (avatars st) mapping = Some avatar
     /\ avatarArguments avatar = (None, None))
  /\ exists analysis identification synthesis prompt,
       calls (snd (run service n
                     (processFrame numberToString total i img st)))
       = [analysis; identification; synthesis;
          mkRequest (lit "gemini-2.5-flash-image")
            (Parts [Text (rerenderInstructionHead ++ prompt
                          ++ rerenderInstructionTail);
                    InlineData (base64 img) (mimeType img)])
            (ImageConfig defaultAspectRatio)].
Proof.
  intros visual mapping Hfind Hname Hmissing.
  destruct (unknown_avatar_is_null numberToString (avatars st) mapping
              Hmissing) as [avatar [Havatar Hnull]].
  split; [now exists avatar|].
  destruct (processFrame_calls numberToString service n total i img st
              Hfind) as [rest [Hcalls Hrest]].
  cbv zeta in Hrest. fold visual in Hrest. fold mapping in Hrest.
  rewrite Havatar, (synthPrompt_some _ _ _ _ _ _ _ _ Hname) in Hrest.
  destruct Hrest as [prompt ->]. rewrite Hnull in Hcalls.
  do 4 eexists. exact Hcalls.
Qed.

(** The theorem at one frame, its text asset, no avatar at all and a
    service that cannot be reached. *)
Lemma missing_avatar_witness :
  let img := mkSourceImage (lit "f1.png") (lit "U0NFTkU=") (lit "image/png") in
  let tFile := mkTextFile (lit "f1.txt") (lit "line") in
  let st := setTextFiles [tFile] initialState in
  exists prompt,
    nth_error
      (calls (snd (run unreachable 0
                     (processFrame (fun _ => []) 1 0 img st))))
      3
    = Some (mkRequest (lit "gemini-2.5-flash-image")
              (Parts [Text (rerenderInstructionHead ++ prompt
                            ++ rerenderInstructionTail);
                      InlineData (base64 img) (mimeType img)])
              (ImageConfig defaultAspectRatio)).
Proof.
  intros img tFile st.
  destruct (@missing_avatar_takes_no_avatar_path (fun _ => []) unreachable
              0 1 0 img st tFile (lit "Unknown") eq_refl eq_refl
              (or_introl eq_refl))
    as [_ [r1 [r2 [r3 [prompt E]]]]].
  exists prompt. rewrite E. reflexivity.
Defined.

(* ================================================================== *)
(** ** The localized context and what reaches the synthesizer *)
(* ================================================================== *)

(** C4: the anchor is the first 40 units of the snippet. When it stands
    in the script, [P] being the least position at which it does, the
    context is the script from [P - 1000] to [P + 3000], both cut to
    the bounds of the script; when it does not, the context is the
    empty string. Either way the frame goes on to its calls: the
    analysis and the identification, and after them the synthesis and
    the generation, four calls in all, whenever the identifier's answer
    has the strings the frame needs of it. *)
Theorem localize_returns_clamped_window (script : TextFile)
  (sceneTextSnippet : jsstring) :
  let anchor := firstn 40 sceneTextSnippet in
  let text := content script in
  ((exists P,
      occursAt anchor text P
      /\ (forall j, j < P -> ~ occursAt anchor text j)
      /\ localize (Some script) sceneTextSnippet
         = skipn (P - 1000) (firstn (P + 3000) text)
      /\ exists before after,
           text = before ++ localize (Some script) sceneTextSnippet ++ after
           /\ length before = P - 1000
           /\ length after = length text - (P + 3000))
   \/ ((forall k, ~ occursAt anchor text k)
       /\ localize (Some script) sceneTextSnippet = []))
  /\ (forall numberToString service n total i img st tFile,
        findText (textFiles st) (frameBase img) = Some tFile ->
        fullScript st = Some script ->
        sceneSnippet tFile = sceneTextSnippet ->
        let visual :=
          fst (run service n
                 (analyzeSceneImage (base64 img) (mimeType img))) in
        let mapping :=
          fst (run service (n + 1)
                 (identifyConsistentCharacter sceneTextSnippet visual
                    (characterBible st))) in
        let made :=
          calls (snd (run service n
                        (processFrame numberToString total i img st))) in
        (exists rest,
           made = analysisRequest (base64 img) (mimeType img)
                  :: identifyRequest sceneTextSnippet visual
                       (characterBible st)
                  :: rest)
        /\ (forall name avatar,
              toString numberToString (characterName mapping) = Some name ->
              resolveAvatar numberToString (avatars st) mapping
              = Some avatar ->
              length made = 4)).
Proof.
  intros anchor text. split; [apply localize_cases|].
  intros numberToString service n total i img st tFile Hfind _ Hsnippet
    visual mapping made.
  destruct (processFrame_calls numberToString service n total i img st
              Hfind) as [rest [Hcalls Hrest]].
  cbv zeta in Hcalls, Hrest. rewrite Hsnippet in Hcalls, Hrest.
  fold visual in Hcalls, Hrest. fold mapping in Hrest. fold made in Hcalls.
  split; [now exists rest|].
  intros name avatar Hname Havatar.
  rewrite Havatar, (synthPrompt_some _ _ _ _ _ _ _ _ Hname) in Hrest.
  destruct Hrest as [prompt ->]. now rewrite Hcalls.
Qed.

Lemma longScript_window :
  length (localize (Some longScript) (lit "HERE")) = 4000.
Proof. vm_compute. reflexivity. Qed.

(** C10: the localizer returns at most 4000 units, and can return as
    many; of what it returns the synthesizer's prompt holds the first
    1500 units and no more. That prompt is the one the third call of a
    frame is made with: a frame makes its third call with it whenever
    the identifier's answer has the strings the frame needs of it, and
    makes no other third call. *)
Theorem synthesizer_keeps_1500_of_the_window
  (numberToString : spec_float -> jsstring)
  (script : option TextFile) (sceneTextSnippet : jsstring) :
  let context := localize script sceneTextSnippet in
  let promptOf :=
    fun sceneText name bible style visualAnalysis storyMap =>
      synthPromptPlot
      ++ orElse storyMap (lit "Standard narrative arc.")
      ++ synthPromptAction ++ sceneText
      ++ synthPromptContext ++ firstn 1500 context
      ++ synthPromptIdentity ++ name
      ++ synthPromptTraits ++ substring bible 0 1000
      ++ synthPromptFrame ++ visualAnalysis
      ++ synthPromptStyle ++ style
      ++ synthPromptTask ++ name
      ++ synthPromptLens in
  length context <= 4000
  /\ (exists full snippet, length (localize (Some full) snippet) = 4000)
  /\ (forall sceneText characterName bible style visualAnalysis storyMap,
        synthPrompt numberToString sceneText characterName bible style
          visualAnalysis context storyMap
        = option_map
            (fun name =>
               promptOf sceneText name bible style visualAnalysis storyMap)
            (toString numberToString characterName))
  /\ length (firstn 1500 context) <= 1500
  /\ (forall service n total i img st tFile,
        findText (textFiles st) (frameBase img) = Some tFile ->
        fullScript st = script ->
        sceneSnippet tFile = sceneTextSnippet ->
        exists visual mapping,
          let third :=
            nth_error
              (calls (snd (run service n
                             (processFrame numberToString total i img st))))
              2 in
          let promptFor :=
            fun name =>
              promptOf sceneTextSnippet name (characterBible st)
                (App.style st) visual
                (option_map content (App.storyMap st)) in
          (forall req,
             third = Some req ->
             exists name,
               toString numberToString (Gemini.characterName mapping)
               = Some name
               /\ req = mkRequest (lit "gemini-3-pro-preview")
                          (Prompt (promptFor name)) NoConfig)
          /\ (forall name avatar,
                toString numberToString (Gemini.characterName mapping)
                = Some name ->
                resolveAvatar numberToString (avatars st) mapping
                = Some avatar ->
                third = Some (mkRequest (lit "gemini-3-pro-preview")
                                (Prompt (promptFor name)) NoConfig))).
Proof.
  intros context promptOf.
  assert (Hprompt :
            forall sceneText characterName bible style visualAnalysis
                   storyMap,
              synthPrompt numberToString sceneText characterName bible style
                visualAnalysis context storyMap
              = option_map
                  (fun name =>
                     promptOf sceneText name bible style visualAnalysis
                       storyMap)
                  (toString numberToString characterName)).
  { intros sceneText name bible style visualAnalysis storyMap.
    unfold synthPrompt, synthTemplate, promptOf.
    destruct (toString numberToString name); [|reflexivity].
    cbn [option_map]. now rewrite cap_1500. }
  split; [apply localize_length|].
  split; [exists longScript, (lit "HERE"); apply longScript_window|].
  split; [exact Hprompt|].
  split; [apply firstn_le|].
  intros service n total i img st tFile Hfind Hscript Hsnippet.
  destruct (processFrame_calls numberToString service n total i img st
              Hfind) as [rest [Hcalls Hrest]].
  cbv zeta in Hcalls, Hrest.
  rewrite Hsnippet, Hscript in Hrest. rewrite Hsnippet in Hcalls.
  fold context in Hrest. rewrite Hprompt in Hrest.
  set (visual := fst (run service n (analyzeSceneImage _ _))) in *.
  set (mapping := fst (run service (n + 1)
                         (identifyConsistentCharacter _ _ _))) in *.
  exists visual, mapping. cbv zeta. rewrite Hcalls. cbn [nth_error].
  split.
  - intros req Hreq.
    destruct (resolveAvatar numberToString (avatars st) mapping)
      as [avatar|]; [|rewrite Hrest in Hreq; discriminate].
    destruct (toString numberToString (Gemini.characterName mapping))
      as [name|] eqn:Hname; [|rewrite Hrest in Hreq; discriminate].
    cbn [option_map] in Hrest. destruct Hrest as [prompt ->].
    exists name. split; [reflexivity|].
    cbn [nth_error] in Hreq. now injection Hreq as <-.
  - intros name avatar Hname Havatar.
    rewrite Havatar, Hname in Hrest. cbn [option_map] in Hrest.
    destruct Hrest as [prompt ->]. reflexivity.
Qed.

(* ================================================================== *)
(** ** Further properties: reading the archives *)
(* ================================================================== *)

Section Objects.

Context {V : Type}.

Lemma keys_setOwn_in (o : object V) (k : jsstring) (v : V) (x : jsstring) :
  In x (keys (setOwn o k v)) <-> In x (keys o) \/ x = k.
Proof.
  unfold keys. induction o as [|[k' v'] o IH]; simpl.
  - split; [intros [H|[]]; now right | intros [[]|H]; now left].
  - destruct (eqb k' k) eqn:E; simpl.
    + apply eqb_eq in E. subst k'. split; [tauto|].
      intros [H|H]; [exact H | now left].
    + rewrite IH. tauto.
Qed.

Lemma NoDup_setOwn (o : object V) (k : jsstring) (v : V) :
  NoDup (keys o) -> NoDup (keys (setOwn o k v)).
Proof.
  unfold keys. induction o as [|[k' v'] o IH]; simpl; intros H.
  - constructor; [intros [] | constructor].
  - inversion H as [|? ? Hnot Hrest]; subst.
    destruct (eqb k' k) eqn:E; simpl; [now constructor|].
    constructor; [|now apply IH].
    intros Hin. apply (keys_setOwn_in o k v k') in Hin.
    destruct Hin as [Hin|Hin]; [contradiction|].
    apply eqb_neq in E. congruence.
Qed.

Lemma NoDup_spread (a b : object V) :
  NoDup (keys a) -> NoDup (keys (spread a b)).
Proof.
  unfold spread. revert a.
  induction b as [|[k v] b IH]; intros a H; simpl; [exact H|].
  apply IH. now apply NoDup_setOwn.
Qed.

Lemma Forall_setOwn (Q : jsstring * V -> Prop) (o : object V)
  (k : jsstring) (v : V) :
  Forall Q o -> Q (k, v) -> Forall Q (setOwn o k v).
Proof.
  intros H Hk. induction H as [|[k' v'] o Hkv Ho IH]; simpl.
  - constructor; [exact Hk | constructor].
  - destruct (eqb k' k) eqn:E.
    + apply eqb_eq in E. subst k'. constructor; [exact Hk | exact Ho].
    + constructor; [exact Hkv | exact IH].
Qed.

Lemma Forall_spread (Q : jsstring * V -> Prop) (a b : object V) :
  Forall Q a -> Forall Q b -> Forall Q (spread a b).
Proof.
  unfold spread. intros Ha Hb. revert a Ha.
  induction Hb as [|[k v] b Hkv _ IH]; intros a Ha; simpl; [exact Ha|].
  apply IH. now apply Forall_setOwn.
Qed.

Lemma getOwn_setOwn_same (o : object V) (k : jsstring) (v : V) :
  getOwn (setOwn o k v) k = Some v.
Proof.
  induction o as [|[k' v'] o IH]; simpl.
  - now rewrite eqb_refl.
  - destruct (eqb k' k) eqn:E; simpl; now rewrite E.
Qed.

Lemma getOwn_setOwn_other (o : object V) (k k0 : jsstring) (v : V) :
  k <> k0 -> getOwn (setOwn o k v) k0 = getOwn o k0.
Proof.
  intros Hne. induction o as [|[k' v'] o IH]; simpl.
  - apply eqb_neq in Hne. now rewrite Hne.
  - destruct (eqb k' k) eqn:E; simpl.
    + apply eqb_eq in E. subst k'. apply eqb_neq in Hne. now rewrite Hne.
    + now rewrite IH.
Qed.

Lemma getOwn_none (o : object V) (k : jsstring) :
  getOwn o k = None <-> ~ In k (keys o).
Proof.
  unfold keys. induction o as [|[k' v'] o IH]; simpl; [tauto|].
  destruct (eqb k' k) eqn:E.
  - apply eqb_eq in E. split; [discriminate | intros H; destruct H; now left].
  - apply eqb_neq in E. rewrite IH. tauto.
Qed.

Lemma getOwn_spread (a b : object V) (k : jsstring) :
  NoDup (keys b) ->
  getOwn (spread a b) k
  = match getOwn b k with
    | Some v => Some v
    | None => getOwn a k
    end.
Proof.
  unfold spread. revert a.
  induction b as [|[k' v'] b IH]; intros a H; simpl; [reflexivity|].
  inversion H as [|? ? Hnot Hrest]; subst. rewrite (IH _ Hrest).
  destruct (eqb k' k) eqn:E.
  - apply eqb_eq in E. subst k'.
    apply getOwn_none in Hnot. rewrite Hnot.
    apply getOwn_setOwn_same.
  - apply eqb_neq in E. now rewrite (getOwn_setOwn_other _ _ E).
Qed.

End Objects.

Section Unzipping.

Variable toLowerCase : jsstring -> jsstring.

Lemma Entry_nested_ind (P : Entry -> Prop) :
  P Dir ->
  (forall base64 text, P (File base64 text None)) ->
  (forall base64 text files,
     Forall (fun ne => P (snd ne)) files ->
     P (File base64 text (Some files))) ->
  forall e, P e.
Proof.
  intros HDir HNone HSome. fix IH 1. intros [|base64 text [files|]].
  - exact HDir.
  - apply HSome. induction files as [|[n e] files IHf]; constructor.
    + apply IH.
    + exact IHf.
  - apply HNone.
Qed.

(** The turn of the loop at a file, with the loop over a nested archive
    by its name. *)
Lemma unzipEntry_file (name base64 text : jsstring)
  (nested : option Zip) (extracted : Extracted) :
  unzipEntry toLowerCase name (File base64 text nested) extracted
  = if eqb (extensionOf toLowerCase name) (lit "zip") then
      match nested with
      | None => None
      | Some files =>
          match unzipEntries toLowerCase files noneExtracted with
          | None => None
          | Some subResults =>
              Some (mkExtracted
                      (spread (images extracted) (images subResults))
                      (texts extracted ++ texts subResults))
          end
      end
    else if includesString imageExtensions (extensionOf toLowerCase name)
    then
      Some (mkExtracted
              (setOwn (images extracted) name
                 (mkSourceImage name base64
                    (mimeOf (extensionOf toLowerCase name))))
              (texts extracted))
    else if includesString textExtensions (extensionOf toLowerCase name)
    then
      Some (mkExtracted (images extracted)
              (push (texts extracted) (mkTextFile name text)))
    else Some extracted.
Proof. reflexivity. Qed.

Lemma wellExtracted_none : wellExtracted toLowerCase noneExtracted.
Proof. repeat split; constructor. Qed.

Lemma wellExtracted_merge (a b : Extracted) :
  wellExtracted toLowerCase a -> wellExtracted toLowerCase b ->
  wellExtracted toLowerCase
    (mkExtracted (spread (images a) (images b)) (texts a ++ texts b)).
Proof.
  intros [Ka [Na [Ia Ta]]] [Kb [Nb [Ib Tb]]]. repeat split; simpl.
  - now apply keyed_spread.
  - now apply NoDup_spread.
  - now apply Forall_spread.
  - apply Forall_app. now split.
Qed.

Lemma wellExtracted_leaf (name base64 text : jsstring) (a r : Extracted) :
  wellExtracted toLowerCase a ->
  (if includesString imageExtensions (extensionOf toLowerCase name)
   then
     Some (mkExtracted
             (setOwn (images a) name
                (mkSourceImage name base64
                   (mimeOf (extensionOf toLowerCase name))))
             (texts a))
   else if includesString textExtensions (extensionOf toLowerCase name)
   then
     Some (mkExtracted (images a) (push (texts a) (mkTextFile name text)))
   else Some a) = Some r ->
  wellExtracted toLowerCase r.
Proof.
  intros [Ka [Na [Ia Ta]]].
  destruct (includesString imageExtensions _) eqn:Ei.
  - intros E. injection E as <-. repeat split; simpl.
    + now apply keyed_setOwn.
    + now apply NoDup_setOwn.
    + apply Forall_setOwn; [exact Ia | now split].
    + exact Ta.
  - destruct (includesString textExtensions _) eqn:Et.
    + intros E. injection E as <-. repeat split; simpl; try assumption.
      unfold push. apply Forall_app. split; [exact Ta|].
      constructor; [exact Et | constructor].
    + intros E. injection E as <-. now repeat split.
Qed.

Lemma unzipEntry_well (entry : Entry) :
  forall name a r,
    wellExtracted toLowerCase a ->
    unzipEntry toLowerCase name entry a = Some r ->
    wellExtracted toLowerCase r.
Proof.
  induction entry as [|base64 text|base64 text files IH]
    using Entry_nested_ind; intros name a r Ha E.
  - injection E as <-. exact Ha.
  - rewrite unzipEntry_file in E.
    destruct (eqb (extensionOf toLowerCase name) (lit "zip"));
      [discriminate|].
    now apply wellExtracted_leaf with name base64 text a.
  - rewrite unzipEntry_file in E.
    destruct (eqb (extensionOf toLowerCase name) (lit "zip"));
      [|now apply wellExtracted_leaf with name base64 text a].
    destruct (unzipEntries toLowerCase files noneExtracted) as [sub|] eqn:Es;
      [|discriminate].
    injection E as <-. apply wellExtracted_merge; [exact Ha|].
    assert (G : forall acc out,
               wellExtracted toLowerCase acc ->
               unzipEntries toLowerCase files acc = Some out ->
               wellExtracted toLowerCase out).
    { clear Es. induction IH as [|[n e] files He _ IHf]; intros acc out Hacc;
        simpl.
      - intros E. now injection E as <-.
      - destruct (unzipEntry toLowerCase n e acc) as [acc'|] eqn:E1;
          [|discriminate].
        apply IHf. now apply (He n acc acc'). }
    exact (G _ _ wellExtracted_none Es).
Qed.

Lemma unzipEntries_well (entries : Zip) :
  forall a r,
    wellExtracted toLowerCase a ->
    unzipEntries toLowerCase entries a = Some r ->
    wellExtracted toLowerCase r.
Proof.
  induction entries as [|[n e] entries IH]; intros a r Ha; simpl.
  - intros E. now injection E as <-.
  - destruct (unzipEntry toLowerCase n e a) as [a'|] eqn:E1; [|discriminate].
    apply IH. now apply (unzipEntry_well e n Ha).
Qed.

Lemma recursiveUnzip_well (zipData : option Zip) (r : Extracted) :
  recursiveUnzip toLowerCase zipData = Some r -> wellExtracted toLowerCase r.
Proof.
  destruct zipData as [zip|]; [|discriminate]. simpl.
  apply unzipEntries_well, wellExtracted_none.
Qed.

Lemma includesString_in (among : list jsstring) (ext : jsstring) :
  includesString among ext = true -> In ext among.
Proof.
  unfold includesString. intros H. apply existsb_exists in H.
  destruct H as [x [Hx Ex]]. apply eqb_eq in Ex. now subst.
Qed.

Lemma imageExtension_type (ext : jsstring) :
  includesString imageExtensions ext = true -> In (mimeOf ext) imageTypes.
Proof.
  unfold includesString, imageExtensions. simpl.
  rewrite !orb_true_iff, !eqb_eq.
  intros [->|[->|[->|[->|H]]]]; try discriminate; simpl; tauto.
Qed.

Lemma imageExtension_typed (ext : jsstring) :
  includesString imageExtensions ext = true ->
  typedByExtension ext (mimeOf ext).
Proof.
  unfold includesString, imageExtensions, typedByExtension. simpl.
  rewrite !orb_true_iff, !eqb_eq.
  intros [->|[->|[->|[->|H]]]]; try discriminate;
    [left | right; left | right; right; left | right; right; right];
    split; reflexivity.
Qed.

End Unzipping.

(** X1: whatever [recursiveUnzip] returns, nested archives included,
    holds each image once and under its own file name: the key of an
    image is its [fileName], and no key is there twice. *)
Theorem extracted_images_are_keyed_by_file_name
  (toLowerCase : jsstring -> jsstring) (zipData : option Zip)
  (extracted : Extracted) :
  recursiveUnzip toLowerCase zipData = Some extracted ->
  keyedByFileName (images extracted)
  /\ NoDup (keys (images extracted))
  /\ (forall key img,
        getOwn (images extracted) key = Some img -> fileName img = key).
Proof.
  intros E. destruct (recursiveUnzip_well _ _ E) as [K [N _]].
  split; [exact K|]. split; [exact N|].
  intros key img. unfold keyedByFileName in K. clear N E.
  induction K as [|[k v] o Hkv _ IH]; simpl; [discriminate|].
  destruct (eqb k key) eqn:Ek.
  - apply eqb_eq in Ek. intros H. injection H as <-. now subst.
  - exact IH.
Qed.

(** The theorem at an archive with a directory, a frame and its text. *)
Lemma extracted_images_witness :
  recursiveUnzip asciiLowerCase (Some sampleZip) = Some sampleExtracted
  /\ keyedByFileName (images sampleExtracted)
  /\ NoDup (keys (images sampleExtracted)).
Proof.
  pose proof (extracted_images_are_keyed_by_file_name asciiLowerCase
                (Some sampleZip) (extracted := sampleExtracted) eq_refl)
    as [K [N _]].
  split; [reflexivity|]. split; [exact K | exact N].
Defined.

(** X2: every image [recursiveUnzip] returns has a name whose
    lower-cased extension is [png], [jpg], [jpeg] or [webp], and the
    media type that goes with that extension: [image/png] for [png],
    [image/jpeg] for [jpg] and for [jpeg], [image/webp] for [webp]
    (never [image/jpg], never the empty string); every text it returns
    has the extension [txt] or [md]. *)
Theorem extracted_assets_are_typed_by_extension
  (toLowerCase : jsstring -> jsstring) (zipData : option Zip)
  (extracted : Extracted) :
  recursiveUnzip toLowerCase zipData = Some extracted ->
  Forall (fun kv =>
            In (extensionOf toLowerCase (fst kv)) imageExtensions
            /\ typedByExtension (extensionOf toLowerCase (fst kv))
                 (mimeType (snd kv))
            /\ In (mimeType (snd kv)) imageTypes
            /\ mimeType (snd kv) <> [])
    (images extracted)
  /\ Forall (fun t => In (extensionOf toLowerCase (name t)) textExtensions)
       (texts extracted).
Proof.
  intros E. destruct (recursiveUnzip_well _ _ E) as [_ [_ [I T]]].
  split.
  - eapply Forall_impl; [|exact I]. intros [k img] [Hext Hmime].
    cbn [fst snd] in *.
    assert (Hin : In (mimeType img) imageTypes)
      by (rewrite Hmime; now apply imageExtension_type).
    split; [now apply includesString_in|].
    split; [rewrite Hmime; now apply imageExtension_typed|].
    split; [exact Hin|].
    intros Hnil. rewrite Hnil in Hin. simpl in Hin.
    destruct Hin as [H|[H|[H|[]]]]; discriminate.
  - eapply Forall_impl; [|exact T]. intros t Hext.
    now apply includesString_in.
Qed.

(** The theorem at the same archive: the frame [F1.PNG] is typed
    [image/png]. *)
Lemma extracted_assets_witness :
  Forall (fun kv => In (mimeType (snd kv)) imageTypes)
    (images sampleExtracted).
Proof.
  destruct (extracted_assets_are_typed_by_extension asciiLowerCase
              (Some sampleZip) (extracted := sampleExtracted) eq_refl)
    as [I _].
  eapply Forall_impl; [|exact I]. intros kv H.
  exact (proj1 (proj2 (proj2 H))).
Defined.

Section NothingDropped.

Variable toLowerCase : jsstring -> jsstring.

Lemma keys_spread_left {V} (a b : object V) (x : jsstring) :
  In x (keys a) -> In x (keys (spread a b)).
Proof.
  unfold spread. revert a.
  induction b as [|[k v] b IH]; intros a H; simpl; [exact H|].
  apply IH. apply keys_setOwn_in. now left.
Qed.

Lemma keys_spread_right {V} (a b : object V) (x : jsstring) :
  In x (keys b) -> In x (keys (spread a b)).
Proof.
  unfold spread. revert a.
  induction b as [|[k v] b IH]; intros a H; simpl in *; [contradiction|].
  destruct H as [<-|H]; [|now apply IH].
  apply (keys_spread_left (setOwn a k v) b). apply keys_setOwn_in.
  now right.
Qed.

Lemma unzipEntry_keeps (name : jsstring) (entry : Entry) (a r : Extracted) :
  unzipEntry toLowerCase name entry a = Some r ->
  (forall x, In x (keys (images a)) -> In x (keys (images r)))
  /\ (forall t, In t (texts a) -> In t (texts r)).
Proof.
  destruct entry as [|base64 text nested].
  - intros E. injection E as <-. now split.
  - rewrite unzipEntry_file.
    destruct (eqb (extensionOf toLowerCase name) (lit "zip")).
    + destruct nested as [files|]; [|discriminate].
      destruct (unzipEntries toLowerCase files noneExtracted) as [sub|];
        [|discriminate].
      intros E. injection E as <-. simpl. split.
      * intros x. apply keys_spread_left.
      * intros t H. apply in_or_app. now left.
    + destruct (includesString imageExtensions _).
      * intros E. injection E as <-. simpl. split; [|tauto].
        intros x H. apply keys_setOwn_in. now left.
      * destruct (includesString textExtensions _);
          intros E; injection E as <-; simpl; split; try tauto.
        intros t H. unfold push. apply in_or_app. now left.
Qed.

Lemma unzipEntries_keeps (entries : Zip) :
  forall a r,
    unzipEntries toLowerCase entries a = Some r ->
    (forall x, In x (keys (images a)) -> In x (keys (images r)))
    /\ (forall t, In t (texts a) -> In t (texts r)).
Proof.
  induction entries as [|[n e] entries IH]; intros a r; simpl.
  - intros E. injection E as <-. now split.
  - destruct (unzipEntry toLowerCase n e a) as [a'|] eqn:E1; [|discriminate].
    intros E. destruct (unzipEntry_keeps _ _ _ E1) as [K1 T1].
    destruct (IH _ _ E) as [K2 T2]. split; auto.
Qed.

Lemma image_not_zip (ext : jsstring) :
  In ext imageExtensions -> eqb ext (lit "zip") = false.
Proof.
  simpl. intros [<-|[<-|[<-|[<-|[]]]]]; reflexivity.
Qed.

Lemma text_not_zip_nor_image (ext : jsstring) :
  In ext textExtensions ->
  eqb ext (lit "zip") = false /\ includesString imageExtensions ext = false.
Proof.
  simpl. intros [<-|[<-|[]]]; split; reflexivity.
Qed.

Lemma in_includesString (among : list jsstring) (ext : jsstring) :
  In ext among -> includesString among ext = true.
Proof.
  intros H. unfold includesString. apply existsb_exists.
  exists ext. split; [exact H | apply eqb_refl].
Qed.

(** What a file entry of a readable archive leaves in the result. *)
Lemma unzipEntries_has (entries : Zip) :
  forall a r name base64 text nested,
    unzipEntries toLowerCase entries a = Some r ->
    In (name, File base64 text nested) entries ->
    (In (extensionOf toLowerCase name) imageExtensions ->
     In name (keys (images r)))
    /\ (In (extensionOf toLowerCase name) textExtensions ->
        In (mkTextFile name text) (texts r))
    /\ (forall files sub,
          extensionOf toLowerCase name = lit "zip" ->
          nested = Some files ->
          recursiveUnzip toLowerCase (Some files) = Some sub ->
          (forall x, In x (keys (images sub)) -> In x (keys (images r)))
          /\ (forall t, In t (texts sub) -> In t (texts r))).
Proof.
  induction entries as [|[n e] entries IH];
    intros a r name base64 text nested; simpl; [contradiction|].
  destruct (unzipEntry toLowerCase n e a) as [a'|] eqn:E1; [|discriminate].
  intros E [Hhere|Hlater]; [|now apply (IH a' r name base64 text nested)].
  injection Hhere as -> ->.
  destruct (unzipEntries_keeps _ _ E) as [K T].
  rewrite unzipEntry_file in E1. split; [|split].
  - intros Hext. apply K.
    rewrite (@image_not_zip (extensionOf toLowerCase name) Hext),
      (@in_includesString imageExtensions (extensionOf toLowerCase name)
         Hext) in E1.
    injection E1 as <-. simpl. apply keys_setOwn_in. now right.
  - intros Hext. apply T.
    destruct (@text_not_zip_nor_image (extensionOf toLowerCase name) Hext)
      as [Hz Hi].
    rewrite Hz, Hi,
      (@in_includesString textExtensions (extensionOf toLowerCase name)
         Hext) in E1.
    injection E1 as <-. simpl. unfold push. apply in_or_app.
    right. now left.
  - intros files sub Hext -> Hsub. rewrite Hext in E1. simpl in Hsub.
    change (eqb (lit "zip") (lit "zip")) with true in E1. cbv iota in E1.
    rewrite Hsub in E1. injection E1 as <-. simpl. split.
    + intros x Hx. apply K. now apply keys_spread_right.
    + intros t Ht. apply T. apply in_or_app. now right.
Qed.

End NothingDropped.

(** X3: [recursiveUnzip] drops nothing it can read. Of a readable
    archive every file with an image extension is a key of the images
    returned, every file with a text extension is among the texts with
    its content, and everything extracted from a nested [.zip] file is
    in the result as well. *)
Theorem readable_entries_are_all_extracted
  (toLowerCase : jsstring -> jsstring) (zip : Zip) (extracted : Extracted)
  (name base64 text : jsstring) (nested : option Zip) :
  recursiveUnzip toLowerCase (Some zip) = Some extracted ->
  In (name, File base64 text nested) zip ->
  (In (extensionOf toLowerCase name) imageExtensions ->
   In name (keys (images extracted)))
  /\ (In (extensionOf toLowerCase name) textExtensions ->
      In (mkTextFile name text) (texts extracted))
  /\ (forall files sub,
        extensionOf toLowerCase name = lit "zip" ->
        nested = Some files ->
        recursiveUnzip toLowerCase (Some files) = Some sub ->
        (forall x, In x (keys (images sub)) ->
                   In x (keys (images extracted)))
        /\ (forall t, In t (texts sub) -> In t (texts extracted))).
Proof.
  intros E Hin.
  exact (unzipEntries_has toLowerCase zip noneExtracted name base64 text
           nested E Hin).
Qed.

(** The theorem at the frame of the sample archive, whose extension is
    in upper case. *)
Lemma readable_entries_witness :
  In (lit "shots/F1.PNG") (keys (images sampleExtracted)).
Proof.
  refine (proj1 (@readable_entries_are_all_extracted asciiLowerCase
                   sampleZip sampleExtracted (lit "shots/F1.PNG")
                   (lit "U0NFTkU=") (lit "?") None eq_refl _) _).
  - right. now left.
  - now left.
Defined.

(* ================================================================== *)
(** ** Further properties: the upload *)
(* ================================================================== *)

Section Upload.

Variable toLowerCase : jsstring -> jsstring.

Lemma wellExtracted_stored (e : Extracted) :
  wellExtracted toLowerCase e -> wellStored (images e).
Proof.
  intros [K [N [I _]]]. split; [exact K|]. split; [exact N|].
  eapply Forall_impl; [|exact I]. intros kv [Hext Hmime].
  rewrite Hmime. now apply imageExtension_type.
Qed.

Lemma wellStored_spread (a b : object SourceImage) :
  wellStored a -> wellStored b -> wellStored (spread a b).
Proof.
  intros [Ka [Na Ia]] [Kb [Nb Ib]]. split; [now apply keyed_spread|].
  split; [now apply NoDup_spread | now apply Forall_spread].
Qed.

Lemma wellStored_nil : wellStored [].
Proof. repeat split; constructor. Qed.

Lemma readAll_well (files : list (jsstring * option Zip)) :
  forall read,
    readAll toLowerCase files = Some read ->
    Forall (fun f => wellExtracted toLowerCase (snd f)) read
    /\ List.map fst read = List.map fst files.
Proof.
  induction files as [|[name data] files IH]; intros read; simpl.
  - intros E. injection E as <-. split; [constructor | reflexivity].
  - destruct (recursiveUnzip toLowerCase data) as [e|] eqn:Ee;
      [|discriminate].
    destruct (readAll toLowerCase files) as [others|]; [|discriminate].
    intros E. injection E as <-. destruct (IH others eq_refl) as [W M].
    simpl. split; [|now rewrite M].
    constructor; [|exact W]. now apply recursiveUnzip_well with data.
Qed.

Lemma readAll_none (files : list (jsstring * option Zip)) :
  Exists (fun f => recursiveUnzip toLowerCase (snd f) = None) files ->
  readAll toLowerCase files = None.
Proof.
  induction 1 as [[name data] files H | [name data] files _ IH]; simpl.
  - simpl in H. now rewrite H.
  - destruct (recursiveUnzip toLowerCase data); [|reflexivity].
    now rewrite IH.
Qed.

(** One turn of the loop, by where the archive goes. *)
Lemma partitionStep_cases
  (ta tp : object SourceImage) (tt : list TextFile)
  (file : jsstring * Extracted) :
  partitionStep toLowerCase (ta, tp, tt) file
  = if toAvatars toLowerCase file
    then (spread ta (images (snd file)), tp, tt)
    else if toProcessed toLowerCase file
    then (ta, spread tp (images (snd file)), tt ++ texts (snd file))
    else (ta, tp, tt).
Proof.
  unfold partitionStep, toAvatars, toProcessed.
  now destruct (includes (toLowerCase (fst file)) (lit "avatars")).
Qed.

Lemma fold_partition_stored (read : list (jsstring * Extracted)) :
  Forall (fun f => wellExtracted toLowerCase (snd f)) read ->
  forall ta tp tt,
    wellStored ta -> wellStored tp ->
    wellStored (fst (fst (fold_left (partitionStep toLowerCase) read
                            (ta, tp, tt))))
    /\ wellStored (snd (fst (fold_left (partitionStep toLowerCase) read
                               (ta, tp, tt)))).
Proof.
  induction 1 as [|file read Hfile _ IH]; intros ta tp tt Ha Hp;
    [now split|].
  cbn [fold_left]. rewrite partitionStep_cases.
  apply wellExtracted_stored in Hfile.
  destruct (toAvatars toLowerCase file).
  - apply IH; [now apply wellStored_spread | exact Hp].
  - destruct (toProcessed toLowerCase file).
    + apply IH; [exact Ha | now apply wellStored_spread].
    + now apply IH.
Qed.

Lemma fold_partition_texts (read : list (jsstring * Extracted)) :
  forall ta tp tt,
    snd (fold_left (partitionStep toLowerCase) read (ta, tp, tt))
    = tt ++ flat_map (fun f => texts (snd f))
              (filter (toProcessed toLowerCase) read).
Proof.
  induction read as [|file read IH]; intros ta tp tt;
    [simpl; now rewrite app_nil_r|].
  cbn [fold_left]. rewrite partitionStep_cases.
  unfold toProcessed at 2. unfold toAvatars, toProcessed at 1.
  cbn [filter].
  destruct (includes (toLowerCase (fst file)) (lit "avatars")); simpl.
  - apply IH.
  - destruct (includes (toLowerCase (fst file)) (lit "processed")); simpl.
    + rewrite IH. now rewrite app_assoc.
    + apply IH.
Qed.

(** What the handler does once its reads have succeeded. *)
Lemma finishUpload_loaded (read : list (jsstring * Extracted)) (st : State)
  (service : Service) (n : nat) :
  let ta := stagedAvatars toLowerCase read in
  let tp := stagedProcessed toLowerCase read in
  let tt := stagedTexts toLowerCase read in
  let result := run service n (finishUpload toLowerCase (inl read) st) in
  snd result
  = [Did (Download (hs4000Content tp tt) (lit "hs4000.txt") false);
     Did (Log (lit "DOWNLOADED: hs4000.txt"));
     Did (Log (lit "LOADED: " ++ decimal (length (keys tp))
               ++ lit " FRAMES, " ++ decimal (length (keys ta))
               ++ lit " AVATARS."))]
  /\ stage (fst result) = stage st
  /\ isUploading (fst result) = false
  /\ error (fst result) = error st
  /\ avatars (fst result) = ta
  /\ processedImages (fst result) = tp
  /\ textFiles (fst result) = tt
  /\ fullScript (fst result)
     = Some (mkTextFile (lit "hs4000.txt") (hs4000Content tp tt))
  /\ characterBible (fst result) = characterBible st
  /\ results (fst result) = results st.
Proof.
  intros ta tp tt result. subst ta tp tt result.
  unfold stagedAvatars, stagedProcessed, stagedTexts, staged, finishUpload.
  destruct (fold_left (partitionStep toLowerCase) read ([], [], []))
    as [[ta tp] tt].
  cbn [fst snd run].
  destruct (find _ tt); destruct (find _ tt); repeat split; reflexivity.
Qed.

(** The state and the trace of the handler when its reads succeeded. *)
Lemma handleUpload_loaded (read : list (jsstring * Extracted)) (st : State)
  (service : Service) (n : nat) :
  let ta := stagedAvatars toLowerCase read in
  let tp := stagedProcessed toLowerCase read in
  let tt := stagedTexts toLowerCase read in
  let result := run service n (handleUpload toLowerCase (inl read) st) in
  snd result
  = [Did (Log (lit "DECODING ARCHIVES..."));
     Did (Download (hs4000Content tp tt) (lit "hs4000.txt") false);
     Did (Log (lit "DOWNLOADED: hs4000.txt"));
     Did (Log (lit "LOADED: " ++ decimal (length (keys tp))
               ++ lit " FRAMES, " ++ decimal (length (keys ta))
               ++ lit " AVATARS."))]
  /\ stage (fst result) = ANALYZING
  /\ isUploading (fst result) = false
  /\ error (fst result) = None
  /\ avatars (fst result) = ta
  /\ processedImages (fst result) = tp
  /\ textFiles (fst result) = tt
  /\ fullScript (fst result)
     = Some (mkTextFile (lit "hs4000.txt") (hs4000Content tp tt))
  /\ characterBible (fst result) = characterBible st
  /\ results (fst result) = results st.
Proof.
  intros ta tp tt result. subst ta tp tt result.
  unfold stagedAvatars, stagedProcessed, stagedTexts, staged, handleUpload,
    finishUpload.
  destruct (fold_left (partitionStep toLowerCase) read ([], [], []))
    as [[ta tp] tt].
  cbn [fst snd run].
  destruct (find _ tt); destruct (find _ tt); repeat split; reflexivity.
Qed.

End Upload.

Section Console.

Variable toLowerCase : jsstring -> jsstring.
Variable localeCompare : jsstring -> jsstring -> Z.
Variable numberToString : spec_float -> jsstring.

(** With no script stored the turn of the effect in the midst of an
    upload does nothing: the console goes through the statements of the
    handler. *)
Lemma uploading_fresh (files : list (jsstring * Extracted) + jsstring)
  (st : State) :
  fullScript st = None ->
  uploading toLowerCase localeCompare numberToString files st
  = Some (handleUpload toLowerCase files st).
Proof.
  intros H. unfold uploading, storedScriptRuns. rewrite H.
  destruct (effectRunsMidUpload files st); [|reflexivity].
  unfold automation. cbn [beginUpload stage fullScript setStage].
  cbn [setError setIsUploading fullScript]. now rewrite H.
Qed.

(** With a blank script stored, that turn halts the analysis before the
    handler has read anything. *)
Lemma uploading_halts (files : list (jsstring * Extracted) + jsstring)
  (st : State) (script : TextFile) :
  fullScript st = Some script ->
  forallb isWhiteSpace (content script) = true ->
  effectRunsMidUpload files st = true ->
  uploading toLowerCase localeCompare numberToString files st
  = Some (Log (lit "DECODING ARCHIVES...") ;;;
          finishUpload toLowerCase files (halted (beginUpload st))).
Proof.
  intros Hscript Hblank Hruns. unfold uploading, storedScriptRuns.
  rewrite Hruns, Hscript. apply trim_nil in Hblank. rewrite Hblank.
  cbn [eqb negb]. unfold automation.
  cbn [beginUpload stage fullScript setStage].
  cbn [setError setIsUploading fullScript]. rewrite Hscript.
  rewrite runAnalysis_blank; [reflexivity|].
  intros script' E. cbn in E. rewrite Hscript in E. injection E as <-.
  now apply trim_nil.
Qed.

End Console.

(** X4: an upload into a console that has no script stored, and whose
    archives can all be read, issues no generative call and leaves the
    console analysing, with no error: the avatars and the frames are
    each stored once, under their file names and with an image media
    type; the script stored is the one assembled from the frames and
    texts stored; and the production run will take the frames in the
    order in which [localeCompare] sorts the stored names. *)
Theorem upload_stores_well_formed_assets
  (toLowerCase : jsstring -> jsstring)
  (localeCompare : jsstring -> jsstring -> Z)
  (numberToString : spec_float -> jsstring)
  (files : list (jsstring * option Zip)) (err : jsstring) (st : State)
  (service : Service) (n : nat) (read : list (jsstring * Extracted)) :
  readAll toLowerCase files = Some read ->
  fullScript st = None ->
  exists console,
    uploadingArchives toLowerCase localeCompare numberToString files err st
    = Some console
    /\ let final := fst (run service n console) in
       noCall console
       /\ stage final = ANALYZING
       /\ isUploading final = false
       /\ error final = None
       /\ wellStored (avatars final)
       /\ wellStored (processedImages final)
       /\ fullScript final
          = Some (mkTextFile (lit "hs4000.txt")
                    (hs4000Content (processedImages final)
                       (textFiles final)))
       /\ List.map fileName
            (allImages localeCompare (processedImages final))
          = sort localeCompare (keys (processedImages final)).
Proof.
  intros Hread Hfresh. unfold uploadingArchives. rewrite Hread.
  rewrite (uploading_fresh toLowerCase localeCompare numberToString
             (inl read) st Hfresh).
  eexists. split; [reflexivity|]. cbv zeta.
  destruct (readAll_well toLowerCase files Hread) as [Hwell _].
  destruct (fold_partition_stored Hwell [] wellStored_nil wellStored_nil)
    as [Ha Hp].
  split.
  - intros service' n'.
    destruct (handleUpload_loaded toLowerCase read st service' n')
      as [Htrace _].
    now rewrite Htrace.
  - destruct (handleUpload_loaded toLowerCase read st service n)
      as [_ [Hs [Hu [He [Hav [Hpr [Htx [Hfs _]]]]]]]].
    rewrite Hs, Hu, He, Hav, Hpr, Htx, Hfs.
    repeat split; try assumption; try apply Ha; try apply Hp.
    apply allImages_names. apply Hp.
Qed.

(** The theorem at an upload of avatars and of one frame. *)
Lemma upload_stores_witness :
  exists console,
    uploadingArchives asciiLowerCase asciiLocaleCompare (fun _ => [])
      sampleFiles (lit "?") initialState
    = Some console
    /\ stage (fst (run unreachable 0 console)) = ANALYZING
    /\ wellStored (processedImages (fst (run unreachable 0 console)))
    /\ keys (avatars (fst (run unreachable 0 console))) = [lit "boss.jpg"].
Proof.
  destruct (@upload_stores_well_formed_assets asciiLowerCase
              asciiLocaleCompare (fun _ => []) sampleFiles (lit "?")
              initialState unreachable 0 _ eq_refl eq_refl)
    as [console [E [_ [Hs [_ [_ [_ [Hp _]]]]]]]].
  exists console. split; [exact E|]. split; [exact Hs|].
  split; [exact Hp|].
  injection E as <-. reflexivity.
Defined.

(** X5: when one of the chosen archives cannot be read, at any depth,
    and the console has no script stored that an analysis would run
    on, the upload stops with the error [ARCHIVE READ ERROR.], back at
    [IDLE] and no longer uploading; nothing is downloaded, no call is
    issued, and the assets, the script, the bible and the results are
    what they were before. *)
Theorem unreadable_archive_aborts_the_upload
  (toLowerCase : jsstring -> jsstring)
  (localeCompare : jsstring -> jsstring -> Z)
  (numberToString : spec_float -> jsstring)
  (files : list (jsstring * option Zip)) (err : jsstring) (st : State)
  (service : Service) (n : nat) :
  Exists (fun f => recursiveUnzip toLowerCase (snd f) = None) files ->
  storedScriptRuns st = false ->
  exists console,
    uploadingArchives toLowerCase localeCompare numberToString files err st
    = Some console
    /\ let result := run service n console in
       snd result
       = [Did (Log (lit "DECODING ARCHIVES..."));
          Did (Log (lit "CRITICAL: " ++ err))]
       /\ fst result = readFailed st
       /\ stage (fst result) = IDLE
       /\ error (fst result) = Some (lit "ARCHIVE READ ERROR.")
       /\ isUploading (fst result) = false
       /\ avatars (fst result) = avatars st
       /\ processedImages (fst result) = processedImages st
       /\ textFiles (fst result) = textFiles st
       /\ fullScript (fst result) = fullScript st
       /\ characterBible (fst result) = characterBible st
       /\ results (fst result) = results st.
Proof.
  intros Hbad Hstored. unfold uploadingArchives.
  rewrite (readAll_none toLowerCase Hbad).
  destruct (fullScript st) as [script|] eqn:Hscript.
  - assert (Hblank : forallb isWhiteSpace (content script) = true).
    { unfold storedScriptRuns in Hstored. rewrite Hscript in Hstored.
      apply trim_nil. apply eqb_eq.
      now destruct (eqb (trim (content script)) []). }
    destruct (effectRunsMidUpload (inr err) st) eqn:Hruns.
    + rewrite (uploading_halts toLowerCase localeCompare numberToString
                 (inr err) st Hscript Hblank Hruns).
      eexists. split; [reflexivity|]. cbn. rewrite Hscript.
      repeat split.
    + unfold uploading. rewrite Hruns.
      eexists. split; [reflexivity|]. cbn. rewrite Hscript.
      repeat split.
  - rewrite (uploading_fresh toLowerCase localeCompare numberToString
               (inr err) st Hscript).
    eexists. split; [reflexivity|]. cbn. rewrite Hscript. repeat split.
Qed.

(** The theorem at an upload whose second archive holds a [.zip] file
    that is no archive. *)
Lemma unreadable_archive_witness :
  exists console,
    uploadingArchives asciiLowerCase asciiLocaleCompare (fun _ => [])
      brokenFiles (lit "?") initialState
    = Some console
    /\ fst (run unreachable 0 console) = readFailed initialState.
Proof.
  assert (Hbad : Exists
                   (fun f => recursiveUnzip asciiLowerCase (snd f) = None)
                   brokenFiles)
    by (right; left; reflexivity).
  destruct (@unreadable_archive_aborts_the_upload asciiLowerCase
              asciiLocaleCompare (fun _ => []) brokenFiles (lit "?")
              initialState unreachable 0 Hbad eq_refl)
    as [console [E [_ [Hfinal _]]]].
  exists console. split; [exact E | exact Hfinal].
Defined.

Section Staging.

Variable toLowerCase : jsstring -> jsstring.

Lemma keys_spread {V} (a b : object V) (x : jsstring) :
  In x (keys (spread a b)) <-> In x (keys a) \/ In x (keys b).
Proof.
  split.
  - unfold spread. revert a.
    induction b as [|[k v] b IH]; intros a H; simpl in *; [now left|].
    apply IH in H. destruct H as [H|H]; [|now right; right].
    apply keys_setOwn_in in H. destruct H as [H | ->]; [now left|].
    right. now left.
  - intros [H|H]; [now apply keys_spread_left | now apply keys_spread_right].
Qed.

Lemma getOwn_spread_other {V} (a b : object V) (k : jsstring) :
  ~ In k (keys b) -> getOwn (spread a b) k = getOwn a k.
Proof.
  unfold spread. revert a.
  induction b as [|[k' v'] b IH]; intros a H; simpl in *; [reflexivity|].
  rewrite IH by tauto. apply getOwn_setOwn_other. tauto.
Qed.

Lemma fold_partition_processed_keys (read : list (jsstring * Extracted))
  (k : jsstring) :
  forall ta tp tt,
    In k (keys (snd (fst (fold_left (partitionStep toLowerCase) read
                            (ta, tp, tt)))))
    <-> In k (keys tp)
        \/ exists f, In f read /\ toProcessed toLowerCase f = true
                     /\ In k (keys (images (snd f))).
Proof.
  induction read as [|file read IH]; intros ta tp tt.
  - simpl. split; [now left | intros [H|[f [[] _]]]; exact H].
  - cbn [fold_left]. rewrite partitionStep_cases.
    destruct (toAvatars toLowerCase file) eqn:Ea;
      [|destruct (toProcessed toLowerCase file) eqn:Ep]; cbv iota.
    + rewrite IH. split.
      * intros [H|[f [Hf H]]]; [now left|]. right. exists f.
        split; [now right | exact H].
      * intros [H|[f [[<-|Hf] [Hp Hk]]]]; [now left | |].
        -- unfold toProcessed, toAvatars in *. rewrite Ea in Hp.
           discriminate.
        -- right. now exists f.
    + rewrite IH, keys_spread. split.
      * intros [[H|H]|[f [Hf H]]]; [now left | |].
        -- right. exists file. split; [now left | now split].
        -- right. exists f. split; [now right | exact H].
      * intros [H|[f [[<-|Hf] [Hp Hk]]]]; [tauto | tauto |].
        right. now exists f.
    + rewrite IH. split.
      * intros [H|[f [Hf H]]]; [now left|]. right. exists f.
        split; [now right | exact H].
      * intros [H|[f [[<-|Hf] [Hp Hk]]]]; [now left | congruence |].
        right. now exists f.
Qed.

Lemma fold_partition_keeps (read : list (jsstring * Extracted))
  (k : jsstring) :
  Forall (fun f => toProcessed toLowerCase f = true ->
                   ~ In k (keys (images (snd f)))) read ->
  forall ta tp tt,
    getOwn (snd (fst (fold_left (partitionStep toLowerCase) read
                        (ta, tp, tt)))) k
    = getOwn tp k.
Proof.
  induction 1 as [|file read Hfile _ IH]; intros ta tp tt; [reflexivity|].
  cbn [fold_left]. rewrite partitionStep_cases.
  destruct (toAvatars toLowerCase file); [apply IH|].
  destruct (toProcessed toLowerCase file); [|apply IH].
  rewrite IH. apply getOwn_spread_other. now apply Hfile.
Qed.

Lemma fold_left_staged (before after : list (jsstring * Extracted)) :
  fold_left (partitionStep toLowerCase) (before ++ after) ([], [], [])
  = fold_left (partitionStep toLowerCase) after (staged toLowerCase before).
Proof. unfold staged. apply fold_left_app. Qed.

End Staging.

(** X6: after an upload the texts kept are those of the archives whose
    lower-cased name contains [processed] and not [avatars], in the
    order of the archives; the texts of an avatar archive are not kept.
    The frames kept are the images of the same archives. *)
Theorem upload_keeps_texts_of_frame_archives_only
  (toLowerCase : jsstring -> jsstring)
  (files : list (jsstring * option Zip)) (err : jsstring) (st : State)
  (service : Service) (n : nat) (read : list (jsstring * Extracted)) :
  readAll toLowerCase files = Some read ->
  let final := fst (run service n (upload toLowerCase files err st)) in
  textFiles final
  = flat_map (fun f => texts (snd f)) (filter (toProcessed toLowerCase) read)
  /\ (forall k,
        In k (keys (processedImages final))
        <-> exists f, In f read /\ toProcessed toLowerCase f = true
                      /\ In k (keys (images (snd f)))).
Proof.
  intros Hread final. subst final. unfold upload. rewrite Hread.
  destruct (handleUpload_loaded toLowerCase read st service n)
    as [_ [_ [_ [_ [_ [Hpr [Htx _]]]]]]].
  rewrite Hpr, Htx. split.
  - unfold stagedTexts, staged. now rewrite fold_partition_texts.
  - intros k. unfold stagedProcessed, staged.
    rewrite fold_partition_processed_keys. simpl. tauto.
Qed.

(** The theorem at the sample upload: the note of the avatar archive is
    not kept. *)
Lemma upload_keeps_texts_witness :
  textFiles
    (fst (run unreachable 0
            (upload asciiLowerCase sampleFiles (lit "?") initialState)))
  = [mkTextFile (lit "shots/F1.txt") (lit "line")].
Proof.
  exact (proj1 (upload_keeps_texts_of_frame_archives_only asciiLowerCase
                  sampleFiles (lit "?") initialState unreachable 0
                  eq_refl)).
Defined.

(** X7: when several frame archives of an upload hold an image of the
    same name, the frame kept under that name is the one of the last
    such archive. *)
Theorem last_frame_archive_wins_a_name_clash
  (toLowerCase : jsstring -> jsstring)
  (files : list (jsstring * option Zip)) (err : jsstring) (st : State)
  (service : Service) (n : nat)
  (before after : list (jsstring * Extracted))
  (file : jsstring * Extracted) (key : jsstring) (img : SourceImage) :
  readAll toLowerCase files = Some (before ++ file :: after) ->
  toProcessed toLowerCase file = true ->
  getOwn (images (snd file)) key = Some img ->
  Forall (fun f => toProcessed toLowerCase f = true ->
                   ~ In key (keys (images (snd f)))) after ->
  getOwn (processedImages
            (fst (run service n (upload toLowerCase files err st)))) key
  = Some img.
Proof.
  intros Hread Hproc Hget Hafter. unfold upload. rewrite Hread.
  destruct (handleUpload_loaded toLowerCase (before ++ file :: after) st
              service n) as [_ [_ [_ [_ [_ [Hpr _]]]]]].
  rewrite Hpr. unfold stagedProcessed, staged.
  rewrite fold_left_staged. cbn [fold_left].
  destruct (staged toLowerCase before) as [[ta tp] tt].
  rewrite partitionStep_cases.
  assert (Ha : toAvatars toLowerCase file = false).
  { unfold toProcessed, toAvatars in *.
    destruct (includes (toLowerCase (fst file)) (lit "avatars"));
      [discriminate | reflexivity]. }
  rewrite Ha, Hproc. cbv iota.
  rewrite (@fold_partition_keeps toLowerCase after key Hafter).
  destruct (readAll_well toLowerCase files Hread) as [Hwell _].
  apply Forall_app in Hwell. destruct Hwell as [_ Hwell].
  inversion Hwell as [|? ? Hfile _]; subst.
  destruct Hfile as [_ [Hnodup _]].
  now rewrite (@getOwn_spread _ tp (images (snd file)) key Hnodup), Hget.
Qed.

(** The theorem at two frame archives that both hold [f.png]. *)
Lemma last_frame_archive_witness :
  getOwn (processedImages
            (fst (run unreachable 0
                    (upload asciiLowerCase clashFiles (lit "?")
                       initialState))))
    (lit "f.png")
  = Some (mkSourceImage (lit "f.png") (lit "VFdP") (lit "image/png")).
Proof.
  refine (@last_frame_archive_wins_a_name_clash asciiLowerCase clashFiles
            (lit "?") initialState unreachable 0
            [(lit "processed_a.zip", clashFirst)]
            [] (lit "processed_b.zip", clashSecond) (lit "f.png")
            (mkSourceImage (lit "f.png") (lit "VFdP") (lit "image/png"))
            eq_refl eq_refl eq_refl _).
  constructor.
Defined.

(* ================================================================== *)
(** ** Further properties: what the service functions return *)
(* ================================================================== *)

Section ServiceResults.

Lemma orElse_nonempty (v : option jsstring) (d : jsstring) :
  d <> [] -> orElse v d <> [].
Proof.
  intros Hd. unfold orElse. destruct v as [[|c s]|]; simpl;
    [exact Hd | discriminate | exact Hd].
Qed.

Lemma run_bible (service : Service) (n : nat) (filenames : list jsstring)
  (fullScript : jsstring) :
  run service n (createCharacterBible filenames fullScript)
  = match service n (bibleRequest filenames fullScript) with
    | Resolves response =>
        (orElse (text response) (lit "Character Bible generation failed."),
         [Called (bibleRequest filenames fullScript)])
    | Rejects =>
        (lit "Error creating Character Bible.",
         [Called (bibleRequest filenames fullScript);
          Did (ConsoleError (lit "Error creating Bible:"))])
    end.
Proof.
  unfold createCharacterBible. simpl. now destruct (service n _).
Qed.

Lemma run_analysis (service : Service) (n : nat) (base64 mimeType : jsstring) :
  run service n (analyzeSceneImage base64 mimeType)
  = (match service n (analysisRequest base64 mimeType) with
     | Resolves response =>
         orElse (text response) (lit "Visual analysis unavailable.")
     | Rejects => lit "Image analysis failed."
     end,
     [Called (analysisRequest base64 mimeType)]).
Proof.
  unfold analyzeSceneImage. simpl. now destruct (service n _).
Qed.

Lemma run_revision (service : Service) (n : nat) (prompt : jsstring)
  (avatarBase64 avatarMime : option jsstring)
  (sceneBase64 sceneMime aspectRatio : jsstring) :
  fst (run service n
         (generateRevisedImage prompt avatarBase64 avatarMime sceneBase64
            sceneMime aspectRatio))
  = match service n (revisionRequest prompt avatarBase64 avatarMime
                       sceneBase64 sceneMime aspectRatio) with
    | Resolves response =>
        match outParts response with
        | Some partsOut => firstImage partsOut
        | None => None
        end
    | Rejects => None
    end.
Proof.
  unfold generateRevisedImage. simpl.
  destruct (service n _) as [|r]; [reflexivity|].
  now destruct (outParts r).
Qed.

(** What [firstImage] finds. *)
Lemma firstImage_spec (partsOut : list (option jsstring)) :
  (firstImage partsOut = None /\ Forall noImage partsOut)
  \/ (exists before data after,
        partsOut = before ++ Some data :: after
        /\ Forall noImage before
        /\ data <> []
        /\ firstImage partsOut = Some data).
Proof.
  induction partsOut as [|p rest IH]; simpl.
  - left. split; [reflexivity | constructor].
  - assert (Hskip : noImage p -> firstImage rest = firstImage rest ->
              (firstImage rest = None /\ Forall noImage (p :: rest))
              \/ (exists before data after,
                    p :: rest = before ++ Some data :: after
                    /\ Forall noImage before
                    /\ data <> []
                    /\ firstImage rest = Some data)).
    { intros Hp _. destruct IH as [[E F] | [before [data [after [E [F [D R]]]]]]].
      - left. split; [exact E | now constructor].
      - right. exists (p :: before), data, after.
        split; [now rewrite E|]. split; [now constructor | now split]. }
    destruct p as [[|c data]|].
    + apply Hskip; [now right | reflexivity].
    + right. exists [], (c :: data), rest. simpl.
      repeat split; [constructor | discriminate].
    + apply Hskip; [now left | reflexivity].
Qed.

Lemma firstImage_nonempty (partsOut : list (option jsstring))
  (data : jsstring) :
  firstImage partsOut = Some data -> data <> [].
Proof.
  destruct (firstImage_spec partsOut)
    as [[E _] | [before [d [after [_ [_ [D E]]]]]]]; rewrite E.
  - discriminate.
  - intros H. injection H as <-. exact D.
Qed.

Lemma trimStart_split (s : jsstring) :
  exists blank, s = blank ++ trimStart s.
Proof.
  induction s as [|c s [blank IH]]; simpl; [now exists []|].
  destruct (isWhiteSpace c).
  - exists (c :: blank). simpl. now rewrite <- IH.
  - now exists [].
Qed.

Lemma trimEnd_split (s : jsstring) : exists blank, s = trimEnd s ++ blank.
Proof.
  unfold trimEnd. destruct (trimStart_split (rev s)) as [blank E].
  exists (rev blank). rewrite <- rev_app_distr, <- E.
  symmetry. apply rev_involutive.
Qed.

Lemma trim_trimmed (s : jsstring) : trim s <> [] -> trimmed (trim s).
Proof.
  intros Hne. split; [exact Hne|]. unfold trim in *. split.
  - intros c rest E.
    destruct (trimEnd_split (trimStart s)) as [blank Eb].
    rewrite E in Eb. simpl in Eb.
    pose proof (trimStart_head s) as Hh. rewrite Eb in Hh. exact Hh.
  - intros c front E. unfold trimEnd in E.
    apply (f_equal (@rev unit16)) in E.
    rewrite rev_involutive, rev_app_distr in E. simpl in E.
    pose proof (trimStart_head (rev (trimStart s))) as Hh.
    rewrite E in Hh. exact Hh.
Qed.

Lemma trimmed_by_ends (s : jsstring) :
  s <> [] ->
  isWhiteSpace (hd 0%N s) = false ->
  isWhiteSpace (last s 0%N) = false ->
  trimmed s.
Proof.
  intros Hne Hh Hl. split; [exact Hne|]. split.
  - intros c rest ->. exact Hh.
  - intros c front ->. now rewrite last_last in Hl.
Qed.

End ServiceResults.

(** X8: the bible builder and the frame analyzer make one call each and
    return a string that is never empty: the text of the response when
    it has one, a fixed sentence when it has none or an empty one, and
    another fixed sentence when the call fails. *)
Theorem text_results_are_never_empty (service : Service) (n : nat)
  (filenames : list jsstring) (fullScript base64 mimeType : jsstring) :
  let bible := run service n (createCharacterBible filenames fullScript) in
  let analysis := run service n (analyzeSceneImage base64 mimeType) in
  fst bible <> []
  /\ calls (snd bible) = [bibleRequest filenames fullScript]
  /\ (service n (bibleRequest filenames fullScript) = Rejects ->
      fst bible = lit "Error creating Character Bible.")
  /\ (forall response t,
        service n (bibleRequest filenames fullScript) = Resolves response ->
        text response = Some t -> t <> [] -> fst bible = t)
  /\ (forall response,
        service n (bibleRequest filenames fullScript) = Resolves response ->
        text response = None \/ text response = Some [] ->
        fst bible = lit "Character Bible generation failed.")
  /\ fst analysis <> []
  /\ calls (snd analysis) = [analysisRequest base64 mimeType]
  /\ (service n (analysisRequest base64 mimeType) = Rejects ->
      fst analysis = lit "Image analysis failed.")
  /\ (forall response t,
        service n (analysisRequest base64 mimeType) = Resolves response ->
        text response = Some t -> t <> [] -> fst analysis = t)
  /\ (forall response,
        service n (analysisRequest base64 mimeType) = Resolves response ->
        text response = None \/ text response = Some [] ->
        fst analysis = lit "Visual analysis unavailable.").
Proof.
  intros bible analysis. subst bible analysis.
  rewrite run_bible, run_analysis.
  destruct (service n (bibleRequest filenames fullScript)) as [|rb];
    destruct (service n (analysisRequest base64 mimeType)) as [|ra];
    cbn [fst snd calls];
    repeat split;
    try discriminate; try reflexivity;
    try (apply orElse_nonempty; discriminate);
    try (intros response t E Ht Hne; injection E as <-; rewrite Ht;
         destruct t; [congruence | reflexivity]);
    try (intros response E [Ht | Ht]; injection E as <-; rewrite Ht;
         reflexivity).
Qed.

(** X9: the prompt synthesizer, given a character name that has a
    string, makes one call and returns a prompt that is never empty and
    neither begins nor ends with white space: the trimmed text of the
    response; a fixed prompt when the response has no text, or none but
    white space; and another fixed prompt when the call fails. Given a
    character name that has no string it rejects, and makes no call. *)
Theorem synthesized_prompt_is_trimmed
  (numberToString : spec_float -> jsstring)
  (service : Service) (n : nat) (sceneText : jsstring)
  (characterName otherCharacters : Value)
  (bible style visualAnalysis fullScriptSnippet : jsstring)
  (storyMap : option jsstring) :
  let outcome :=
    run service n
      (generateRejuvenatedPrompt numberToString sceneText characterName
         otherCharacters bible style visualAnalysis fullScriptSnippet
         storyMap) in
  match toString numberToString characterName with
  | None => outcome = (None, [])
  | Some name =>
      let request :=
        mkRequest (lit "gemini-3-pro-preview")
          (Prompt (synthTemplate sceneText name bible style visualAnalysis
                     fullScriptSnippet storyMap))
          NoConfig in
      exists prompt,
        outcome = (Some prompt, [Called request])
        /\ trimmed prompt
        /\ (service n request = Rejects ->
            prompt = lit "Cinematic film frame, professional lighting.")
        /\ (forall response,
              service n request = Resolves response ->
              (forall t,
                 text response = Some t -> trim t <> [] -> prompt = trim t)
              /\ (text response = None
                  \/ (exists t, text response = Some t /\ trim t = []) ->
                  prompt = lit "Masterpiece film frame, cinematic lighting, ultra-detailed characters."))
  end.
Proof.
  intros outcome. subst outcome. rewrite run_synth. unfold synthPrompt.
  destruct (toString numberToString characterName) as [name|];
    [|reflexivity].
  cbv iota beta. unfold synthRequest. set (request := mkRequest _ _ _).
  assert (Hmaster : trimmed (lit "Masterpiece film frame, cinematic lighting, ultra-detailed characters."))
    by (apply trimmed_by_ends; [discriminate | reflexivity | reflexivity]).
  assert (Hcinema : trimmed (lit "Cinematic film frame, professional lighting."))
    by (apply trimmed_by_ends; [discriminate | reflexivity | reflexivity]).
  eexists. split; [reflexivity|].
  destruct (service n request) as [|r].
  - split; [exact Hcinema|]. split; [reflexivity | discriminate].
  - split; [|split; [discriminate|]].
    + destruct (text r) as [t|]; simpl; [|exact Hmaster].
      destruct (trim t) as [|c rest] eqn:E; simpl; [exact Hmaster|].
      rewrite <- E. apply trim_trimmed. rewrite E. discriminate.
    + intros response E. injection E as <-. split.
      * intros t Ht Hne. rewrite Ht. simpl.
        destruct (trim t); [congruence | reflexivity].
      * intros [Ht | [t [Ht Hblank]]]; rewrite Ht; simpl;
          [reflexivity | now rewrite Hblank].
Qed.

(** X10: the image generator returns the data of the first part of the
    response that carries image data, and [null] when the call fails,
    when the response has no parts, or when none of its parts carries
    image data; what it returns is never the empty string. *)
Theorem revised_image_is_first_image_part (service : Service) (n : nat)
  (prompt : jsstring) (avatarBase64 avatarMime : option jsstring)
  (sceneBase64 sceneMime aspectRatio : jsstring) :
  let request := revisionRequest prompt avatarBase64 avatarMime sceneBase64
                   sceneMime aspectRatio in
  let image :=
    fst (run service n
           (generateRevisedImage prompt avatarBase64 avatarMime sceneBase64
              sceneMime aspectRatio)) in
  image <> Some []
  /\ (service n request = Rejects -> image = None)
  /\ (forall response,
        service n request = Resolves response ->
        outParts response = None -> image = None)
  /\ (forall response partsOut,
        service n request = Resolves response ->
        outParts response = Some partsOut ->
        (image = None /\ Forall noImage partsOut)
        \/ (exists before data after,
              partsOut = before ++ Some data :: after
              /\ Forall noImage before
              /\ data <> []
              /\ image = Some data)).
Proof.
  intros request image. subst request image. rewrite run_revision.
  split; [|split; [|split]].
  - destruct (service n _) as [|r]; [discriminate|].
    destruct (outParts r) as [partsOut|]; [|discriminate].
    intros H. now apply firstImage_nonempty in H.
  - now intros ->.
  - intros response -> E. now rewrite E.
  - intros response partsOut -> E. rewrite E. apply firstImage_spec.
Qed.

(* ================================================================== *)
(** ** Further properties: the analysis and the production run *)
(* ================================================================== *)

Section RunFacts.

Lemma fst_bind {A B} (service : Service) (n : nat) (m : Eff A)
  (f : A -> Eff B) :
  fst (run service n (bind m f))
  = fst (run service (n + length (calls (snd (run service n m))))
           (f (fst (run service n m)))).
Proof.
  rewrite run_bind. destruct (run service n m) as [a before]. simpl.
  now destruct (run service (n + length (calls before)) (f a)).
Qed.

Lemma fst_emit {A} (service : Service) (n : nat) (e : Effect) (k : Eff A) :
  fst (run service n (Emit e k)) = fst (run service n k).
Proof. simpl. now destruct (run service n k). Qed.

Lemma calls_emit {A} (service : Service) (n : nat) (e : Effect)
  (k : Eff A) :
  calls (snd (run service n (Emit e k))) = calls (snd (run service n k)).
Proof. simpl. now destruct (run service n k). Qed.

Lemma sameAssets_refl (st : State) : sameAssets st st.
Proof. repeat split. Qed.

Lemma sameAssets_trans (a b c : State) :
  sameAssets a b -> sameAssets b c -> sameAssets a c.
Proof.
  unfold sameAssets. intros H1 H2.
  repeat match goal with H : _ /\ _ |- _ => destruct H end.
  repeat split; congruence.
Qed.

End RunFacts.

Section ProductionFacts.

Variable localeCompare : jsstring -> jsstring -> Z.
Variable numberToString : spec_float -> jsstring.

Lemma processFrame_skip (service : Service) (n total i : nat)
  (img : SourceImage) (st : State) :
  hasText (textFiles st) img = false ->
  run service n (processFrame numberToString total i img st)
  = (st, [Did (Log (lit "SKIPPING: " ++ fileName img
                    ++ lit " (NO CONTEXT)"))]).
Proof.
  unfold hasText, processFrame.
  destruct (findText (textFiles st) (frameBase img)); [discriminate|].
  reflexivity.
Qed.

(** The run of one frame that has a text asset, case by case. *)
Lemma processFrame_run (service : Service) (n total i : nat)
  (img : SourceImage) (st : State) (tFile : TextFile) :
  findText (textFiles st) (frameBase img) = Some tFile ->
  let snippet := sceneSnippet tFile in
  let context := localize (fullScript st) snippet in
  let st1 :=
    setStatus (lit "PROCESS: [" ++ decimal (i + 1) ++ lit "/"
               ++ decimal total ++ lit "] - " ++ fileName img) st in
  let visual :=
    fst (run service n (analyzeSceneImage (base64 img) (mimeType img))) in
  let mapping :=
    fst (run service (n + 1)
           (identifyConsistentCharacter snippet visual (characterBible st)))
  in
  let head :=
    [Called (analysisRequest (base64 img) (mimeType img));
     Called (identifyRequest snippet visual (characterBible st))] in
  let result := run service n (processFrame numberToString total i img st)
  in
  match resolveAvatar numberToString (avatars st) mapping,
        toString numberToString (characterName mapping) with
  | Some avatar, Some name =>
      exists prompt,
        let synthesis :=
          synthTemplate snippet name (characterBible st) (style st) visual
            context (option_map content (storyMap st)) in
        let revision :=
          run service (n + 1 + 1 + 1)
            (generateRevisedImage prompt (fst (avatarArguments avatar))
               (snd (avatarArguments avatar)) (base64 img) (mimeType img)
               defaultAspectRatio) in
        match fst revision with
        | Some imageBase64 =>
            let item :=
              mkRejuvenatedItem (fileName img)
                (frameBase img ++ lit "_rejuvenated.png") imageBase64
                prompt in
            result
            = (setResults (results st ++ [item]) st1,
               head ++ Called (synthRequest synthesis) :: snd revision
               ++ [Did (Download
                          (lit "ORIGINAL: " ++ fileName img
                           ++ [newline] ++ lit "CHARACTER: " ++ name
                           ++ [newline] ++ lit "PROMPT: " ++ prompt
                           ++ [newline; newline] ++ lit "SCENE DATA:"
                           ++ [newline] ++ content tFile)
                          (frameBase img ++ lit "_meta.txt") false);
                   Did (Download imageBase64 (newName item) true);
                   Did (Log (lit "DOWNLOADED: " ++ newName item))])
        | None =>
            result
            = (st1,
               head ++ Called (synthRequest synthesis) :: snd revision
               ++ [Did (Log (lit "REVISION FAILED FOR " ++ fileName img
                             ++ lit ". SKIPPING."))])
        end
  | _, _ =>
      result
      = (st1,
         head ++ [Did (LogCaught (lit "CRITICAL ERROR [" ++ fileName img
                                  ++ lit "]: "))])
  end.
Proof.
  intros Hfind snippet context st1 visual mapping head result.
  assert (Ha : run service n (analyzeSceneImage (base64 img) (mimeType img))
               = (visual,
                  [Called (analysisRequest (base64 img) (mimeType img))]))
    by (subst visual; now rewrite run_analysis).
  assert (Hi : run service (n + 1)
                 (identifyConsistentCharacter snippet visual
                    (characterBible st))
               = (mapping,
                  [Called (identifyRequest snippet visual
                             (characterBible st))]))
    by (subst mapping; now rewrite run_identify).
  clearbody visual mapping.
  subst result. unfold processFrame. rewrite Hfind.
  fold snippet. fold context.
  cbn [characterBible style storyMap avatars setStatus].
  rewrite run_bind, Ha. cbn [calls length].
  rewrite run_bind, Hi. cbn [calls length].
  destruct (resolveAvatar numberToString (avatars st) mapping)
    as [avatar|];
    [|now destruct (toString numberToString (characterName mapping))].
  rewrite run_bind, run_synth. unfold synthPrompt.
  destruct (toString numberToString (characterName mapping)) as [name|];
    [|reflexivity].
  cbn [calls length].
  set (prompt := match service (n + 1 + 1) _ with
                 | Rejects => _
                 | Resolves _ => _
                 end).
  exists prompt. clearbody prompt.
  cbv zeta. rewrite run_bind.
  destruct (run service (n + 1 + 1 + 1) (generateRevisedImage _ _ _ _ _ _))
    as [[imageBase64|] trace]; reflexivity.
Qed.

Lemma processFrame_state (service : Service) (n total i : nat)
  (img : SourceImage) (st : State) :
  let st' := fst (run service n (processFrame numberToString total i img st))
  in
  sameAssets st st'
  /\ stage st' = stage st
  /\ (results st' = results st
      \/ exists item,
           hasText (textFiles st) img = true
           /\ resultOf img item
           /\ results st' = results st ++ [item]).
Proof.
  intros st'. subst st'. unfold hasText.
  destruct (findText (textFiles st) (frameBase img)) as [tFile|] eqn:Hfind;
    [|unfold processFrame; rewrite Hfind;
      split; [apply sameAssets_refl | split; [reflexivity | now left]]].
  pose proof (processFrame_run service n total i img st Hfind) as Hrun.
  cbv zeta in Hrun.
  destruct (resolveAvatar numberToString (avatars st) _) as [avatar|];
    [|rewrite Hrun; split; [repeat split|];
      split; [reflexivity | now left]].
  destruct (toString numberToString _) as [name|];
    [|rewrite Hrun; split; [repeat split|];
      split; [reflexivity | now left]].
  destruct Hrun as [prompt Hrun].
  destruct (fst (run service (n + 1 + 1 + 1)
                   (generateRevisedImage _ _ _ _ _ _)))
    as [imageBase64|] eqn:G; rewrite Hrun; cbn [fst].
  - rewrite run_revision in G.
    assert (Hne : imageBase64 <> []).
    { destruct (service _ _) as [|r]; [discriminate|].
      destruct (outParts r) as [partsOut|]; [|discriminate].
      now apply firstImage_nonempty with partsOut. }
    split; [repeat split|]. split; [reflexivity|].
    right. eexists. split; [reflexivity|]. split; [|reflexivity].
    repeat split. exact Hne.
  - split; [repeat split|]. split; [reflexivity | now left].
Qed.

Lemma processFrame_group (service : Service) (n total i : nat)
  (img : SourceImage) (st : State) :
  hasText (textFiles st) img = true ->
  callsOfFrame img
    (calls (snd (run service n (processFrame numberToString total i img st)))).
Proof.
  unfold hasText. intros H.
  destruct (findText (textFiles st) (frameBase img)) as [tFile|] eqn:E;
    [|discriminate].
  destruct (processFrame_calls numberToString service n total i img st E)
    as [rest [Hcalls Hrest]].
  rewrite Hcalls. eexists.
  destruct (resolveAvatar _ _ _); [|left; now rewrite Hrest].
  destruct (synthPrompt _ _ _ _ _ _ _ _); [|left; now rewrite Hrest].
  destruct Hrest as [prompt ->]. right. do 2 eexists. reflexivity.
Qed.

(** The loop over the frames: what it leaves and what it calls. *)
Lemma forFrames_run (frames : list SourceImage) :
  forall (service : Service) (n total i : nat) (st : State),
    let result := run service n (forFrames numberToString total i frames st)
    in
    sameAssets st (fst result)
    /\ stage (fst result) = stage st
    /\ (exists added,
          results (fst result) = results st ++ added
          /\ Produced (textFiles st) frames added)
    /\ (exists groups,
          calls (snd result) = concat groups
          /\ Forall2 callsOfFrame
               (filter (hasText (textFiles st)) frames) groups).
Proof.
  induction frames as [|img frames IH]; intros service n total i st.
  - simpl. split; [apply sameAssets_refl|]. split; [reflexivity|]. split.
    + exists []. split; [now rewrite app_nil_r | constructor].
    + exists []. split; [reflexivity | constructor].
  - cbn zeta. cbn [forFrames]. rewrite fst_bind, calls_bind.
    remember (run service n (processFrame numberToString total i img st))
      as step eqn:Estep.
    destruct (processFrame_state service n total i img st)
      as [Hsame [Hstage Hres]].
    rewrite <- Estep in Hsame, Hstage, Hres.
    destruct (IH service (n + length (calls (snd step))) total (S i)
                (fst step)) as [Hsame' [Hstage' [[added [Hadd Hprod]] Hgroups]]].
    assert (Htexts : textFiles (fst step) = textFiles st)
      by (destruct Hsame as [_ [_ [_ [_ [H _]]]]]; exact H).
    rewrite Htexts in Hprod, Hgroups.
    split; [now apply sameAssets_trans with (fst step)|].
    split; [congruence|]. split.
    + destruct Hres as [Hres | [item [Htext [Hitem Hres]]]].
      * exists added. split; [congruence | now constructor].
      * exists (item :: added). split.
        -- rewrite Hadd, Hres, <- app_assoc. reflexivity.
        -- now constructor.
    + destruct Hgroups as [groups [Hcalls Hall]]. cbn [filter].
      destruct (hasText (textFiles st) img) eqn:Htext.
      * exists (calls (snd step) :: groups). split.
        -- cbn [concat]. now rewrite Hcalls.
        -- constructor; [|exact Hall]. rewrite Estep.
           now apply processFrame_group.
      * exists groups. split; [|exact Hall].
        rewrite Hcalls, Estep,
          (processFrame_skip service n total i img st Htext).
        reflexivity.
Qed.

Lemma productionRun_run (service : Service) (n : nat) (st : State) :
  let frames := allImages localeCompare (processedImages st) in
  let result :=
    run service n (processProductionRun localeCompare numberToString st) in
  sameAssets st (fst result)
  /\ stage (fst result) = COMPLETE
  /\ (exists added,
        results (fst result) = results st ++ added
        /\ Produced (textFiles st) frames added)
  /\ (exists groups,
        calls (snd result) = concat groups
        /\ Forall2 callsOfFrame
             (filter (hasText (textFiles st)) frames) groups).
Proof.
  intros frames result. subst result. unfold processProductionRun.
  fold frames. rewrite fst_emit, calls_emit.
  destruct (Nat.eqb (length frames) 0) eqn:E.
  - apply Nat.eqb_eq, length_zero_iff_nil in E. rewrite E. simpl.
    split; [repeat split|]. split; [reflexivity|]. split.
    + exists []. split; [now rewrite app_nil_r | constructor].
    + exists []. split; [reflexivity | constructor].
  - rewrite fst_bind, calls_bind.
    destruct (forFrames_run frames service n (length frames) 0 st)
      as [Hsame [Hstage [Hadded Hgroups]]].
    remember (run service n
                (forFrames numberToString (length frames) 0 frames st))
      as loop.
    cbn [run fst snd calls]. rewrite app_nil_r.
    split; [|split; [reflexivity | split; assumption]].
    unfold sameAssets in *. cbn.
    repeat match goal with H : _ /\ _ |- _ => destruct H end.
    repeat split; assumption.
Qed.

End ProductionFacts.

Section AnalysisFacts.

Lemma runAnalysis_proceeds (st : State) (script : TextFile)
  (service : Service) (n : nat) :
  fullScript st = Some script ->
  forallb isWhiteSpace (content script) = false ->
  let bible :=
    fst (run service n
           (createCharacterBible (keys (avatars st)) (content script))) in
  let result := run service n (runAnalysis st) in
  fst result
  = setStage PROCESSING
      (setCharacterBible bible (setStatus (lit "BUILDING BIBLE...") st))
  /\ calls (snd result)
     = [bibleRequest (keys (avatars st)) (content script)]
  /\ In (Did (Download bible (lit "bible.txt") false)) (snd result)
  /\ bible <> [].
Proof.
  intros Hs Hblank bible result. subst bible result.
  unfold runAnalysis. rewrite Hs.
  assert (E : eqb (trim (content script)) [] = false).
  { apply eqb_neq. intros H. apply trim_nil in H. congruence. }
  rewrite E. cbn [run]. rewrite run_bind. cbn [avatars setStatus].
  rewrite !run_bible.
  destruct (service n _) as [|r]; cbn [fst snd run calls length].
  - repeat split; [simpl; tauto | discriminate].
  - repeat split; [simpl; tauto | apply orElse_nonempty; discriminate].
Qed.

End AnalysisFacts.

(** X11: with a script that is not blank the analysis makes one call,
    the bible request over the names of the avatars and the script;
    stores what the bible builder returned, which is never empty, and
    downloads it as [bible.txt]; and leaves the console at [PROCESSING],
    from where the automation effect starts the production run. *)
Theorem analysis_builds_the_bible_and_starts_production (st : State)
  (script : TextFile) (service : Service) (n : nat) :
  fullScript st = Some script ->
  forallb isWhiteSpace (content script) = false ->
  let result := run service n (runAnalysis st) in
  let bible := characterBible (fst result) in
  calls (snd result) = [bibleRequest (keys (avatars st)) (content script)]
  /\ bible
     = fst (run service n
              (createCharacterBible (keys (avatars st)) (content script)))
  /\ bible <> []
  /\ In (Did (Download bible (lit "bible.txt") false)) (snd result)
  /\ stage (fst result) = PROCESSING
  /\ error (fst result) = error st
  /\ avatars (fst result) = avatars st
  /\ processedImages (fst result) = processedImages st
  /\ textFiles (fst result) = textFiles st
  /\ results (fst result) = results st
  /\ (forall localeCompare numberToString,
        automation localeCompare numberToString (fst result)
        = processProductionRun localeCompare numberToString (fst result)).
Proof.
  intros Hs Hblank result bible. subst bible result.
  destruct (runAnalysis_proceeds st service n Hs Hblank)
    as [Hst [Hcalls [Hdown Hne]]].
  rewrite Hst in *. cbn [characterBible setStage setCharacterBible] in *.
  repeat split; try assumption.
  intros localeCompare numberToString. unfold automation.
  cbn [stage characterBible setStage setCharacterBible].
  destruct (fst (run service n (createCharacterBible _ _)));
    [congruence | reflexivity].
Qed.

(** The theorem at the sample state and a service that cannot be
    reached: the bible is the sentence for a failed call. *)
Lemma analysis_builds_the_bible_witness :
  characterBible (fst (run unreachable 0 (runAnalysis sampleState)))
  = lit "Error creating Character Bible."
  /\ stage (fst (run unreachable 0 (runAnalysis sampleState))) = PROCESSING.
Proof.
  destruct (@analysis_builds_the_bible_and_starts_production sampleState
              (mkTextFile (lit "hs4000.txt")
                 (hs4000Content [(lit "f1.png", sampleFrame)] [sampleText]))
              unreachable 0 eq_refl eq_refl)
    as [_ [Hb [_ [_ [Hs _]]]]].
  split; [rewrite Hb; reflexivity | exact Hs].
Defined.


Lemma concat_groups_length (frames : list SourceImage)
  (groups : list (list Request)) :
  Forall2 callsOfFrame frames groups ->
  2 * length frames <= length (concat groups) <= 4 * length frames.
Proof.
  induction 1 as [|img group frames groups Hgroup _ IH];
    [simpl; lia|].
  cbn [concat]. rewrite length_app. cbn [length].
  destruct Hgroup as [r2 [-> | [r3 [r4 ->]]]]; cbn [length]; lia.
Qed.


(* ================================================================== *)
(** ** Further properties: the frame whose avatar is known *)
(* ================================================================== *)

Section KnownAvatar.

Variable numberToString : spec_float -> jsstring.

Lemma known_avatar_arguments (avatars : object SourceImage)
  (mapping : Mapping) (key : jsstring) (avatar : SourceImage) :
  avatarFilename mapping = VString key ->
  key <> [] ->
  getOwn avatars key = Some avatar ->
  base64 avatar <> [] ->
  mimeType avatar <> [] ->
  exists found,
    resolveAvatar numberToString avatars mapping = Some found
    /\ avatarArguments found
       = (Some (base64 avatar), Some (mimeType avatar)).
Proof.
  intros Hname Hkey Hown Hdata Hmime.
  unfold resolveAvatar. rewrite Hname. cbn [truthyValue toString option_map].
  destruct key as [|c key]; [congruence|]. cbn [truthy].
  unfold getAvatar. rewrite Hown. eexists. split; [reflexivity|].
  unfold avatarArguments. cbn [optBase64 optMimeType orNull].
  destruct (base64 avatar); [congruence|].
  destruct (mimeType avatar); [congruence|]. reflexivity.
Qed.

End KnownAvatar.

(** X14: in a frame whose identifier result has a character name that
    has a string and names an avatar that is a key of the avatars, with
    image data and a media type that are not empty, the fourth call of
    the frame is the generator call with the six parts of the identity
    transplant: the prompt, the transplant instruction, the avatar
    label, the image of that avatar, the scene label and the image of
    the frame. *)
Theorem known_avatar_takes_transplant_path
  (numberToString : spec_float -> jsstring)
  (service : Service) (n total i : nat)
  (img : SourceImage) (st : State) (tFile : TextFile)
  (name key : jsstring) (avatar : SourceImage) :
  let visual :=
    fst (run service n (analyzeSceneImage (base64 img) (mimeType img))) in
  let mapping :=
    fst (run service (n + 1)
           (identifyConsistentCharacter (sceneSnippet tFile) visual
              (characterBible st))) in
  findText (textFiles st) (frameBase img) = Some tFile ->
  toString numberToString (characterName mapping) = Some name ->
  avatarFilename mapping = VString key ->
  key <> [] ->
  getOwn (avatars st) key = Some avatar ->
  base64 avatar <> [] ->
  mimeType avatar <> [] ->
  exists analysis identification synthesis prompt,
    calls (snd (run service n (processFrame numberToString total i img st)))
    = [analysis; identification; synthesis;
       mkRequest (lit "gemini-2.5-flash-image")
         (Parts [Text (promptLabel ++ prompt);
                 Text transplantInstruction;
                 Text avatarLabel;
                 InlineData (base64 avatar) (mimeType avatar);
                 Text sceneLabel;
                 InlineData (base64 img) (mimeType img)])
         (ImageConfig defaultAspectRatio)].
Proof.
  intros visual mapping Hfind Hprintable Hname Hkey Hown Hdata Hmime.
  destruct (@known_avatar_arguments numberToString (avatars st) mapping
              key avatar Hname Hkey Hown Hdata Hmime)
    as [found [Hfound Hargs]].
  destruct (processFrame_calls numberToString service n total i img st
              Hfind) as [rest [Hcalls Hrest]].
  cbv zeta in Hrest. fold visual in Hrest. fold mapping in Hrest.
  rewrite Hfound, (synthPrompt_some _ _ _ _ _ _ _ _ Hprintable) in Hrest.
  destruct Hrest as [prompt ->]. rewrite Hargs in Hcalls.
  cbn [fst snd] in Hcalls. unfold revisionRequest in Hcalls.
  rewrite (revisionParts_with_avatar _ _ _ Hdata Hmime) in Hcalls.
  do 4 eexists. exact Hcalls.
Qed.

(** The theorem at the sample state and a service whose every response
    names the avatar [boss.jpg]. *)
Lemma known_avatar_witness :
  exists prompt,
    nth_error
      (calls (snd (run (always namingBoss) 0
                     (processFrame (fun _ => []) 1 0 sampleFrame
                        sampleState))))
      3
    = Some (mkRequest (lit "gemini-2.5-flash-image")
              (Parts [Text (promptLabel ++ prompt);
                      Text transplantInstruction;
                      Text avatarLabel;
                      InlineData (lit "Qk9TUw==") (lit "image/jpeg");
                      Text sceneLabel;
                      InlineData (lit "U0NFTkU=") (lit "image/png")])
              (ImageConfig defaultAspectRatio)).
Proof.
  destruct (@known_avatar_takes_transplant_path (fun _ => [])
              (always namingBoss) 0 1 0 sampleFrame sampleState sampleText
              (lit "Unknown") (lit "boss.jpg") bossAvatar
              eq_refl eq_refl eq_refl ltac:(discriminate) eq_refl
              ltac:(discriminate) ltac:(discriminate))
    as [r1 [r2 [r3 [prompt E]]]].
  exists prompt. rewrite E. reflexivity.
Defined.

(* ================================================================== *)
(** ** Further properties: the assembler and the localizer together *)
(* ================================================================== *)

Section Anchors.

Lemma join_occurs (sep x : jsstring) (l : list jsstring) :
  In x l -> exists k, occursAt x (join sep l) k.
Proof.
  induction l as [|y rest IH]; [intros []|].
  intros [-> | Hin].
  - exists 0. destruct rest as [|z rest].
    + exists [], []. now rewrite app_nil_r.
    + now exists [], (sep ++ join sep (z :: rest)).
  - destruct (IH Hin) as [k [before [after [E Hk]]]].
    destruct rest as [|z rest]; [destruct Hin|].
    exists (length (y ++ sep ++ before)), (y ++ sep ++ before), after.
    split; [|reflexivity].
    change (join sep (y :: z :: rest))
      with (y ++ sep ++ join sep (z :: rest)).
    rewrite E. now rewrite <- !app_assoc.
Qed.

Lemma skipn_nth {A} (d : A) (n : nat) (l : list A) :
  n < length l -> skipn n l = nth n l d :: skipn (S n) l.
Proof.
  revert l; induction n as [|n IH]; intros [|x l] H; simpl in H; try lia.
  - reflexivity.
  - change (skipn (S n) (x :: l)) with (skipn n l).
    change (nth (S n) (x :: l) d) with (nth n l d).
    rewrite IH by lia. reflexivity.
Qed.

(** The anchor of a frame's snippet is the start of the frame's line of
    index 3, when that line is the last or has 40 units or more. *)
Lemma anchor_of_line (tFile : TextFile) :
  let lines := split newline (content tFile) in
  4 <= length lines ->
  length lines = 4 \/ 40 <= length (nth 3 lines []) ->
  firstn 40 (sceneSnippet tFile) = firstn 40 (nth 3 lines []).
Proof.
  intros lines Hlen Hcase. unfold sceneSnippet. fold lines.
  rewrite (@skipn_nth jsstring [] 3 lines) by lia.
  destruct (skipn 4 lines) as [|l rest] eqn:E; [reflexivity|].
  destruct Hcase as [H4 | H40].
  - assert (L : length (skipn 4 lines) = 0) by (rewrite length_skipn; lia).
    rewrite E in L. discriminate.
  - change (join [newline] (nth 3 lines [] :: l :: rest))
      with (nth 3 lines [] ++ [newline] ++ join [newline] (l :: rest)).
    rewrite firstn_app.
    replace (40 - length (nth 3 lines [])) with 0 by lia.
    now rewrite firstn_O, app_nil_r.
Qed.

Lemma occursAt_prefix (a b s : jsstring) (k : nat) :
  occursAt (a ++ b) s k -> occursAt a s k.
Proof.
  intros [before [after [-> Hk]]]. exists before, (b ++ after).
  now rewrite <- app_assoc.
Qed.

(** A needle of at most 3000 units that stands in [text] at [P] stands
    in the window around [P]. *)
Lemma occurs_in_window (needle text : jsstring) (P : nat) :
  length needle <= 3000 ->
  occursAt needle text P ->
  occursAt needle (skipn (P - 1000) (firstn (P + 3000) text))
    (P - (P - 1000)).
Proof.
  intros Hlen [before [after [-> Hk]]]. subst P.
  rewrite firstn_app.
  rewrite (firstn_all2 (n := length before + 3000) before) by lia.
  replace (length before + 3000 - length before) with 3000 by lia.
  rewrite firstn_app, (firstn_all2 (n := 3000) needle) by lia.
  rewrite skipn_app.
  replace (length before - 1000 - length before) with 0 by lia.
  rewrite skipn_O.
  exists (skipn (length before - 1000) before),
         (firstn (3000 - length needle) after).
  split; [reflexivity|]. rewrite length_skipn. lia.
Qed.

Lemma frame_line_in_script (tempProcessed : object SourceImage)
  (tempTexts : list TextFile) (img : SourceImage) (tFile : TextFile) :
  In (fileName img) (keys tempProcessed) ->
  findText tempTexts (frameBase img) = Some tFile ->
  4 <= length (split newline (content tFile)) ->
  exists k,
    occursAt (nth 3 (split newline (content tFile)) [])
      (hs4000Content tempProcessed tempTexts) k.
Proof.
  intros Hkey Hfind Hlen.
  unfold hs4000Content, hs4000Lines. rewrite fold_assembleStep.
  apply join_occurs. cbn [app]. apply in_concat.
  exists (pushed tempTexts (fileName img)). split.
  - apply in_map. unfold sortedImageKeys.
    eapply Permutation_in; [apply Permutation_sym, sort_perm | exact Hkey].
  - unfold pushed, assembleStep.
    change (baseOf (fileName img)) with (frameBase img). rewrite Hfind.
    apply Nat.leb_le in Hlen. rewrite Hlen. now left.
Qed.

End Anchors.

(** X15: the localizer finds in the assembled script the frame the
    assembler took a line from. For a frame among the stored frames
    whose text asset has four lines, or more with a line of index 3 of
    at least 40 units, the anchor is the start of that line, and the
    localized context of the frame holds the anchor, at most 1000
    units from its start. *)
Theorem localized_context_holds_the_frame_line
  (tempProcessed : object SourceImage) (tempTexts : list TextFile)
  (scriptName : jsstring) (img : SourceImage) (tFile : TextFile) :
  let lines := split newline (content tFile) in
  let script :=
    mkTextFile scriptName (hs4000Content tempProcessed tempTexts) in
  let anchor := firstn 40 (sceneSnippet tFile) in
  let context := localize (Some script) (sceneSnippet tFile) in
  In (fileName img) (keys tempProcessed) ->
  findText tempTexts (frameBase img) = Some tFile ->
  4 <= length lines ->
  length lines = 4 \/ 40 <= length (nth 3 lines []) ->
  anchor = firstn 40 (nth 3 lines [])
  /\ exists k, k <= 1000 /\ occursAt anchor context k.
Proof.
  intros lines script anchor context Hkey Hfind Hlen Hcase.
  pose proof (anchor_of_line tFile Hlen Hcase) as Hanchor.
  fold lines in Hanchor. fold anchor in Hanchor.
  split; [exact Hanchor|].
  destruct (frame_line_in_script tempProcessed tempTexts img Hkey Hfind Hlen)
    as [k0 Hline].
  fold lines in Hline.
  rewrite <- (firstn_skipn 40 (nth 3 lines [])), <- Hanchor in Hline.
  apply occursAt_prefix in Hline.
  destruct (localize_cases script (sceneSnippet tFile))
    as [[P [Hocc [_ [E _]]]] | [Hno _]].
  - exists (P - (P - 1000)). split; [lia|].
    subst context. rewrite E. apply occurs_in_window; [|exact Hocc].
    unfold anchor. rewrite length_firstn. lia.
  - destruct (Hno k0). exact Hline.
Qed.

(** The theorem at the sample frame and its text asset: the context is
    found and holds the line [HELLO THERE]. *)
Lemma localized_context_witness :
  exists k,
    k <= 1000
    /\ occursAt (lit "HELLO THERE")
         (localize (fullScript sampleState) (sceneSnippet sampleText)) k.
Proof.
  destruct (@localized_context_holds_the_frame_line
              [(lit "f1.png", sampleFrame)] [sampleText] (lit "hs4000.txt")
              sampleFrame sampleText
              (or_introl eq_refl) eq_refl
              (le_n 4) (or_introl eq_refl))
    as [_ [k [Hk Hocc]]].
  exists k. split; [exact Hk | exact Hocc].
Defined.

(* ================================================================== *)
(** ** Further properties: from the upload to the end of the run *)
(* ================================================================== *)

(** X16: an upload into a console that has no script stored, whose
    archives can all be read and whose assembled script is not blank,
    runs to [COMPLETE] through the two turns of the automation effect
    that follow it. Its calls are the bible request over the stored
    avatar names and the script, then the calls of each stored frame
    that has a text asset, frame after frame in the order of the run,
    two or four for each. The results are the earlier results and at
    most one new result for each of those frames. *)
Theorem readable_upload_runs_to_completion
  (toLowerCase : jsstring -> jsstring)
  (localeCompare : jsstring -> jsstring -> Z)
  (numberToString : spec_float -> jsstring)
  (read : list (jsstring * Extracted)) (st : State)
  (service : Service) (n : nat) :
  let ta := stagedAvatars toLowerCase read in
  let tp := stagedProcessed toLowerCase read in
  let tt := stagedTexts toLowerCase read in
  let script := hs4000Content tp tt in
  let framesWithText := filter (hasText tt) (allImages localeCompare tp) in
  fullScript st = None ->
  forallb isWhiteSpace script = false ->
  exists console,
    session toLowerCase localeCompare numberToString (inl read) st
    = Some console
    /\ let result := run service n console in
       stage (fst result) = COMPLETE
       /\ (exists groups,
             calls (snd result)
             = bibleRequest (keys ta) script :: concat groups
             /\ Forall2 callsOfFrame framesWithText groups)
       /\ 1 + 2 * length framesWithText <= length (calls (snd result))
          <= 1 + 4 * length framesWithText
       /\ (exists added,
             results (fst result) = results st ++ added
             /\ Produced tt (allImages localeCompare tp) added).
Proof.
  intros ta tp tt script framesWithText Hfresh Hblank.
  unfold session.
  rewrite (uploading_fresh toLowerCase localeCompare numberToString
             (inl read) st Hfresh).
  eexists. split; [reflexivity|]. cbv zeta.
  destruct (handleUpload_loaded toLowerCase read st service n)
    as [Htrace [Hstage [_ [_ [Hav [Hpi [Htf [Hfs [_ Hres]]]]]]]]].
  fold ta in Hav. fold tp in Hpi, Hfs, Htrace. fold tt in Htf, Hfs, Htrace.
  fold script in Hfs, Htrace.
  remember (run service n (handleUpload toLowerCase (inl read) st)) as r1.
  assert (Hno : calls (snd r1) = []) by (rewrite Htrace; reflexivity).
  rewrite fst_bind, calls_bind. rewrite <- Heqr1. rewrite Hno.
  cbn [length app]. rewrite Nat.add_0_r.
  assert (Hauto : automation localeCompare numberToString (fst r1)
                  = runAnalysis (fst r1)).
  { unfold automation. now rewrite Hstage, Hfs. }
  rewrite Hauto.
  destruct (@runAnalysis_proceeds (fst r1)
              (mkTextFile (lit "hs4000.txt") script) service n Hfs Hblank)
    as [Hst2 [Hcalls2 [_ Hbible]]].
  cbn [content] in Hst2, Hcalls2, Hbible. rewrite Hav in Hst2, Hcalls2, Hbible.
  remember (run service n (runAnalysis (fst r1))) as r2.
  remember (fst (run service n (createCharacterBible (keys ta) script)))
    as bible.
  rewrite fst_bind, calls_bind. rewrite <- Heqr2. rewrite Hcalls2.
  cbn [length app].
  assert (Hauto2 : automation localeCompare numberToString (fst r2)
                   = processProductionRun localeCompare numberToString
                       (fst r2)).
  { unfold automation. rewrite Hst2.
    cbn [stage characterBible setStage setCharacterBible].
    destruct bible; [congruence | reflexivity]. }
  rewrite Hauto2.
  destruct (productionRun_run localeCompare numberToString service (n + 1)
              (fst r2))
    as [_ [Hcomplete [[added [Hadded Hproduced]] [groups [Hcalls Hgroups]]]]].
  assert (Htexts : textFiles (fst r2) = tt) by (now rewrite Hst2).
  assert (Hframes : processedImages (fst r2) = tp) by (now rewrite Hst2).
  assert (Hresults : results (fst r2) = results st) by (now rewrite Hst2).
  rewrite Htexts, Hframes in *. rewrite Hresults in Hadded.
  split; [exact Hcomplete|]. split; [|split].
  - exists groups. rewrite Hcalls. now split.
  - rewrite Hcalls. cbn [length].
    pose proof (concat_groups_length Hgroups) as Hbounds.
    fold framesWithText in Hbounds. lia.
  - now exists added.
Qed.

(** The theorem at the sample archives, read, and a service that cannot
    be reached: five calls, for the bible and the one frame. *)
Lemma readable_upload_witness :
  let read :=
    [(lit "Avatars.zip", mkExtracted [(lit "boss.jpg", bossAvatar)] []);
     (lit "processed_1.zip",
      mkExtracted [(lit "f1.png", sampleFrame)] [sampleText])] in
  exists console,
    session asciiLowerCase asciiLocaleCompare (fun _ => []) (inl read)
      initialState
    = Some console
    /\ stage (fst (run unreachable 0 console)) = COMPLETE
    /\ length (calls (snd (run unreachable 0 console))) = 5.
Proof.
  intros read.
  destruct (@readable_upload_runs_to_completion asciiLowerCase
              asciiLocaleCompare (fun _ => []) read initialState
              unreachable 0 eq_refl eq_refl)
    as [console [E [Hstage _]]].
  exists console. split; [exact E|]. split; [exact Hstage|].
  injection E as <-. reflexivity.
Defined.

(** X19: an upload into a console that holds a blank script, as a
    halted upload leaves it, halts again, whatever it holds. The turn
    of the effect in the midst of the upload finds the stage at
    [ANALYZING] and the blank script, and sets the error and the stage
    before the archives are read. The upload then stores its assets and
    its script, but the console is at [IDLE] with the error of the
    empty script, and no call is issued. *)
Theorem upload_over_a_blank_script_halts
  (toLowerCase : jsstring -> jsstring)
  (localeCompare : jsstring -> jsstring -> Z)
  (numberToString : spec_float -> jsstring)
  (read : list (jsstring * Extracted)) (st : State) (stored : TextFile)
  (service : Service) (n : nat) :
  let tp := stagedProcessed toLowerCase read in
  let tt := stagedTexts toLowerCase read in
  fullScript st = Some stored ->
  forallb isWhiteSpace (content stored) = true ->
  stage st <> ANALYZING ->
  read <> [] ->
  exists console,
    session toLowerCase localeCompare numberToString (inl read) st
    = Some console
    /\ let final := fst (run service n console) in
       noCall console
       /\ stage final = IDLE
       /\ error final = Some scriptEmptyError
       /\ isUploading final = false
       /\ processedImages final = tp
       /\ textFiles final = tt
       /\ fullScript final
          = Some (mkTextFile (lit "hs4000.txt") (hs4000Content tp tt)).
Proof.
  intros tp tt Hstored Hblank Hstage Hread.
  assert (Hruns : effectRunsMidUpload (inl read) st = true).
  { unfold effectRunsMidUpload, waits.
    destruct read; [congruence|].
    destruct (stage st); try reflexivity. congruence. }
  unfold session.
  rewrite (uploading_halts toLowerCase localeCompare numberToString
             (inl read) st Hstored Hblank Hruns).
  eexists. split; [reflexivity|]. cbv zeta.
  assert (Hfinish : forall service' n',
            let r := run service' n'
                       (finishUpload toLowerCase (inl read)
                          (halted (beginUpload st))) in
            calls (snd r) = []
            /\ stage (fst r) = IDLE
            /\ error (fst r) = Some scriptEmptyError
            /\ isUploading (fst r) = false
            /\ processedImages (fst r) = tp
            /\ textFiles (fst r) = tt
            /\ fullScript (fst r)
               = Some (mkTextFile (lit "hs4000.txt")
                         (hs4000Content tp tt))).
  { intros service' n'.
    destruct (finishUpload_loaded toLowerCase read
                (halted (beginUpload st)) service' n')
      as [Ht [Hs [Hu [He [_ [Hp [Hx [Hf _]]]]]]]].
    cbv zeta. rewrite Ht, Hs, Hu, He, Hp, Hx, Hf. repeat split. }
  assert (Hidle : forall st', stage st' = IDLE ->
            automation localeCompare numberToString st' = Ret st').
  { intros st' E. unfold automation. now rewrite E. }
  assert (Hall : forall service' n',
            let r := run service' n'
                       (st <- (Log (lit "DECODING ARCHIVES...") ;;;
                               finishUpload toLowerCase (inl read)
                                 (halted (beginUpload st))) ;;
                        st <- automation localeCompare numberToString st ;;
                        automation localeCompare numberToString st) in
            calls (snd r) = []
            /\ fst r
               = fst (run service' n'
                        (finishUpload toLowerCase (inl read)
                           (halted (beginUpload st))))).
  { intros service' n'. cbv zeta.
    destruct (Hfinish service' n') as [Hc [Hs _]].
    rewrite fst_bind, calls_bind, fst_emit, calls_emit, Hc.
    rewrite (Hidle _ Hs). cbn [bind]. rewrite (Hidle _ Hs).
    split; reflexivity. }
  split; [intros service' n'; apply (Hall service' n')|].
  destruct (Hall service n) as [_ ->].
  destruct (Hfinish service n) as [_ H]. exact H.
Qed.

(** The theorem at an upload of one frame into a console that was left
    with a blank script. *)
Lemma upload_over_a_blank_script_witness :
  let read :=
    [(lit "processed_1.zip",
      mkExtracted [(lit "f1.png", sampleFrame)] [sampleText])] in
  let st := setFullScript (Some (mkTextFile (lit "hs4000.txt") []))
              initialState in
  exists console,
    session asciiLowerCase asciiLocaleCompare (fun _ => []) (inl read) st
    = Some console
    /\ stage (fst (run unreachable 0 console)) = IDLE
    /\ error (fst (run unreachable 0 console)) = Some scriptEmptyError
    /\ option_map content (fullScript (fst (run unreachable 0 console)))
       = Some (lit "HELLO THERE").
Proof.
  intros read st.
  destruct (@upload_over_a_blank_script_halts asciiLowerCase
              asciiLocaleCompare (fun _ => []) read st
              (mkTextFile (lit "hs4000.txt") []) unreachable 0
              eq_refl eq_refl ltac:(discriminate) ltac:(discriminate))
    as [console [E [_ [Hstage [Herror [_ [_ [_ Hscript]]]]]]]].
  exists console. split; [exact E|]. split; [exact Hstage|].
  split; [exact Herror|]. rewrite Hscript. reflexivity.
Defined.

(* ================================================================== *)
(** ** Further properties: the files a production run saves *)
(* ================================================================== *)

Section Saved.

Variable localeCompare : jsstring -> jsstring -> Z.
Variable numberToString : spec_float -> jsstring.

Lemma downloads_app (t1 t2 : list Event) :
  downloads (t1 ++ t2) = downloads t1 ++ downloads t2.
Proof.
  induction t1 as [|[req|[msg|prefix|data filename isBase64|msg]] t1 IH];
    simpl; try exact IH; [reflexivity|].
  now rewrite IH.
Qed.

Lemma snd_bind {A B} (service : Service) (n : nat) (m : Eff A)
  (f : A -> Eff B) :
  snd (run service n (bind m f))
  = snd (run service n m)
    ++ snd (run service (n + length (calls (snd (run service n m))))
              (f (fst (run service n m)))).
Proof.
  rewrite run_bind. destruct (run service n m) as [a before]. simpl.
  now destruct (run service (n + length (calls before)) (f a)).
Qed.

Lemma downloads_bind {A B} (service : Service) (n : nat) (m : Eff A)
  (f : A -> Eff B) :
  downloads (snd (run service n (bind m f)))
  = downloads (snd (run service n m))
    ++ downloads (snd (run service
                         (n + length (calls (snd (run service n m))))
                         (f (fst (run service n m))))).
Proof. now rewrite snd_bind, downloads_app. Qed.

Lemma downloads_log {A} (service : Service) (n : nat) (msg : jsstring)
  (k : Eff A) :
  downloads (snd (run service n (Emit (Log msg) k)))
  = downloads (snd (run service n k)).
Proof. simpl. now destruct (run service n k). Qed.

Lemma downloads_revision (service : Service) (n : nat) (prompt : jsstring)
  (avatarBase64 avatarMime : option jsstring)
  (sceneBase64 sceneMime aspectRatio : jsstring) :
  downloads (snd (run service n
                    (generateRevisedImage prompt avatarBase64 avatarMime
                       sceneBase64 sceneMime aspectRatio)))
  = [].
Proof.
  unfold generateRevisedImage. simpl.
  destruct (service n _) as [|r]; [reflexivity|].
  now destruct (outParts r).
Qed.

(** What one frame saves goes with the result it adds. *)
Lemma processFrame_saved (service : Service) (n total i : nat)
  (img : SourceImage) (st : State) :
  let result := run service n (processFrame numberToString total i img st)
  in
  (results (fst result) = results st /\ downloads (snd result) = [])
  \/ exists item,
       results (fst result) = results st ++ [item]
       /\ savedAs item (downloads (snd result)).
Proof.
  intros result. subst result.
  destruct (findText (textFiles st) (frameBase img)) as [tFile|] eqn:Hfind;
    [|unfold processFrame; rewrite Hfind; left; split; reflexivity].
  pose proof (processFrame_run numberToString service n total i img st
                Hfind) as Hrun.
  cbv zeta in Hrun.
  destruct (resolveAvatar numberToString (avatars st) _) as [avatar|];
    [|rewrite Hrun; left; split; reflexivity].
  destruct (toString numberToString _) as [name|];
    [|rewrite Hrun; left; split; reflexivity].
  destruct Hrun as [prompt Hrun].
  pose proof (downloads_revision service (n + 1 + 1 + 1) prompt
                (fst (avatarArguments avatar)) (snd (avatarArguments avatar))
                (base64 img) (mimeType img) defaultAspectRatio) as Hnone.
  destruct (run service (n + 1 + 1 + 1) (generateRevisedImage _ _ _ _ _ _))
    as [[imageBase64|] trace]; cbn [fst snd] in Hrun, Hnone;
    rewrite Hrun; cbn [fst snd app downloads];
    rewrite downloads_app, Hnone; cbn [app downloads].
  - right. eexists. split; [reflexivity|].
    eexists _, _, _. split; reflexivity.
  - left. split; reflexivity.
Qed.




End Saved.


Section Fruitless.

Variable localeCompare : jsstring -> jsstring -> Z.
Variable numberToString : spec_float -> jsstring.

Lemma firstImage_none (partsOut : list (option jsstring)) :
  Forall noImage partsOut -> firstImage partsOut = None.
Proof.
  induction 1 as [|p rest [-> | ->] _ IH]; simpl; [reflexivity | | ];
    exact IH.
Qed.

Lemma revision_without_image (service : Service) (n : nat)
  (prompt : jsstring) (avatarBase64 avatarMime : option jsstring)
  (sceneBase64 sceneMime aspectRatio : jsstring) :
  withoutImages service ->
  fst (run service n
         (generateRevisedImage prompt avatarBase64 avatarMime sceneBase64
            sceneMime aspectRatio))
  = None.
Proof.
  intros H. rewrite run_revision.
  pose proof (H n (revisionRequest prompt avatarBase64 avatarMime
                     sceneBase64 sceneMime aspectRatio) eq_refl) as Him.
  destruct (service n _) as [|response]; [reflexivity|].
  simpl in Him. destruct (outParts response); [|reflexivity].
  now apply firstImage_none.
Qed.

Lemma processFrame_fruitless (service : Service) (n total i : nat)
  (img : SourceImage) (st : State) :
  withoutImages service ->
  let result := run service n (processFrame numberToString total i img st)
  in
  results (fst result) = results st /\ downloads (snd result) = [].
Proof.
  intros H result. subst result.
  destruct (processFrame_saved numberToString service n total i img st)
    as [Hsame | [item [_ Hsaved]]]; [exact Hsame|].
  exfalso. revert Hsaved.
  destruct (findText (textFiles st) (frameBase img)) as [tFile|] eqn:Hfind;
    [|unfold processFrame; rewrite Hfind;
      intros [b [c [d [_ E]]]]; discriminate].
  pose proof (processFrame_run numberToString service n total i img st
                Hfind) as Hrun.
  cbv zeta in Hrun.
  destruct (resolveAvatar numberToString (avatars st) _) as [avatar|];
    [|rewrite Hrun; intros [b [c [d [_ E]]]]; discriminate].
  destruct (toString numberToString _) as [name|];
    [|rewrite Hrun; intros [b [c [d [_ E]]]]; discriminate].
  destruct Hrun as [prompt Hrun].
  rewrite (revision_without_image _ _ _ _ _ _ _ H) in Hrun.
  pose proof (downloads_revision service (n + 1 + 1 + 1) prompt
                (fst (avatarArguments avatar)) (snd (avatarArguments avatar))
                (base64 img) (mimeType img) defaultAspectRatio) as Hnone.
  rewrite Hrun. cbn [fst snd app downloads].
  rewrite downloads_app, Hnone.
  intros [b [c [d [_ E]]]]. discriminate.
Qed.

Lemma forFrames_fruitless (frames : list SourceImage) :
  forall (service : Service) (n total i : nat) (st : State),
    withoutImages service ->
    let result := run service n (forFrames numberToString total i frames st)
    in
    results (fst result) = results st /\ downloads (snd result) = [].
Proof.
  induction frames as [|img frames IH]; intros service n total i st H.
  - split; reflexivity.
  - cbn zeta. cbn [forFrames]. rewrite fst_bind, downloads_bind.
    destruct (processFrame_fruitless n total i img st H) as [Hres Hdown].
    remember (run service n (processFrame numberToString total i img st))
      as step.
    destruct (IH service (n + length (calls (snd step))) total (S i)
                (fst step) H) as [Hres' Hdown'].
    rewrite Hres', Hres, Hdown', Hdown. split; reflexivity.
Qed.

End Fruitless.

(** X18: a result is added only when the image model returns an image.
    With a service whose image model fails or answers without image
    data at every call, the production run adds no result and
    downloads no file; it still makes the calls of each frame that has
    a text asset, two or four for each, and ends at [COMPLETE]. *)
Theorem run_without_images_adds_no_result
  (localeCompare : jsstring -> jsstring -> Z)
  (numberToString : spec_float -> jsstring)
  (service : Service) (n : nat) (st : State) :
  withoutImages service ->
  let framesWithText :=
    filter (hasText (textFiles st))
      (allImages localeCompare (processedImages st)) in
  let result :=
    run service n (processProductionRun localeCompare numberToString st) in
  results (fst result) = results st
  /\ downloads (snd result) = []
  /\ stage (fst result) = COMPLETE
  /\ (exists groups,
        calls (snd result) = concat groups
        /\ Forall2 callsOfFrame framesWithText groups)
  /\ 2 * length framesWithText <= length (calls (snd result))
     <= 4 * length framesWithText.
Proof.
  intros H framesWithText result.
  destruct (productionRun_run localeCompare numberToString service n st)
    as [_ [Hstage [_ [groups [Hcalls Hall]]]]].
  fold result in Hstage, Hcalls. fold framesWithText in Hall.
  assert (Hnone : results (fst result) = results st
                  /\ downloads (snd result) = []).
  { subst result. unfold processProductionRun.
    rewrite fst_emit, downloads_log.
    destruct (Nat.eqb
                (length (allImages localeCompare (processedImages st))) 0);
      [split; reflexivity|].
    rewrite fst_bind, downloads_bind.
    destruct (@forFrames_fruitless numberToString
                (allImages localeCompare (processedImages st)) service n
                (length (allImages localeCompare (processedImages st))) 0
                st H) as [Hres Hdown].
    cbn [run fst snd downloads results setStage].
    rewrite app_nil_r. now split. }
  destruct Hnone as [Hres Hdown].
  split; [exact Hres|]. split; [exact Hdown|]. split; [exact Hstage|].
  split; [now exists groups|].
  rewrite Hcalls. now apply concat_groups_length.
Qed.

(** The theorem at the sample state and a service that cannot be
    reached. *)
Lemma run_without_images_witness :
  let result :=
    run unreachable 0
      (processProductionRun asciiLocaleCompare (fun _ => []) sampleState) in
  results (fst result) = []
  /\ downloads (snd result) = []
  /\ length (calls (snd result)) = 4.
Proof.
  intros result.
  destruct (@run_without_images_adds_no_result asciiLocaleCompare
              (fun _ => []) unreachable 0 sampleState
              (fun _ _ _ => I))
    as [Hres [Hdown _]].
  split; [exact Hres|]. split; [exact Hdown | reflexivity].
Defined.
